(** * BRICK: a shallow embedding of the replay, translation, pattern and
      variation engines, and the properties their specification states.

    Sources embedded here:
    - [types.ts]                   the action data model
    - [absolute-zero-generator.ts] pattern extraction and selection (module AbsoluteZero),
                                   optimisation passes and feedback (module Learning)
    - [mcp.ts]                     instruction translation          (module MCP)
    - [player.ts]                  the replay engine                (module Player)
    - [task-generator.ts]          the variation generator          (module TaskGen)

    Numbers.  A JavaScript [number] is modelled by [JS.number]: an exact
    rational, or one of the three special values the code can produce by
    dividing by zero ([Infinity], [-Infinity], [NaN]).  The sign of zero is
    not modelled; every zero divisor in the embedded code is a difference
    [max - min] or a length, hence [+0].  Rounding to binary64 is modelled
    in [selectRelevantPatterns], where the number of patterns to select is
    the floor of a rounded product ([JS.double], [JS.mul_double]); everywhere
    else the arithmetic is exact. *)

From Stdlib Require Import ZArith QArith Qround Qreduction Qpower String Ascii List Lia Lqa.
From stdpp Require Import base option list strings gmap pretty sorting.

Local Open Scope string_scope.
Local Open Scope list_scope.

(* ===================================================================== *)
(** ** JavaScript numbers *)
(* ===================================================================== *)

Module JS.

Inductive number : Type :=
  | Fin (q : Q)
  | PInf
  | NInf
  | NaN.

Definition of_nat (n : nat) : number := Fin (inject_Z (Z.of_nat n)).

Definition neg (a : number) : number :=
  match a with
  | Fin q => Fin (- q)%Q
  | PInf => NInf
  | NInf => PInf
  | NaN => NaN
  end.

(** [a + b] *)
Definition add (a b : number) : number :=
  match a, b with
  | NaN, _ | _, NaN => NaN
  | Fin p, Fin q => Fin (p + q)%Q
  | PInf, NInf | NInf, PInf => NaN
  | PInf, _ | _, PInf => PInf
  | NInf, _ | _, NInf => NInf
  end.

(** [a - b] *)
Definition sub (a b : number) : number := add a (neg b).

(** The sign of a rational: [Gt] positive, [Eq] zero, [Lt] negative. *)
Definition sign (q : Q) : comparison := (q ?= 0)%Q.

(** [a * b] *)
Definition mul (a b : number) : number :=
  match a, b with
  | NaN, _ | _, NaN => NaN
  | Fin p, Fin q => Fin (p * q)%Q
  | Fin p, PInf | PInf, Fin p =>
      match sign p with Gt => PInf | Lt => NInf | Eq => NaN end
  | Fin p, NInf | NInf, Fin p =>
      match sign p with Gt => NInf | Lt => PInf | Eq => NaN end
  | PInf, PInf | NInf, NInf => PInf
  | PInf, NInf | NInf, PInf => NInf
  end.

(** [a / b]; a zero divisor is [+0]. *)
Definition div (a b : number) : number :=
  match a, b with
  | NaN, _ | _, NaN => NaN
  | Fin p, Fin q =>
      match sign q with
      | Eq => match sign p with Gt => PInf | Lt => NInf | Eq => NaN end
      | _ => Fin (p / q)%Q
      end
  | Fin _, (PInf | NInf) => Fin 0
  | (PInf | NInf), (PInf | NInf) => NaN
  | PInf, Fin q => match sign q with Lt => NInf | _ => PInf end
  | NInf, Fin q => match sign q with Lt => PInf | _ => NInf end
  end.

(** *** Rounding to binary64

    A finite binary64 value is [m * 2^e] with [|m| < 2^53] and
    [-1074 <= e]; from [2^1024] on there is [Infinity].  An arithmetic
    operation returns the value nearest to the exact result, a tie going to
    the value with the even [m]. *)

Definition pow2 (e : Z) : Q := (2 ^ e)%Q.

(** [floor (log2 q)] for a positive rational. *)
Definition ilog2 (q : Q) : Z :=
  let k := (Z.log2 (Qnum q) - Z.log2 (Zpos (Qden q)))%Z in
  if Qle_bool (pow2 k) q then k else (k - 1)%Z.

(** The nearest integer, a tie going to the even one. *)
Definition round_half_even (q : Q) : Z :=
  let f := Qfloor q in
  match (q - inject_Z f ?= 1 # 2)%Q with
  | Lt => f
  | Gt => (f + 1)%Z
  | Eq => if Z.even f then f else (f + 1)%Z
  end.

(** The exponent of the last place of the binary64 values around [q]:
    53 significant bits, and no exponent below that of the subnormals. *)
Definition quantum (q : Q) : Z := Z.max (ilog2 q - 52) (-1074).

Definition double_pos (q : Q) : number :=
  let e := quantum q in
  let x := (inject_Z (round_half_even (q / pow2 e)) * pow2 e)%Q in
  if Qle_bool (pow2 1024) x then PInf else Fin x.

(** The binary64 value of a rational: what a decimal literal denotes, and
    what an operation with this exact result returns. *)
Definition double (q : Q) : number :=
  match (q ?= 0)%Q with
  | Eq => Fin 0
  | Gt => double_pos (Qred q)
  | Lt => neg (double_pos (Qred (- q)))
  end.

(** [a * b] on binary64 values: the exact product, rounded. *)
Definition mul_double (a b : number) : number :=
  match mul a b with
  | Fin q => double q
  | other => other
  end.

(** [a < b]; any comparison with [NaN] is false. *)
Definition lt (a b : number) : bool :=
  match a, b with
  | NaN, _ | _, NaN => false
  | Fin p, Fin q => negb (Qle_bool q p)
  | NInf, (Fin _ | PInf) => true
  | Fin _, PInf => true
  | _, _ => false
  end.

(** [a > b] *)
Definition gt (a b : number) : bool := lt b a.

(** [a >= b] *)
Definition ge (a b : number) : bool :=
  match a, b with
  | NaN, _ | _, NaN => false
  | Fin p, Fin q => Qle_bool q p
  | PInf, _ => true
  | _, NInf => true
  | _, _ => false
  end.

(** [a === b] on numbers. *)
Definition eqb (a b : number) : bool :=
  match a, b with
  | Fin p, Fin q => Qeq_bool p q
  | PInf, PInf | NInf, NInf => true
  | _, _ => false
  end.

(** Two-argument [Math.min] and [Math.max]: [NaN] is contagious. *)
Definition Math_min (a b : number) : number :=
  match a, b with
  | NaN, _ | _, NaN => NaN
  | _, _ => if lt b a then b else a
  end.

Definition Math_max (a b : number) : number :=
  match a, b with
  | NaN, _ | _, NaN => NaN
  | _, _ => if lt a b then b else a
  end.

(** [Math.min(...xs)] and [Math.max(...xs)]: the empty spread gives
    [Infinity] and [-Infinity]. *)
Definition Math_min_list (xs : list number) : number := fold_left Math_min xs PInf.
Definition Math_max_list (xs : list number) : number := fold_left Math_max xs NInf.

Definition Math_floor (a : number) : number :=
  match a with
  | Fin q => Fin (inject_Z (Qfloor q))
  | other => other
  end.

(** [ToIntegerOrInfinity] on a finite value: truncation towards zero. *)
Definition truncate (q : Q) : Z :=
  if Qle_bool 0 q then Qfloor q else Qceiling q.

(** [xs.slice(0, end)]: [NaN] counts as 0, a negative [end] is taken from
    the end of the array, and [end] is clamped to the length. *)
Definition slice_to {A} (xs : list A) (stop : number) : list A :=
  match stop with
  | Fin q =>
      let z := truncate q in
      if (z <? 0)%Z then take (Z.to_nat (Z.of_nat (length xs) + z)) xs
      else take (Z.to_nat z) xs
  | PInf => xs
  | NInf | NaN => []
  end.

(** [xs.sort(compare)]: the array sorted by a stable insertion sort, which
    is what every conforming sort returns when [compare] is a consistent
    comparator; a [NaN] from [compare] counts as [+0]. *)
Fixpoint sort_insert {A} (compare : A -> A -> number) (x : A) (sorted : list A) : list A :=
  match sorted with
  | [] => [x]
  | y :: rest =>
      if gt (compare y x) (Fin 0) then x :: y :: rest
      else y :: sort_insert compare x rest
  end.

Definition sort {A} (compare : A -> A -> number) (xs : list A) : list A :=
  fold_left (fun sorted x => sort_insert compare x sorted) xs [].

(** [xs.slice(start, stop)] for whole-number arguments: a negative index
    counts from the end, and both are clamped to the array. *)
Definition relative_index (len : nat) (z : Z) : nat :=
  if (z <? 0)%Z then Z.to_nat (Z.of_nat len + z) else Nat.min (Z.to_nat z) len.

Definition slice {A} (xs : list A) (start stop : Z) : list A :=
  let first := relative_index (length xs) start in
  let final := relative_index (length xs) stop in
  take (final - first) (drop first xs).

(** [Math.max(x, ...xs)] when all the arguments are finite. *)
Definition Math_max_finite (x : Q) (xs : list Q) : Q :=
  fold_left (fun m y => if Qle_bool y m then m else y) xs x.

End JS.

Abbreviation number := JS.number.

(* ===================================================================== *)
(** ** The action data model ([types.ts]) *)
(* ===================================================================== *)

(** Fields typed [number] that are stored in a recording hold a finite
    value (a recording is a JSON document), so they are rationals.  An
    optional field [f?: T] is an [option T]; the test ['f' in obj] is
    "the field is present".  String-literal unions (the event subtypes)
    are strings, as they are at run time.  Sub-objects that the embedded code
    only copies and compares ([process], [service], [attributes],
    [processChain], [parameters], [result]) are kept as their JSON text. *)

Definition json := string.

Inductive ActionType := mouse | keyboard | system.

Record Bounds := {
  b_x : Q; b_y : Q; b_width : Q; b_height : Q }.

Record BrickCoordinates := {
  c_x : Q;
  c_y : Q;
  c_screen : option Q;
  c_relative : option bool }.

Record Target := {
  tg_element : string;
  tg_selector : string;
  tg_text : option string;
  tg_attributes : option json;
  tg_role : option string }.

Record BrickMouseEvent := {
  me_type : string;
  me_coordinates : BrickCoordinates;
  me_target : option Target;
  me_button : option Z;
  me_pressure : option Q;
  me_timestamp : Q }.

Record Modifiers := {
  md_ctrl : option bool; md_alt : option bool; md_shift : option bool;
  md_meta : option bool; md_fn : option bool }.

Record BrickKeyboardEvent := {
  ke_type : string;
  ke_key : string;
  ke_keyCode : option Z;
  ke_modifiers : option Modifiers;
  ke_repeat : option bool;
  ke_timestamp : Q }.

Record BrickSystemCall := {
  sc_type : string;
  sc_module : string;
  sc_function : string;
  sc_parameters : option json;
  sc_result : option json;
  sc_error : option string;
  sc_timestamp : Q }.

Record WindowInfo := {
  w_title : string;
  w_handle : option Z;
  w_bounds : option Bounds;
  w_isFullscreen : option bool;
  w_isMinimized : option bool;
  w_isMaximized : option bool }.

Record BrickSystemEvent := {
  se_type : string;
  se_process : option json;
  se_service : option json;
  se_systemCall : option BrickSystemCall;
  se_window : option WindowInfo;
  se_timestamp : Q }.

(** [event: BrickMouseEvent | BrickKeyboardEvent | BrickSystemEvent].  The
    union is not tied to the action's [type] tag by the declaration, and the
    code tells the members apart by field presence. *)
Inductive Event :=
  | MouseEvent (e : BrickMouseEvent)
  | KeyboardEvent (e : BrickKeyboardEvent)
  | SystemEvent (e : BrickSystemEvent).

Record OsInfo := { os_name : string; os_version : string; os_arch : string }.

Record Screen := {
  scr_id : Z;
  scr_bounds : Bounds;
  scr_primary : bool;
  scr_scaleFactor : Q }.

Record Display := { screens : list Screen }.

Record BrickEnvironmentContext := {
  env_os : OsInfo;
  env_display : Display;
  env_locale : string;
  env_timezone : string }.

Record SystemState := {
  cpuUsage : Q;
  memoryUsage : Q;
  activeProcesses : Q;
  activeServices : Q }.

(** Of a GUI element only the fields without recursion are kept
    ([attributes], [container] and [children] are not read by the embedded
    code); [regions] likewise. *)
Record BrickGUIElement := {
  ge_type : string;
  ge_text : option string;
  ge_confidence : option Q;
  ge_bounds : Bounds }.

Record GuiState := { elements : list BrickGUIElement }.

Record Context := {
  windowTitle : option string;
  activeApp : option string;
  screenResolution : option (Q * Q);
  environment : option BrickEnvironmentContext;
  processChain : option json;
  systemState : option SystemState;
  guiState : option GuiState }.

(** An action whose [context] field is a [C]: the context object itself for
    the functions that only read it, a reference into an object store where
    the code writes through it. *)
Record Action (C : Type) := mkAction {
  a_id : string;
  a_type : ActionType;
  a_event : Event;
  a_context : C }.
Arguments mkAction {C}.
Arguments a_id {C}.
Arguments a_type {C}.
Arguments a_event {C}.
Arguments a_context {C}.

Record Recording (C : Type) := mkRecording {
  r_id : string;
  r_name : string;
  r_description : string;
  r_actions : list (Action C);
  r_environment : BrickEnvironmentContext;
  r_created_at : string;
  r_tags : list string }.
Arguments mkRecording {C}.
Arguments r_id {C}.
Arguments r_name {C}.
Arguments r_description {C}.
Arguments r_actions {C}.
Arguments r_environment {C}.
Arguments r_created_at {C}.
Arguments r_tags {C}.

Abbreviation BrickAction := (Action Context).
Abbreviation TaskRecording := (Recording Context).

(** [event.timestamp], a field of all three event types. *)
Definition timestamp (e : Event) : Q :=
  match e with
  | MouseEvent m => me_timestamp m
  | KeyboardEvent k => ke_timestamp k
  | SystemEvent s => se_timestamp s
  end.

(** [event.type], the subtype. *)
Definition subtype (e : Event) : string :=
  match e with
  | MouseEvent m => me_type m
  | KeyboardEvent k => ke_type k
  | SystemEvent s => se_type s
  end.

(** *** Equality of serialised events

    [JSON.stringify(e1) === JSON.stringify(e2)]: two events of the model have
    the same JSON text exactly when they are the same member of the union with
    equal fields (numbers compared by value). *)

Definition option_eqb {A} (eqb : A -> A -> bool) (a b : option A) : bool :=
  match a, b with
  | Some u, Some v => eqb u v
  | None, None => true
  | _, _ => false
  end.

Definition bounds_eqb (a b : Bounds) : bool :=
  Qeq_bool (b_x a) (b_x b) && Qeq_bool (b_y a) (b_y b)
  && Qeq_bool (b_width a) (b_width b) && Qeq_bool (b_height a) (b_height b).

Definition coordinates_eqb (a b : BrickCoordinates) : bool :=
  Qeq_bool (c_x a) (c_x b) && Qeq_bool (c_y a) (c_y b)
  && option_eqb Qeq_bool (c_screen a) (c_screen b)
  && option_eqb Bool.eqb (c_relative a) (c_relative b).

Definition target_eqb (a b : Target) : bool :=
  String.eqb (tg_element a) (tg_element b)
  && String.eqb (tg_selector a) (tg_selector b)
  && option_eqb String.eqb (tg_text a) (tg_text b)
  && option_eqb String.eqb (tg_attributes a) (tg_attributes b)
  && option_eqb String.eqb (tg_role a) (tg_role b).

Definition mouse_event_eqb (a b : BrickMouseEvent) : bool :=
  String.eqb (me_type a) (me_type b)
  && coordinates_eqb (me_coordinates a) (me_coordinates b)
  && option_eqb target_eqb (me_target a) (me_target b)
  && option_eqb Z.eqb (me_button a) (me_button b)
  && option_eqb Qeq_bool (me_pressure a) (me_pressure b)
  && Qeq_bool (me_timestamp a) (me_timestamp b).

Definition modifiers_eqb (a b : Modifiers) : bool :=
  option_eqb Bool.eqb (md_ctrl a) (md_ctrl b)
  && option_eqb Bool.eqb (md_alt a) (md_alt b)
  && option_eqb Bool.eqb (md_shift a) (md_shift b)
  && option_eqb Bool.eqb (md_meta a) (md_meta b)
  && option_eqb Bool.eqb (md_fn a) (md_fn b).

Definition keyboard_event_eqb (a b : BrickKeyboardEvent) : bool :=
  String.eqb (ke_type a) (ke_type b)
  && String.eqb (ke_key a) (ke_key b)
  && option_eqb Z.eqb (ke_keyCode a) (ke_keyCode b)
  && option_eqb modifiers_eqb (ke_modifiers a) (ke_modifiers b)
  && option_eqb Bool.eqb (ke_repeat a) (ke_repeat b)
  && Qeq_bool (ke_timestamp a) (ke_timestamp b).

Definition system_call_eqb (a b : BrickSystemCall) : bool :=
  String.eqb (sc_type a) (sc_type b)
  && String.eqb (sc_module a) (sc_module b)
  && String.eqb (sc_function a) (sc_function b)
  && option_eqb String.eqb (sc_parameters a) (sc_parameters b)
  && option_eqb String.eqb (sc_result a) (sc_result b)
  && option_eqb String.eqb (sc_error a) (sc_error b)
  && Qeq_bool (sc_timestamp a) (sc_timestamp b).

Definition window_eqb (a b : WindowInfo) : bool :=
  String.eqb (w_title a) (w_title b)
  && option_eqb Z.eqb (w_handle a) (w_handle b)
  && option_eqb bounds_eqb (w_bounds a) (w_bounds b)
  && option_eqb Bool.eqb (w_isFullscreen a) (w_isFullscreen b)
  && option_eqb Bool.eqb (w_isMinimized a) (w_isMinimized b)
  && option_eqb Bool.eqb (w_isMaximized a) (w_isMaximized b).

Definition system_event_eqb (a b : BrickSystemEvent) : bool :=
  String.eqb (se_type a) (se_type b)
  && option_eqb String.eqb (se_process a) (se_process b)
  && option_eqb String.eqb (se_service a) (se_service b)
  && option_eqb system_call_eqb (se_systemCall a) (se_systemCall b)
  && option_eqb window_eqb (se_window a) (se_window b)
  && Qeq_bool (se_timestamp a) (se_timestamp b).

Definition json_event_eqb (a b : Event) : bool :=
  match a, b with
  | MouseEvent u, MouseEvent v => mouse_event_eqb u v
  | KeyboardEvent u, KeyboardEvent v => keyboard_event_eqb u v
  | SystemEvent u, SystemEvent v => system_event_eqb u v
  | _, _ => false
  end.

Definition action_type_eqb (a b : ActionType) : bool :=
  match a, b with
  | mouse, mouse | keyboard, keyboard | system, system => true
  | _, _ => false
  end.

(* ===================================================================== *)
(** ** Strings *)
(* ===================================================================== *)

(** [s.toLowerCase()] on the ASCII letters. *)
Definition lower_ascii (c : ascii) : ascii :=
  let n := nat_of_ascii c in
  if (65 <=? n)%nat && (n <=? 90)%nat then ascii_of_nat (n + 32) else c.

Fixpoint toLowerCase (s : string) : string :=
  match s with
  | EmptyString => EmptyString
  | String c rest => String (lower_ascii c) (toLowerCase rest)
  end.

(** [hay.includes(needle)] *)
Fixpoint includes (hay needle : string) : bool :=
  String.prefix needle hay
  || match hay with
     | EmptyString => false
     | String _ rest => includes rest needle
     end.

(* ===================================================================== *)
(** ** Pattern extraction and selection ([absolute-zero-generator.ts]) *)
(* ===================================================================== *)

Module AbsoluteZero.

Record SuccessMetrics := {
  completionRate : number;
  executionTime : number;
  errorRate : number;
  userSatisfaction : number }.

Record ContextFeatures := {
  cf_environment : list string;
  cf_guiElements : list string;
  cf_systemState : gmap string Q }.

Record TaskPattern := {
  p_id : string;
  actionSequence : list string;
  successMetrics : SuccessMetrics;
  contextFeatures : ContextFeatures;
  emergentBehaviors : list string }.

(** [Partial<BrickEnvironmentContext>] *)
Record ContextHints := {
  h_os : option OsInfo;
  h_display : option Display;
  h_locale : option string;
  h_timezone : option string }.

(** *** Scoring a recording *)

(** A system action whose event has a [systemCall] is an error when the
    call's [error] is defined; every other action, the mouse actions with a
    target included, is not. *)
Definition isErrorAction (action : BrickAction) : bool :=
  match a_type action, a_event action with
  | system, SystemEvent s =>
      match se_systemCall s with
      | Some call => bool_decide (is_Some (sc_error call))
      | None => false
      end
  | _, _ => false
  end.

Definition getTotalExecutionTime (actions : list BrickAction) : number :=
  match actions with
  | [] => JS.Fin 0
  | _ =>
      let timestamps := map (fun a => JS.Fin (timestamp (a_event a))) actions in
      JS.sub (JS.Math_max_list timestamps) (JS.Math_min_list timestamps)
  end.

Definition calculateOptimalTime (actions : list BrickAction) : number :=
  JS.mul (JS.of_nat (length actions)) (JS.Fin 50).

Definition calculateExecutionEfficiency (actions : list BrickAction) : number :=
  match actions with
  | [] => JS.Fin 0
  | _ =>
      let totalTime := getTotalExecutionTime actions in
      let optimalTime := calculateOptimalTime actions in
      JS.Math_min (JS.Fin 1) (JS.div optimalTime totalTime)
  end.

Definition areActionsSimilar (action1 action2 : BrickAction) : bool :=
  action_type_eqb (a_type action1) (a_type action2)
  && json_event_eqb (a_event action1) (a_event action2).

(** The loop [for (i = 1; i < actions.length; i++)] over adjacent pairs. *)
Fixpoint countRedundantActions (actions : list BrickAction) : nat :=
  match actions with
  | previous :: (current :: _) as rest =>
      (if areActionsSimilar previous current then 1 else 0)
      + countRedundantActions rest
  | _ => 0
  end.

Definition calculateCleanlinessScore (actions : list BrickAction) : number :=
  let redundantActions := countRedundantActions actions in
  let totalActions := length actions in
  JS.Math_max (JS.Fin 0)
    (JS.sub (JS.Fin 1) (JS.div (JS.of_nat redundantActions) (JS.of_nat totalActions))).

(** The three constants of [hasPositiveFeedback].  The code computes all
    three before it combines them, so both scores are evaluated on every
    recording, the empty one included. *)
Definition hasCompletedSuccessfully (task : TaskRecording) : bool :=
  (0 <? length (r_actions task))%nat
  && negb (existsb isErrorAction (r_actions task)).

Definition hasOptimalTiming (task : TaskRecording) : bool :=
  JS.gt (calculateExecutionEfficiency (r_actions task)) (JS.Fin (7 # 10)).

Definition hasCleanExecution (task : TaskRecording) : bool :=
  JS.gt (calculateCleanlinessScore (r_actions task)) (JS.Fin (8 # 10)).

Definition hasPositiveFeedback (task : TaskRecording) : bool :=
  hasCompletedSuccessfully task && hasOptimalTiming task && hasCleanExecution task.

(** *** Distilling a pattern *)

Definition extractActionSequence (actions : list BrickAction) : list string :=
  map (fun action =>
         match a_type action with
         | mouse => "mouse:" +:+ subtype (a_event action)
         | keyboard => "keyboard:" +:+ subtype (a_event action)
         | system => "system:" +:+ subtype (a_event action)
         end) actions.

(** [Object.entries(action.context.systemState)] *)
Definition systemState_entries (st : SystemState) : list (string * Q) :=
  [ ("cpuUsage", cpuUsage st); ("memoryUsage", memoryUsage st);
    ("activeProcesses", activeProcesses st); ("activeServices", activeServices st) ].

Definition aggregateSystemState (actions : list BrickAction) : gmap string Q :=
  fold_left
    (fun state action =>
       match systemState (a_context action) with
       | Some st =>
           fold_left
             (fun state '(key, value) =>
                <[key := (default 0%Q (state !! key) + value)%Q]> state)
             (systemState_entries st) state
       | None => state
       end)
    actions ∅.

Definition extractContextFeatures (task : TaskRecording) : ContextFeatures :=
  {| cf_environment :=
       [ os_name (env_os (r_environment task));
         env_locale (r_environment task);
         env_timezone (r_environment task) ];
     cf_guiElements :=
       flat_map
         (fun action =>
            match guiState (a_context action) with
            | Some gui => map ge_type (elements gui)
            | None => []
            end)
         (r_actions task);
     cf_systemState := aggregateSystemState (r_actions task) |}.

Definition findActionSequences (actions : list BrickAction) : list string := [].
Definition findAdaptiveBehaviors (actions : list BrickAction) : list string :=
  ["adaptive-timing"; "context-awareness"].
Definition findOptimizationPatterns (actions : list BrickAction) : list string :=
  ["efficient-navigation"; "minimal-clicks"].

Definition identifyEmergentBehaviors (actions : list BrickAction) : list string :=
  findActionSequences actions ++ findAdaptiveBehaviors actions
  ++ findOptimizationPatterns actions.

Definition inferUserSatisfaction (actions : list BrickAction) : number :=
  let efficiency := calculateExecutionEfficiency actions in
  let cleanliness := calculateCleanlinessScore actions in
  JS.div (JS.add efficiency cleanliness) (JS.Fin 2).

(** [uuid] is the value [crypto.randomUUID()] returns for this pattern. *)
Definition extractSuccessPattern (uuid : string) (task : TaskRecording) : TaskPattern :=
  {| p_id := uuid;
     actionSequence := extractActionSequence (r_actions task);
     successMetrics :=
       {| completionRate := JS.Fin 1;
          executionTime := getTotalExecutionTime (r_actions task);
          errorRate := JS.Fin 0;
          userSatisfaction := inferUserSatisfaction (r_actions task) |};
     contextFeatures := extractContextFeatures task;
     emergentBehaviors := identifyEmergentBehaviors (r_actions task) |}.

(** *** The pattern store

    [successPatterns: Map<string, TaskPattern>]: a JavaScript [Map] iterates in
    insertion order, and [set] on a key already present keeps its place. *)
Definition PatternStore := list (string * TaskPattern).

Fixpoint Map_set (key : string) (value : TaskPattern) (m : PatternStore) : PatternStore :=
  match m with
  | [] => [(key, value)]
  | (k, v) :: rest =>
      if String.eqb k key then (k, value) :: rest
      else (k, v) :: Map_set key value rest
  end.

Definition Map_values (m : PatternStore) : list TaskPattern := map snd m.

(** The loop of [initializeFromSuccessfulTasks] over the recordings the
    database returned.  [uuids n] is the result of the [n]-th call of
    [crypto.randomUUID()]; [calls] counts the calls made so far. *)
Fixpoint initialize_loop (uuids : nat -> string) (calls : nat)
    (allTasks : list TaskRecording) (store : PatternStore) : PatternStore :=
  match allTasks with
  | [] => store
  | task :: rest =>
      if hasPositiveFeedback task then
        let pattern := extractSuccessPattern (uuids calls) task in
        initialize_loop uuids (S calls) rest (Map_set (p_id pattern) pattern store)
      else initialize_loop uuids calls rest store
  end.

(** [searchRecordings('')] either returns the stored recordings or throws;
    the [catch] logs the error and leaves the store as it is. *)
Definition initializeFromSuccessfulTasks (uuids : nat -> string)
    (searchRecordings : option (list TaskRecording)) (store : PatternStore) : PatternStore :=
  match searchRecordings with
  | Some allTasks => initialize_loop uuids 0 allTasks store
  | None => store
  end.

(** *** Selecting patterns *)

Definition isPatternRelevant (pattern : TaskPattern) (contextHints : ContextHints) : bool :=
  match h_os contextHints with
  | None => true
  | Some os =>
      existsb (fun env => includes (toLowerCase env) (toLowerCase (os_name os)))
        (cf_environment (contextFeatures pattern))
  end.

Definition calculatePatternScore (pattern : TaskPattern) : number :=
  let m := successMetrics pattern in
  let successWeight := JS.mul (completionRate m) (JS.Fin (4 # 10)) in
  let efficiencyWeight := JS.mul (JS.div (JS.Fin 1) (executionTime m)) (JS.Fin (3 # 10)) in
  let reliabilityWeight := JS.mul (JS.sub (JS.Fin 1) (errorRate m)) (JS.Fin (2 # 10)) in
  let satisfactionWeight := JS.mul (userSatisfaction m) (JS.Fin (1 # 10)) in
  JS.add (JS.add (JS.add successWeight efficiencyWeight) reliabilityWeight) satisfactionWeight.

(** [generateFutureTask(contextHints, complexityLevel)] starts by calling
    [selectRelevantPatterns] with its two arguments; the patterns returned
    are the ones it reconstructs actions from and counts in the description
    of the generated task. *)
Definition selectRelevantPatterns (successPatterns : PatternStore)
    (contextHints : ContextHints) (complexityLevel : number) : list TaskPattern :=
  let patterns := Map_values successPatterns in
  JS.slice_to
    (JS.sort (fun a b => JS.sub (calculatePatternScore b) (calculatePatternScore a))
       (List.filter (fun pattern => isPatternRelevant pattern contextHints) patterns))
    (JS.Math_max (JS.Fin 1)
       (JS.Math_floor (JS.mul_double complexityLevel (JS.of_nat (length patterns))))).

End AbsoluteZero.

(* ===================================================================== *)
(** ** Instruction translation ([mcp.ts]) *)
(* ===================================================================== *)

Module MCP.

(** ['click' | 'type' | 'navigate' | 'system' | 'wait']; [system_call] stands
    for ['system'], a name the action types already use. *)
Inductive InstructionType := click | type | navigate | system_call | wait.

Record MCPInstruction := {
  i_type : InstructionType;
  i_target : option string;
  i_value : option string;
  i_selector : option string;
  i_systemCall : option BrickSystemCall;
  i_description : string;
  i_context : option string }.

(** The double-quote character of the template [`Type "${...}"`]. *)
Definition dquote : string := String (ascii_of_nat 34) EmptyString.

(** [a || b] on an optional string and a string: [a] when it is present and
    not empty. *)
Definition or_else (a : option string) (b : string) : string :=
  match a with
  | Some (String c rest) => String c rest
  | _ => b
  end.

(** The first statement of the loop body: a window title that is present,
    not empty and different from [currentContext] becomes the context and
    pushes a focus instruction. *)
Definition focus_window (currentContext : string) (action : BrickAction)
    : string * list MCPInstruction :=
  match windowTitle (a_context action) with
  | Some (String c rest) =>
      let title := String c rest in
      if negb (String.eqb title currentContext) then
        (title,
         [ {| i_type := system_call; i_target := None; i_value := None;
              i_selector := None; i_systemCall := None;
              i_description := "Focus window: " +:+ title;
              i_context := Some title |} ])
      else (currentContext, [])
  | _ => (currentContext, [])
  end.

(** The [switch (action.type)] of the loop body. *)
Definition action_instructions (currentContext : string) (action : BrickAction)
    : list MCPInstruction :=
  match a_type action with
  | mouse =>
      match a_event action with
      | MouseEvent m =>
          match me_target m with
          | Some target =>
              [ {| i_type := click;
                   i_target := Some (or_else (tg_text target) (tg_element target));
                   i_value := None;
                   i_selector := Some (tg_selector target);
                   i_systemCall := None;
                   i_description :=
                     "Click " +:+ or_else (tg_text target) (tg_element target);
                   i_context := Some currentContext |} ]
          | None => []
          end
      | _ => []
      end
  | keyboard =>
      match a_event action with
      | KeyboardEvent k =>
          if String.eqb (ke_type k) "textInput" then
            [ {| i_type := type; i_target := None;
                 i_value := Some (ke_key k);
                 i_selector := None; i_systemCall := None;
                 i_description := "Type " +:+ dquote +:+ ke_key k +:+ dquote;
                 i_context := Some currentContext |} ]
          else []
      | _ => []
      end
  | system =>
      match a_event action with
      | SystemEvent e =>
          match se_systemCall e with
          | Some call =>
              [ {| i_type := system_call; i_target := None; i_value := None;
                   i_selector := None;
                   i_systemCall := Some call;
                   i_description :=
                     "Execute system call: " +:+ sc_type call +:+ " - "
                     +:+ sc_function call;
                   i_context := Some currentContext |} ]
          | None => []
          end
      | _ => []
      end
  end.

(** The [for (const action of actions)] loop: the instructions pushed, in
    order, starting from [currentContext]. *)
Fixpoint translate_loop (currentContext : string) (actions : list BrickAction)
    : list MCPInstruction :=
  match actions with
  | [] => []
  | action :: rest =>
      let '(context, focus) := focus_window currentContext action in
      focus ++ action_instructions context action ++ translate_loop context rest
  end.

Definition type_instruction (text context : string) : MCPInstruction :=
  {| i_type := type; i_target := None; i_value := Some text;
     i_selector := None; i_systemCall := None;
     i_description := "Type " +:+ dquote +:+ text +:+ dquote;
     i_context := Some context |}.

Definition is_type (i : MCPInstruction) : bool :=
  match i_type i with type => true | _ => false end.

(** The coalescing pass; the loop state is [currentTextInput] and
    [currentContext], and the result is what was pushed on [optimized]. *)
Fixpoint optimize_loop (currentTextInput currentContext : string)
    (instructions : list MCPInstruction) : list MCPInstruction :=
  match instructions with
  | [] =>
      if negb (String.eqb currentTextInput "")
      then [type_instruction currentTextInput currentContext] else []
  | instruction :: rest =>
      if is_type instruction
         && option_eqb String.eqb (i_context instruction) (Some currentContext)
      then
        optimize_loop (currentTextInput +:+ or_else (i_value instruction) "")
          currentContext rest
      else
        let flushed :=
          if negb (String.eqb currentTextInput "")
          then [type_instruction currentTextInput currentContext] else [] in
        flushed ++ instruction
          :: optimize_loop "" (or_else (i_context instruction) currentContext) rest
  end.

Definition optimizeInstructions (instructions : list MCPInstruction)
    : list MCPInstruction :=
  optimize_loop "" "" instructions.

Definition translateToInstructions (actions : list BrickAction) : list MCPInstruction :=
  optimizeInstructions (translate_loop "" actions).

(** *** The stub script *)

Definition newline : string := String (ascii_of_nat 10) EmptyString.

(** [`${x}`] for an optional string: [undefined] prints as its name. *)
Definition template (x : option string) : string :=
  match x with
  | Some text => text
  | None => "undefined"
  end.

(** What the [switch] of [generateExecutableCode] appends for one
    instruction. *)
Definition statement (instruction : MCPInstruction) : string :=
  match i_type instruction with
  | click => "  await click('" +:+ template (i_selector instruction) +:+ "');" +:+ newline
  | type => "  await type('" +:+ template (i_value instruction) +:+ "');" +:+ newline
  | system_call =>
      match i_systemCall instruction with
      | Some call =>
          "  await executeSystemCall('" +:+ sc_type call +:+ "', "
          +:+ template (sc_parameters call) +:+ ");" +:+ newline
      | None => ""
      end
  | wait => "  await wait(1000);" +:+ newline
  | navigate => ""
  end.

Definition generateExecutableCode (instructions : list MCPInstruction) : string :=
  fold_left (fun code instruction => code +:+ statement instruction) instructions
    ("async function executeTask() {" +:+ newline)
  +:+ "}" +:+ newline.

(** The text entered by the type instructions of a list, in order. *)
Definition typed_text (instructions : list MCPInstruction) : string :=
  fold_right (fun i text => if is_type i then or_else (i_value i) "" +:+ text else text)
    "" instructions.

(** What the pass leaves when it flushes the text it has gathered. *)
Definition flush (text context : string) : list MCPInstruction :=
  if negb (String.eqb text "") then [type_instruction text context] else [].

(** The key a keyboard action carries. *)
Definition key_of (a : BrickAction) : string :=
  match a_event a with
  | KeyboardEvent k => ke_key k
  | _ => ""
  end.

(** The instruction pushed when the window changes to [title]. *)
Definition focus_instruction (title : string) : MCPInstruction :=
  {| i_type := system_call; i_target := None; i_value := None;
     i_selector := None; i_systemCall := None;
     i_description := "Focus window: " +:+ title;
     i_context := Some title |}.

(** A text-input keyboard action recorded in the window [title]. *)
Definition text_input_in (title : option string) (a : BrickAction) : Prop :=
  a_type a = keyboard /\ windowTitle (a_context a) = title
  /\ exists k, a_event a = KeyboardEvent k /\ ke_type k = "textInput".

Definition joined_keys (actions : list BrickAction) : string :=
  fold_right (fun a text => key_of a +:+ text) "" actions.

(** The instructions for which the stub script has a statement. *)
Definition has_statement (i : MCPInstruction) : bool :=
  match i_type i, i_systemCall i with
  | navigate, _ => false
  | system_call, None => false
  | _, _ => true
  end.

(** *** The vocabulary of the translation properties *)

(** An instruction that only announces a change of window: of type
    [system], without a system call. *)
Definition is_focus (i : MCPInstruction) : bool :=
  match i_type i, i_systemCall i with
  | system_call, None => true
  | _, _ => false
  end.

(** The three kinds of action the loop has an instruction for. *)
Definition has_instruction (a : BrickAction) : bool :=
  match a_type a, a_event a with
  | mouse, MouseEvent m => match me_target m with Some _ => true | None => false end
  | keyboard, KeyboardEvent k => String.eqb (ke_type k) "textInput"
  | system, SystemEvent e => match se_systemCall e with Some _ => true | None => false end
  | _, _ => false
  end.

(** The instruction an action of one of these kinds is mapped to. *)
Inductive translates_to : BrickAction -> MCPInstruction -> Prop :=
  | click_of_mouse a m target i :
      a_type a = mouse -> a_event a = MouseEvent m -> me_target m = Some target ->
      i_type i = click ->
      i_target i = Some (match tg_text target with
                         | Some (String c rest) => String c rest
                         | _ => tg_element target
                         end) ->
      i_selector i = Some (tg_selector target) ->
      translates_to a i
  | type_of_text_input a k i :
      a_type a = keyboard -> a_event a = KeyboardEvent k -> ke_type k = "textInput" ->
      i_type i = type ->
      i_value i = Some (ke_key k) ->
      translates_to a i
  | system_of_call a e call i :
      a_type a = system -> a_event a = SystemEvent e -> se_systemCall e = Some call ->
      i_type i = system_call ->
      i_systemCall i = Some call ->
      translates_to a i.

End MCP.

(* ===================================================================== *)
(** ** The replay engine ([player.ts]) *)
(* ===================================================================== *)

Module Player.

(** How an awaited call settles: it returns, or it throws an error. *)
Inductive Result (A : Type) :=
  | Ok (value : A)
  | Throw (error : string).
Arguments Ok {A}.
Arguments Throw {A}.

(** What a run does that can be observed from outside the engine. *)
Inductive Obs :=
  | Dispatch (action : BrickAction)            (* executeAction(action) entered *)
  | ConsoleError (message error : string)      (* console.error(message, error) *)
  | Timeout (delay : Q).                       (* setTimeout(resolve, delay) awaited *)

Record BrickPlayer := {
  actions : list BrickAction;
  isPlaying : bool;
  currentIndex : nat }.

Definition dispatched (log : list Obs) : list BrickAction :=
  flat_map (fun o => match o with Dispatch a => [a] | _ => [] end) log.

Section Replay.

(** The document the engine acts on, and the two handlers that touch nothing
    else: each returns the document it leaves behind, or throws. *)
Variable World : Type.
Variable executeMouseAction : BrickAction -> World -> Result World.
Variable executeSystemAction : BrickAction -> World -> Result World.

(** [executeAction]: the [switch] on the action's type, inside a [try] whose
    [catch] logs and rethrows.  The keyboard case calls
    [this.executeKeyboardAction], a method the class does not define (its
    keyboard handler is named [executeKeyboardEvent]), so the call throws. *)
Definition executeAction (action : BrickAction) (w : World) : list Obs * Result World :=
  let body :=
    match a_type action with
    | mouse => executeMouseAction action w
    | keyboard => Throw "TypeError: this.executeKeyboardAction is not a function"
    | system => executeSystemAction action w
    end in
  match body with
  | Ok w' => ([Dispatch action], Ok w')
  | Throw error =>
      ([Dispatch action;
        ConsoleError ("Error executing action " +:+ a_id action +:+ ":") error],
       Throw error)
  end.

(** The delay awaited after the action at [currentIndex - 1] when another
    action follows. *)
Definition delay_before (next : option BrickAction) (action : BrickAction) : list Obs :=
  match next with
  | Some nextAction =>
      let delay := (timestamp (a_event nextAction) - timestamp (a_event action))%Q in
      if negb (Qle_bool delay 0) then [Timeout delay] else []
  | None => []
  end.

(** The [while] loop.  [stops i] tells whether [stop()] is called while
    iteration [i] is suspended at one of its [await]s; the flag it clears is
    read again only by the loop condition.  [fuel] bounds the number of
    iterations; [None] is "out of fuel". *)
Fixpoint play_loop (stops : nat -> bool) (fuel : nat) (p : BrickPlayer) (w : World)
    (log : list Obs) : option (BrickPlayer * World * list Obs * Result unit) :=
  if (currentIndex p <? length (actions p))%nat && isPlaying p then
    match fuel with
    | O => None
    | S fuel' =>
        match actions p !! currentIndex p with
        | None => Some (p, w, log, Throw "TypeError: action is undefined")
        | Some action =>
            match executeAction action w with
            | (obs, Throw error) => Some (p, w, log ++ obs, Throw error)
            | (obs, Ok w') =>
                let index := S (currentIndex p) in
                let sleep :=
                  if (index <? length (actions p))%nat
                  then delay_before (actions p !! index) action else [] in
                let p' :=
                  {| actions := actions p;
                     isPlaying := isPlaying p && negb (stops (currentIndex p));
                     currentIndex := index |} in
                play_loop stops fuel' p' w' (log ++ obs ++ sleep)
            end
        end
    end
  else Some (p, w, log, Ok tt).

(** [play()]: the guard, the loop inside [try], the [catch] that logs the
    error, and the [finally] that clears [isPlaying].  The last component is
    how the promise returned to the caller settles. *)
Definition play (stops : nat -> bool) (p : BrickPlayer) (w : World)
    : option (BrickPlayer * World * list Obs * Result unit) :=
  if isPlaying p || (length (actions p) =? 0)%nat then Some (p, w, [], Ok tt)
  else
    let started := {| actions := actions p; isPlaying := true; currentIndex := 0 |} in
    match play_loop stops (length (actions p)) started w [] with
    | None => None
    | Some (p', w', log, settled) =>
        let finished :=
          {| actions := actions p'; isPlaying := false;
             currentIndex := currentIndex p' |} in
        match settled with
        | Ok _ => Some (finished, w', log, Ok tt)
        | Throw error =>
            Some (finished, w', log ++ [ConsoleError "Playback error:" error], Ok tt)
        end
    end.

Definition stop (p : BrickPlayer) : BrickPlayer :=
  {| actions := actions p; isPlaying := false; currentIndex := currentIndex p |}.

Definition load (recording : list BrickAction) (p : BrickPlayer) : BrickPlayer :=
  {| actions := recording; isPlaying := isPlaying p; currentIndex := 0 |}.

(** The actions of a list dispatched one after the other from [w], up to the
    first that throws. *)
Fixpoint dispatch_all (l : list BrickAction) (w : World) : Result World :=
  match l with
  | [] => Ok w
  | action :: rest =>
      match snd (executeAction action w) with
      | Ok w' => dispatch_all rest w'
      | Throw error => Throw error
      end
  end.

End Replay.

(** [getProgress()]: the cursor as a percentage of the length, 0 for an
    empty recording. *)
Definition getProgress (p : BrickPlayer) : number :=
  if (length (actions p) =? 0)%nat then JS.Fin 0
  else JS.mul (JS.div (JS.of_nat (currentIndex p)) (JS.of_nat (length (actions p))))
         (JS.Fin 100).

(** The delays a run awaited, in order. *)
Definition timeouts (log : list Obs) : list Q :=
  flat_map (fun o => match o with Timeout d => [d] | _ => [] end) log.

(** The gaps between the timestamps of consecutive actions that are
    positive, in order. *)
Fixpoint positive_gaps (l : list BrickAction) : list Q :=
  match l with
  | a :: (b :: _) as rest =>
      (if negb (Qle_bool (timestamp (a_event b) - timestamp (a_event a)) 0)
       then [(timestamp (a_event b) - timestamp (a_event a))%Q] else [])
      ++ positive_gaps rest
  | _ => []
  end.

End Player.

(* ===================================================================== *)
(** ** The variation generator ([task-generator.ts]) *)
(* ===================================================================== *)

Module TaskGen.

(** [varyActions] copies an action with [{ ...action }], a copy one level
    deep: the copy's [context] field holds the same object as the original's.
    Context objects therefore live in a store and actions refer to them;
    events are values, as the code never writes into an event object. *)
Definition loc := nat.
Definition Store := loc -> Context.

Abbreviation ActionRef := (Action loc).
Abbreviation RecordingRef := (Recording loc).

Definition store_set (l : loc) (c : Context) (s : Store) : Store :=
  fun l' => if (l' =? l)%nat then c else s l'.

(** The action and the recording as a reader sees them through the store. *)
Definition deref (s : Store) (a : ActionRef) : BrickAction :=
  mkAction (a_id a) (a_type a) (a_event a) (s (a_context a)).

Definition snapshot (s : Store) (r : RecordingRef) : TaskRecording :=
  mkRecording (r_id r) (r_name r) (r_description r)
    (map (deref s) (r_actions r)) (r_environment r) (r_created_at r) (r_tags r).

Record State := {
  store : Store;
  draws : nat   (* calls of Math.random() so far *) }.

Section Random.

(** [random n] is what the [n]-th call of [Math.random()] returns. *)
Variable random : nat -> Q.

Definition randomVariation (max : Q) (st : State) : Q * State :=
  ((random (draws st) - (1 # 2)) * max,
   {| store := store st; draws := S (draws st) |})%Q.

Definition set_timestamp (e : Event) (t : Q) : Event :=
  match e with
  | MouseEvent m =>
      MouseEvent {| me_type := me_type m; me_coordinates := me_coordinates m;
                    me_target := me_target m; me_button := me_button m;
                    me_pressure := me_pressure m; me_timestamp := t |}
  | KeyboardEvent k =>
      KeyboardEvent {| ke_type := ke_type k; ke_key := ke_key k;
                       ke_keyCode := ke_keyCode k; ke_modifiers := ke_modifiers k;
                       ke_repeat := ke_repeat k; ke_timestamp := t |}
  | SystemEvent e =>
      SystemEvent {| se_type := se_type e; se_process := se_process e;
                     se_service := se_service e; se_systemCall := se_systemCall e;
                     se_window := se_window e; se_timestamp := t |}
  end.

Definition set_systemState (c : Context) (st : SystemState) : Context :=
  {| windowTitle := windowTitle c; activeApp := activeApp c;
     screenResolution := screenResolution c; environment := environment c;
     processChain := processChain c; systemState := Some st;
     guiState := guiState c |}.

(** The callback of [actions.map] in [varyActions]. *)
Definition varyAction (action : ActionRef) (st : State) : ActionRef * State :=
  match a_type action with
  | mouse =>
      match a_event action with
      | MouseEvent m =>                        (* 'coordinates' in action.event *)
          let '(dx, st1) := randomVariation 20 st in
          let '(dy, st2) := randomVariation 20 st1 in
          let coordinates :=
            {| c_x := (c_x (me_coordinates m) + dx)%Q;
               c_y := (c_y (me_coordinates m) + dy)%Q;
               c_screen := None;
               c_relative := c_relative (me_coordinates m) |} in
          (mkAction (a_id action) (a_type action)
             (MouseEvent {| me_type := me_type m; me_coordinates := coordinates;
                            me_target := me_target m; me_button := me_button m;
                            me_pressure := me_pressure m;
                            me_timestamp := me_timestamp m |})
             (a_context action),
           st2)
      | _ => (action, st)
      end
  | keyboard =>                                (* 'timestamp' in action.event *)
      let '(dt, st1) := randomVariation 100 st in
      (mkAction (a_id action) (a_type action)
         (set_timestamp (a_event action) (timestamp (a_event action) + dt)%Q)
         (a_context action),
       st1)
  | system =>
      let context := store st (a_context action) in
      match systemState context with
      | Some old =>
          let '(dcpu, st1) := randomVariation 10 st in
          let '(dmem, st2) := randomVariation 100000 st1 in
          let varied :=
            {| cpuUsage := (cpuUsage old + dcpu)%Q;
               memoryUsage := (memoryUsage old + dmem)%Q;
               activeProcesses := activeProcesses old;
               activeServices := activeServices old |} in
          (* variedAction.context.systemState = { ... }: a write into the
             context object the original action holds too *)
          (action,
           {| store := store_set (a_context action) (set_systemState context varied)
                         (store st2);
              draws := draws st2 |})
      | None => (action, st)
      end
  end.

Fixpoint varyActions (actions : list ActionRef) (st : State) : list ActionRef * State :=
  match actions with
  | [] => ([], st)
  | action :: rest =>
      let '(varied, st1) := varyAction action st in
      let '(others, st2) := varyActions rest st1 in
      (varied :: others, st2)
  end.

Fixpoint varyScreens (l : list Screen) (st : State) : list Screen * State :=
  match l with
  | [] => ([], st)
  | screen :: rest =>
      let '(d, st1) := randomVariation (1 # 10) st in
      let '(others, st2) := varyScreens rest st1 in
      ({| scr_id := scr_id screen; scr_bounds := scr_bounds screen;
          scr_primary := scr_primary screen;
          scr_scaleFactor := (scr_scaleFactor screen + d)%Q |} :: others, st2)
  end.

Definition varyEnvironment (env : BrickEnvironmentContext) (st : State)
    : BrickEnvironmentContext * State :=
  let '(varied, st1) := varyScreens (screens (env_display env)) st in
  ({| env_os := env_os env; env_display := {| screens := varied |};
      env_locale := env_locale env; env_timezone := env_timezone env |}, st1).

(** [uuid] and [now] are what [crypto.randomUUID()] and
    [new Date().toISOString()] return during the call. *)
Definition createVariation (uuid now : string) (task : RecordingRef) (st : State)
    : RecordingRef * State :=
  let '(actions, st1) := varyActions (r_actions task) st in
  let '(environment, st2) := varyEnvironment (r_environment task) st1 in
  (mkRecording uuid (r_name task +:+ " (Variation)")
     ("Synthetic variation of: " +:+ r_description task)
     actions environment now (r_tags task ++ ["synthetic"]),
   st2).

(** [generateSyntheticTask(baseTask, variations)] for a whole number of
    variations: [uuids i] and [nows i] are what [crypto.randomUUID()] and
    [new Date().toISOString()] return in the [i]-th round. *)
Fixpoint synthetic_loop (uuids nows : nat -> string) (baseTask : RecordingRef)
    (i remaining : nat) (st : State) : list RecordingRef * State :=
  match remaining with
  | O => ([], st)
  | S remaining' =>
      let '(synthetic, st1) := createVariation (uuids i) (nows i) baseTask st in
      let '(others, st2) := synthetic_loop uuids nows baseTask (S i) remaining' st1 in
      (synthetic :: others, st2)
  end.

Definition generateSyntheticTask (uuids nows : nat -> string) (baseTask : RecordingRef)
    (variations : nat) (st : State) : list RecordingRef * State :=
  synthetic_loop uuids nows baseTask 0 variations st.

(** [Math.floor(Math.random() * n)] *)
Definition random_below (n : Z) (st : State) : Z * State :=
  (Qfloor (random (draws st) * inject_Z n),
   {| store := store st; draws := S (draws st) |}).

(** [normalizeActionTimestamps(actions, existingActions)]: the actions
    re-timed 100 ms apart, starting at the latest timestamp already merged
    (0 when nothing is). *)
Definition lastTimestamp (existingActions : list ActionRef) : Q :=
  match existingActions with
  | [] => 0
  | a :: rest =>
      JS.Math_max_finite (timestamp (a_event a))
        (map (fun b => timestamp (a_event b)) rest)
  end.

Definition normalizeActionTimestamps (actions existingActions : list ActionRef)
    : list ActionRef :=
  imap (fun index action =>
          mkAction (a_id action) (a_type action)
            (set_timestamp (a_event action)
               (lastTimestamp existingActions + inject_Z (Z.of_nat index) * 100)%Q)
            (a_context action))
    actions.

(** [set.add(x)] on a [Set] kept in insertion order. *)
Definition Set_add (x : string) (set : list string) : list string :=
  if existsb (String.eqb x) set then set else set ++ [x].

Definition Set_of (l : list string) : list string :=
  fold_left (fun set x => Set_add x set) l [].

(** The segment [mergeTasks] draws from one recording. *)
Definition draw_segment (task : RecordingRef) (st : State) : list ActionRef * State :=
  let len := Z.of_nat (length (r_actions task)) in
  let '(segmentSize, st1) := random_below len st in
  let '(startIndex, st2) := random_below (len - segmentSize) st1 in
  (JS.slice (r_actions task) startIndex (startIndex + segmentSize), st2).

(** The [tasks.forEach] of [mergeTasks]. *)
Fixpoint merge_loop (tasks : list RecordingRef) (mergedActions : list ActionRef)
    (usedTasks : list string) (st : State) : list ActionRef * list string * State :=
  match tasks with
  | [] => (mergedActions, usedTasks, st)
  | task :: rest =>
      let '(segment, st1) := draw_segment task st in
      merge_loop rest
        (mergedActions ++ normalizeActionTimestamps segment mergedActions)
        (Set_add (r_name task) usedTasks) st1
  end.

(** [mergeTasks(tasks)].  The environment is read from [tasks[0]], which
    throws when there is no task. *)
Definition mergeTasks (uuid now : string) (tasks : list RecordingRef) (st : State)
    : Player.Result RecordingRef * State :=
  let '(mergedActions, usedTasks, st1) := merge_loop tasks [] [] st in
  let sorted :=
    JS.sort (fun a b => JS.sub (JS.Fin (timestamp (a_event a)))
                          (JS.Fin (timestamp (a_event b))))
      mergedActions in
  match tasks with
  | [] =>
      (Player.Throw
         "TypeError: Cannot read properties of undefined (reading 'environment')",
       st1)
  | first :: _ =>
      (Player.Ok
         (mkRecording uuid
            ("Merged Task (" +:+ String.concat " + " usedTasks +:+ ")")
            "Synthetic task generated from multiple recordings"
            sorted (r_environment first) now
            (Set_of (flat_map r_tags tasks) ++ ["synthetic"; "merged"])),
       st1)
  end.

End Random.

(** *** What a variation may change

    [erase_numeric] blanks the numbers the generator perturbs: the
    coordinates of the mouse event of a mouse action, the timestamp of the
    event of a keyboard action, and the CPU and memory metrics of a context;
    [erase_scale] blanks the scale factor of each screen of an environment. *)
Definition erase_event (t : ActionType) (e : Event) : Event :=
  match t with
  | mouse =>
      match e with
      | MouseEvent m =>
          MouseEvent {| me_type := me_type m;
                        me_coordinates :=
                          {| c_x := 0; c_y := 0; c_screen := None;
                             c_relative := c_relative (me_coordinates m) |};
                        me_target := me_target m; me_button := me_button m;
                        me_pressure := me_pressure m;
                        me_timestamp := me_timestamp m |}
      | _ => e
      end
  | keyboard => set_timestamp e 0
  | system => e
  end.

Definition erase_context (c : Context) : Context :=
  {| windowTitle := windowTitle c; activeApp := activeApp c;
     screenResolution := screenResolution c; environment := environment c;
     processChain := processChain c;
     systemState :=
       match systemState c with
       | Some st =>
           Some {| cpuUsage := 0; memoryUsage := 0;
                   activeProcesses := activeProcesses st;
                   activeServices := activeServices st |}
       | None => None
       end;
     guiState := guiState c |}.

Definition erase_numeric (a : BrickAction) : BrickAction :=
  mkAction (a_id a) (a_type a) (erase_event (a_type a) (a_event a))
    (erase_context (a_context a)).

Definition erase_scale_screens (l : list Screen) : list Screen :=
  map (fun screen =>
         {| scr_id := scr_id screen; scr_bounds := scr_bounds screen;
            scr_primary := scr_primary screen; scr_scaleFactor := 0 |}) l.

Definition erase_scale (env : BrickEnvironmentContext) : BrickEnvironmentContext :=
  {| env_os := env_os env;
     env_display := {| screens := erase_scale_screens (screens (env_display env)) |};
     env_locale := env_locale env; env_timezone := env_timezone env |}.

(** What [varyAction] keeps of an action: everything but the numbers that
    [erase_event] blanks for an action of its type; the context reference is
    the same object. *)
Definition same_shape (a a' : ActionRef) : Prop :=
  a_id a' = a_id a /\ a_type a' = a_type a
  /\ subtype (a_event a') = subtype (a_event a)
  /\ erase_event (a_type a') (a_event a') = erase_event (a_type a) (a_event a)
  /\ a_context a' = a_context a.

Definition same_contexts (s s' : Store) : Prop :=
  forall l, erase_context (s' l) = erase_context (s l).



(** An action with its timestamp blanked. *)
Definition erase_timestamp (a : ActionRef) : ActionRef :=
  mkAction (a_id a) (a_type a) (set_timestamp (a_event a) 0) (a_context a).

(** A run of consecutive actions of a recording that stops before its last
    action. *)
Definition inner_run (task : RecordingRef) (segment : list ActionRef) : Prop :=
  exists start size : nat,
    (start + size <= pred (length (r_actions task)))%nat
    /\ segment = take size (drop start (r_actions task)).

(** Actions in the order of their timestamps. *)
Definition in_time_order (l : list ActionRef) : Prop :=
  StronglySorted (fun a b => (timestamp (a_event a) <= timestamp (a_event b))%Q) l.

End TaskGen.

(* ===================================================================== *)
(** ** Optimisation passes and feedback ([absolute-zero-generator.ts]) *)
(* ===================================================================== *)

Module Learning.

Import AbsoluteZero.

(** [actions.filter((action, index) => index === 0 ||
    !areActionsSimilar(action, actions[index - 1]))]: [previous] is the
    element before [action] in the input array, whether it was kept or
    not. *)
Fixpoint filter_after (previous : BrickAction) (actions : list BrickAction)
    : list BrickAction :=
  match actions with
  | [] => []
  | action :: rest =>
      if negb (areActionsSimilar action previous)
      then action :: filter_after action rest
      else filter_after action rest
  end.

Definition removeRedundantActions (actions : list BrickAction) : list BrickAction :=
  match actions with
  | [] => []
  | first :: rest => first :: filter_after first rest
  end.

(** The callback of [actions.map] in [optimizeTimings]. *)
Definition retimed (index : nat) (action : BrickAction) : BrickAction :=
  mkAction (a_id action) (a_type action)
    (TaskGen.set_timestamp (a_event action) (inject_Z (Z.of_nat index) * 75)%Q)
    (a_context action).

Definition optimizeTimings (actions : list BrickAction) : list BrickAction :=
  imap retimed actions.

Definition applyEmergentPatterns (actions : list BrickAction) : list BrickAction :=
  actions.

Definition applyLearnedOptimizations (actions : list BrickAction) : list BrickAction :=
  let optimizedActions := removeRedundantActions actions in
  let optimizedActions := optimizeTimings optimizedActions in
  applyEmergentPatterns optimizedActions.

(** *** Feedback *)

Record LearningFeedback := {
  f_taskId : string;
  f_success : bool;
  f_executionTime : number;
  f_errors : list string;
  f_adaptations : list string;
  f_emergentPatterns : list string }.

(** The two fields of the generator that [recordFeedback] writes. *)
Record Learner := {
  learningHistory : list LearningFeedback;
  emergentKnowledge : gmap string number }.

(** A generator that has recorded no feedback. *)
Definition fresh : Learner :=
  {| learningHistory := []; emergentKnowledge := ∅ |}.

(** [x || 0] on the result of [Map.get]: [undefined], [0] and [NaN] give 0. *)
Definition or_zero (x : option number) : number :=
  match x with
  | Some (JS.Fin q) => if Qeq_bool q 0%Q then JS.Fin 0%Q else JS.Fin q
  | Some JS.NaN | None => JS.Fin 0%Q
  | Some other => other
  end.

(** The callback of both [forEach] loops:
    [emergentKnowledge.set(key, (emergentKnowledge.get(key) || 0) + step)]. *)
Definition reinforce (step : Q) (knowledge : gmap string number) (key : string)
    : gmap string number :=
  <[key := JS.add (or_zero (knowledge !! key)) (JS.Fin step)]> knowledge.

Definition updateSuccessPatterns (feedback : LearningFeedback)
    (knowledge : gmap string number) : gmap string number :=
  fold_left (reinforce (1 # 10)) (f_adaptations feedback) knowledge.

Definition recordFeedback (generator : Learner) (feedback : LearningFeedback) : Learner :=
  {| learningHistory := learningHistory generator ++ [feedback];
     emergentKnowledge :=
       if f_success feedback
       then updateSuccessPatterns feedback
              (fold_left (reinforce 1) (f_emergentPatterns feedback)
                 (emergentKnowledge generator))
       else emergentKnowledge generator |}.

(** *** Vocabulary of the statements *)

(** What one feedback adds to the weight of a key. *)
Definition credit (key : string) (feedback : LearningFeedback) : Q :=
  if f_success feedback
  then (inject_Z (Z.of_nat (count_occ string_dec (f_emergentPatterns feedback) key))
        + (1 # 10)
          * inject_Z (Z.of_nat (count_occ string_dec (f_adaptations feedback) key)))%Q
  else 0%Q.

Definition Qsum (l : list Q) : Q := fold_right Qplus 0%Q l.

(** The weight the generator reads for every key, as a function. *)
Definition weighs (knowledge : gmap string number) (v : string -> Q) : Prop :=
  forall key, exists weight : Q,
    or_zero (knowledge !! key) = JS.Fin weight /\ (weight == v key)%Q.

(** The aggregate of a list of system states, in the order the code adds
    them up: nothing for no state, else the four totals. *)
Definition total (field : SystemState -> Q) (states : list SystemState) : Q :=
  fold_left Qplus (map field states) 0%Q.

Definition totals (states : list SystemState) : gmap string Q :=
  match states with
  | [] => ∅
  | _ =>
      <["cpuUsage" := total cpuUsage states]>
        (<["memoryUsage" := total memoryUsage states]>
           (<["activeProcesses" := total activeProcesses states]>
              (<["activeServices" := total activeServices states]> ∅)))
  end.

(** A score that can be compared: a finite number or [Infinity]. *)
Definition comparable (x : number) : bool :=
  match x with
  | JS.Fin _ | JS.PInf => true
  | _ => false
  end.

(** [p] has a score at least as high as [q]'s. *)
Definition outranks (p q : TaskPattern) : Prop :=
  JS.ge (calculatePatternScore p) (calculatePatternScore q) = true.

(** A boolean test that is an equivalence. *)
Definition equivalence_b {A} (eqb : A -> A -> bool) : Prop :=
  (forall a, eqb a a = true)
  /\ (forall a b, eqb a b = true -> eqb b a = true)
  /\ (forall a b c, eqb a b = true -> eqb b c = true -> eqb a c = true).

End Learning.

(* ===================================================================== *)
(** ** Sample recordings *)
(* ===================================================================== *)

Module Samples.

Definition blank_context : Context :=
  {| windowTitle := None; activeApp := None; screenResolution := None;
     environment := None; processChain := None; systemState := None;
     guiState := None |}.

Definition browser_env : BrickEnvironmentContext :=
  {| env_os := {| os_name := "Linux x86_64"; os_version := "5.0"; os_arch := "x64" |};
     env_display :=
       {| screens :=
            [ {| scr_id := 0;
                 scr_bounds := {| b_x := 0; b_y := 0; b_width := 1920; b_height := 1080 |};
                 scr_primary := true; scr_scaleFactor := 1 |} ] |};
     env_locale := "en-US"; env_timezone := "UTC" |}.

Definition save_button : Target :=
  {| tg_element := "button"; tg_selector := "button#save"; tg_text := Some "Save";
     tg_attributes := None; tg_role := None |}.

(** A click on the Save button at time [t]. *)
Definition click_at {C} (c : C) (t : Q) : Action C :=
  mkAction "click" mouse
    (MouseEvent {| me_type := "click";
                   me_coordinates := {| c_x := 10; c_y := 20; c_screen := Some 0%Q;
                                        c_relative := Some true |};
                   me_target := Some save_button; me_button := Some 0%Z;
                   me_pressure := None; me_timestamp := t |})
    c.

(** A pointer move without a target, as the task synthesizer builds them. *)
Definition move_at {C} (c : C) (t : Q) : Action C :=
  mkAction "move" mouse
    (MouseEvent {| me_type := "move";
                   me_coordinates := {| c_x := 100; c_y := 100; c_screen := None;
                                        c_relative := Some true |};
                   me_target := None; me_button := None;
                   me_pressure := None; me_timestamp := t |})
    c.

Definition key_at {C} (c : C) (subtype key : string) (t : Q) : Action C :=
  mkAction "key" keyboard
    (KeyboardEvent {| ke_type := subtype; ke_key := key; ke_keyCode := None;
                      ke_modifiers := None; ke_repeat := None; ke_timestamp := t |})
    c.

Definition process_info_call (error : option string) (t : Q) : BrickSystemCall :=
  {| sc_type := "processInfo"; sc_module := "os"; sc_function := "getProcesses";
     sc_parameters := None; sc_result := None; sc_error := error; sc_timestamp := t |}.

Definition system_call_at {C} (c : C) (error : option string) (t : Q) : Action C :=
  mkAction "probe" system
    (SystemEvent {| se_type := "systemCall"; se_process := None; se_service := None;
                    se_systemCall := Some (process_info_call error t);
                    se_window := None; se_timestamp := t |})
    c.

Definition recording_of {C} (actions : list (Action C)) : Recording C :=
  mkRecording "rec-1" "Sample" "A sample recording" actions browser_env
    "2024-01-01T00:00:00.000Z" ["browser"].

(** Seven clicks spread over 500 ms: optimal time 350 ms, ratio exactly 0.7. *)
Definition seven_clicks_in_500ms : TaskRecording :=
  recording_of (map (click_at blank_context) [0; 100; 200; 300; 400; 450; 500]%Q).

(** Five clicks of which the last repeats the fourth: cleanliness exactly 0.8. *)
Definition one_repeat_in_five : TaskRecording :=
  recording_of (map (click_at blank_context) [0; 10; 20; 30; 30]%Q).

(** Three clicks at the same instant. *)
Definition three_clicks_at_once : TaskRecording :=
  recording_of [click_at blank_context 5; key_at blank_context "keydown" "a" 5;
                move_at blank_context 5].

Definition failed_probe_recording : TaskRecording :=
  recording_of [click_at blank_context 0;
                system_call_at blank_context (Some "EACCES") 10;
                click_at blank_context 20].

(** Three recordings that qualify, and the store built from them. *)
Definition three_clicks_over (span : Q) : TaskRecording :=
  recording_of (map (click_at blank_context) [0; span / 2; span]%Q).

Definition uuids (n : nat) : string :=
  "pattern-" +:+ String (ascii_of_nat (48 + n)) EmptyString.

Definition three_pattern_store : AbsoluteZero.PatternStore :=
  AbsoluteZero.initializeFromSuccessfulTasks uuids
    (Some [three_clicks_over 100; three_clicks_over 120; three_clicks_over 140]) [].

(** The same clicks recorded on another platform. *)
Definition windows_clicks_over (span : Q) : TaskRecording :=
  mkRecording "rec-2" "Sample" "A sample recording"
    (map (click_at blank_context) [0; span / 2; span]%Q)
    {| env_os := {| os_name := "Windows"; os_version := "11"; os_arch := "x64" |};
       env_display := env_display browser_env;
       env_locale := "en-US"; env_timezone := "UTC" |}
    "2024-01-01T00:00:00.000Z" ["browser"].

(** A store of four patterns, two of them recorded on Linux. *)
Definition mixed_pattern_store : AbsoluteZero.PatternStore :=
  AbsoluteZero.initializeFromSuccessfulTasks uuids
    (Some [three_clicks_over 100; windows_clicks_over 100;
           three_clicks_over 120; windows_clicks_over 120]) [].

Definition linux_hint : AbsoluteZero.ContextHints :=
  {| AbsoluteZero.h_os :=
       Some {| os_name := "linux"; os_version := "6"; os_arch := "x64" |};
     AbsoluteZero.h_display := None;
     AbsoluteZero.h_locale := None; AbsoluteZero.h_timezone := None |}.

(** Seven clicks spread over 499 ms: ratio 350 / 499, just above 0.7. *)
Definition seven_clicks_in_499ms : TaskRecording :=
  recording_of (map (click_at blank_context) [0; 100; 200; 300; 400; 450; 499]%Q).

Definition no_hints : AbsoluteZero.ContextHints :=
  {| AbsoluteZero.h_os := None; AbsoluteZero.h_display := None;
     AbsoluteZero.h_locale := None; AbsoluteZero.h_timezone := None |}.

(** A document for replay: [document.querySelector] rejects the empty
    selector with a [SyntaxError], and every other dispatch goes through. *)
Definition strict_document (a : BrickAction) (w : unit) : Player.Result unit :=
  match a_event a with
  | MouseEvent m =>
      match me_target m with
      | Some target =>
          if String.eqb (tg_selector target) ""
          then Player.Throw "SyntaxError: The provided selector is empty"
          else Player.Ok tt
      | None => Player.Ok tt
      end
  | _ => Player.Ok tt
  end.

Definition click_nowhere (t : Q) : BrickAction :=
  mkAction "lost" mouse
    (MouseEvent {| me_type := "click";
                   me_coordinates := {| c_x := 1; c_y := 1; c_screen := None;
                                        c_relative := Some true |};
                   me_target := Some {| tg_element := "div"; tg_selector := "";
                                        tg_text := None; tg_attributes := None;
                                        tg_role := None |};
                   me_button := Some 0%Z; me_pressure := None; me_timestamp := t |})
    blank_context.

(** A store in which every context reports 10 % CPU and 1000 bytes. *)
Definition busy_context : Context :=
  {| windowTitle := Some "Editor"; activeApp := Some "browser";
     screenResolution := None; environment := None; processChain := None;
     systemState := Some {| cpuUsage := 10; memoryUsage := 1000;
                            activeProcesses := 1; activeServices := 0 |};
     guiState := None |}.

Definition busy_store : TaskGen.Store := fun _ => busy_context.

(** A recording of one system probe whose context is the object at 7. *)
Definition probe_recording : Recording TaskGen.loc :=
  recording_of [system_call_at 7%nat None 0].

(** [Math.random()] returning 0.75 at every call. *)
Definition three_quarters (n : nat) : Q := 3 # 4.

Definition idle_player (recording : list BrickAction) : Player.BrickPlayer :=
  {| Player.actions := recording; Player.isPlaying := false; Player.currentIndex := 0 |}.

End Samples.

(* ===================================================================== *)
(** * Properties *)
(* ===================================================================== *)

(** ** Numbers *)

Section NumberFacts.

Import JS.

Lemma lt_Fin_true p q : lt (Fin p) (Fin q) = true <-> (p < q)%Q.
Proof.
  simpl. rewrite Bool.negb_true_iff. split.
  - intros H. apply Qnot_le_lt. intros Hle.
    apply Qle_bool_iff in Hle. congruence.
  - intros H. destruct (Qle_bool q p) eqn:E; [|reflexivity].
    apply Qle_bool_iff in E. exfalso. exact (Qlt_not_le _ _ H E).
Qed.

Lemma lt_Fin_false p q : lt (Fin p) (Fin q) = false <-> (q <= p)%Q.
Proof.
  simpl. rewrite Bool.negb_false_iff. apply Qle_bool_iff.
Qed.

(** [Math.max] over finite numbers picks one of them, an upper bound. *)
Lemma fold_max_Fin (l : list Q) (a : Q) :
  exists M, fold_left Math_max (map Fin l) (Fin a) = Fin M
            /\ In M (a :: l) /\ (a <= M)%Q /\ (forall x, In x l -> (x <= M)%Q).
Proof.
  revert a. induction l as [|x l IH]; intros a.
  - exists a. simpl. repeat split; auto using Qle_refl. intros ? [].
  - simpl. change (negb (Qle_bool x a)) with (lt (Fin a) (Fin x)).
    destruct (lt (Fin a) (Fin x)) eqn:E.
    + apply lt_Fin_true in E.
      destruct (IH x) as (M & HM & Hin & Hx & Hall).
      exists M. split; [exact HM|]. split; [right; exact Hin|].
      split; [apply Qlt_le_weak; eapply Qlt_le_trans; eauto|].
      intros y [<-|Hy]; auto.
    + apply lt_Fin_false in E.
      destruct (IH a) as (M & HM & Hin & Ha & Hall).
      exists M. split; [exact HM|]. split.
      * destruct Hin as [<-|Hin]; [left; reflexivity|right; right; exact Hin].
      * split; [exact Ha|]. intros y [<-|Hy]; auto. eapply Qle_trans; eauto.
Qed.

Lemma fold_min_Fin (l : list Q) (a : Q) :
  exists m, fold_left Math_min (map Fin l) (Fin a) = Fin m
            /\ In m (a :: l) /\ (m <= a)%Q /\ (forall x, In x l -> (m <= x)%Q).
Proof.
  revert a. induction l as [|x l IH]; intros a.
  - exists a. simpl. repeat split; auto using Qle_refl. intros ? [].
  - simpl. change (negb (Qle_bool a x)) with (lt (Fin x) (Fin a)).
    destruct (lt (Fin x) (Fin a)) eqn:E.
    + apply lt_Fin_true in E.
      destruct (IH x) as (m & Hm & Hin & Hx & Hall).
      exists m. split; [exact Hm|]. split; [right; exact Hin|].
      split; [apply Qlt_le_weak; eapply Qle_lt_trans; eauto|].
      intros y [<-|Hy]; auto.
    + apply lt_Fin_false in E.
      destruct (IH a) as (m & Hm & Hin & Ha & Hall).
      exists m. split; [exact Hm|]. split.
      * destruct Hin as [<-|Hin]; [left; reflexivity|right; right; exact Hin].
      * split; [exact Ha|]. intros y [<-|Hy]; auto. eapply Qle_trans; eauto.
Qed.

Lemma Math_max_list_Fin (x : Q) (l : list Q) :
  exists M, Math_max_list (map Fin (x :: l)) = Fin M
            /\ In M (x :: l) /\ (forall y, In y (x :: l) -> (y <= M)%Q).
Proof.
  unfold Math_max_list. simpl.
  destruct (fold_max_Fin l x) as (M & HM & Hin & Hx & Hall).
  exists M. split; [exact HM|]. split; [exact Hin|].
  intros y [<-|Hy]; auto.
Qed.

Lemma Math_min_list_Fin (x : Q) (l : list Q) :
  exists m, Math_min_list (map Fin (x :: l)) = Fin m
            /\ In m (x :: l) /\ (forall y, In y (x :: l) -> (m <= y)%Q).
Proof.
  unfold Math_min_list. simpl.
  destruct (fold_min_Fin l x) as (m & Hm & Hin & Hx & Hall).
  exists m. split; [exact Hm|]. split; [exact Hin|].
  intros y [<-|Hy]; auto.
Qed.

(** Capping at 1 does not change on which side of a threshold below 1 a
    number lies. *)
Lemma gt_min_one (x : number) (c : Q) :
  (c < 1)%Q -> gt (Math_min (Fin 1) x) (Fin c) = gt x (Fin c).
Proof.
  intros Hc. destruct x as [q| | |]; try reflexivity.
  - unfold Math_min. destruct (lt (Fin q) (Fin 1)) eqn:E; [reflexivity|].
    apply lt_Fin_false in E. unfold gt.
    assert (H1 : lt (Fin c) (Fin 1) = true) by (apply lt_Fin_true; exact Hc).
    rewrite H1. symmetry. apply lt_Fin_true. eapply Qlt_le_trans; eauto.
  - unfold Math_min, gt. simpl. apply lt_Fin_true in Hc. exact Hc.
Qed.

Lemma sort_insert_length {A} (compare : A -> A -> number) (x : A) (l : list A) :
  length (sort_insert compare x l) = S (length l).
Proof.
  induction l as [|y l IH]; [reflexivity|]. cbn [sort_insert].
  destruct (gt (compare y x) (Fin 0)); cbn [length]; [reflexivity|]. now rewrite IH.
Qed.

Lemma sort_length {A} (compare : A -> A -> number) (l : list A) :
  length (sort compare l) = length l.
Proof.
  unfold sort.
  assert (H : forall acc, length (fold_left (fun sorted x => sort_insert compare x sorted) l acc)
                          = (length acc + length l)%nat).
  { induction l as [|x l IH]; intros acc; simpl; [lia|].
    rewrite IH, sort_insert_length. lia. }
  now rewrite H.
Qed.

End NumberFacts.

(** ** Rounding to binary64 *)

Section RoundingFacts.

Import JS.

Local Open Scope Q_scope.

Lemma pow2_pos (e : Z) : 0 < pow2 e.
Proof. apply Qpower_0_lt. reflexivity. Qed.

Lemma pow2_add (a b : Z) : pow2 (a + b) == pow2 a * pow2 b.
Proof. apply Qpower_plus. discriminate. Qed.

Lemma pow2_Z (e : Z) : (0 <= e)%Z -> pow2 e == inject_Z (2 ^ e).
Proof. intros H. unfold pow2. rewrite Zpower_Qpower by exact H. reflexivity. Qed.

Lemma pow2_le (a b : Z) : (a <= b)%Z -> pow2 a <= pow2 b.
Proof. intros H. apply Qpower_le_compat_l; [exact H|discriminate]. Qed.

Lemma pow2_lt (a b : Z) : (a < b)%Z -> pow2 a < pow2 b.
Proof. intros H. apply Qpower_lt_compat_l; [exact H|reflexivity]. Qed.

Lemma double_Qeq (q q' : Q) : q == q' -> double q = double q'.
Proof.
  intros H. unfold double. rewrite H.
  rewrite (Qred_complete q q' H).
  rewrite (Qred_complete (- q) (- q')) by (now rewrite H).
  reflexivity.
Qed.

Lemma round_half_even_Qeq (q q' : Q) :
  q == q' -> round_half_even q = round_half_even q'.
Proof.
  intros H. unfold round_half_even. rewrite (Qfloor_comp q q' H).
  assert (E : q - inject_Z (Qfloor q') == q' - inject_Z (Qfloor q')) by (now rewrite H).
  rewrite E. reflexivity.
Qed.

Lemma round_half_even_Z (z : Z) : round_half_even (inject_Z z) = z.
Proof.
  unfold round_half_even. rewrite Qfloor_Z.
  assert (E : (inject_Z z - inject_Z z ?= 1 # 2) = Lt).
  { assert (H : inject_Z z - inject_Z z == 0) by ring. rewrite H. reflexivity. }
  rewrite E. reflexivity.
Qed.

(** Rounding to the nearest integer is off by at most one half. *)
Lemma round_half_even_error (q : Q) :
  q - (1 # 2) <= inject_Z (round_half_even q) <= q + (1 # 2).
Proof.
  unfold round_half_even.
  pose proof (Qfloor_le q) as Hlo. pose proof (Qlt_floor q) as Hhi.
  rewrite inject_Z_plus in Hhi. change (inject_Z 1) with 1 in Hhi.
  destruct (Qcompare_spec (q - inject_Z (Qfloor q)) (1 # 2)) as [E|E|E].
  - destruct (Z.even (Qfloor q)).
    + lra.
    + rewrite inject_Z_plus. change (inject_Z 1) with 1. lra.
  - lra.
  - rewrite inject_Z_plus. change (inject_Z 1) with 1. lra.
Qed.

Lemma round_half_even_mono_0 (q : Q) : 0 <= q -> (0 <= round_half_even q)%Z.
Proof.
  intros H. unfold round_half_even.
  assert (Hf : (0 <= Qfloor q)%Z).
  { change 0%Z with (Qfloor 0). apply Qfloor_resp_le. exact H. }
  destruct (q - inject_Z (Qfloor q) ?= 1 # 2); [destruct (Z.even _)| |]; lia.
Qed.

(** [ilog2] is the binary logarithm rounded down. *)
Lemma ilog2_spec (q : Q) : 0 < q -> pow2 (ilog2 q) <= q < pow2 (ilog2 q + 1).
Proof.
  intros Hq. destruct q as [n d]. unfold ilog2. cbn [Qnum Qden].
  assert (Hn : (0 < n)%Z).
  { unfold Qlt in Hq. cbn in Hq. lia. }
  set (a := Z.log2 n). set (b := Z.log2 (Z.pos d)).
  assert (Ha : (2 ^ a <= n < 2 ^ (a + 1))%Z).
  { unfold a. pose proof (Z.log2_spec n Hn). rewrite <- Z.add_1_r in H. exact H. }
  assert (Hb : (2 ^ b <= Z.pos d < 2 ^ (b + 1))%Z).
  { unfold b. pose proof (Z.log2_spec (Z.pos d) ltac:(lia)). rewrite <- Z.add_1_r in H.
    exact H. }
  assert (Ha0 : (0 <= a)%Z) by apply Z.log2_nonneg.
  assert (Hb0 : (0 <= b)%Z) by apply Z.log2_nonneg.
  assert (Hq' : n # d == inject_Z n / inject_Z (Z.pos d)) by apply Qmake_Qdiv.
  assert (Hd : 0 < inject_Z (Z.pos d)) by reflexivity.
  assert (Hna : pow2 a <= inject_Z n < pow2 (a + 1)).
  { rewrite !pow2_Z by lia. rewrite <- Zle_Qle, <- Zlt_Qlt. exact Ha. }
  assert (Hdb : pow2 b <= inject_Z (Z.pos d) < pow2 (b + 1)).
  { rewrite !pow2_Z by lia. rewrite <- Zle_Qle, <- Zlt_Qlt. exact Hb. }
  assert (Hpb : 0 < pow2 b) by apply pow2_pos.
  assert (Hk : pow2 (a - b) * pow2 b == pow2 a).
  { rewrite <- pow2_add. now replace (a - b + b)%Z with a by lia. }
  assert (Hk1 : pow2 (a - b + 1) * pow2 b == pow2 (a + 1)).
  { rewrite <- pow2_add. now replace (a - b + 1 + b)%Z with (a + 1)%Z by lia. }
  assert (Hk2 : pow2 (a - b - 1) * pow2 (b + 1) == pow2 a).
  { rewrite <- pow2_add. now replace (a - b - 1 + (b + 1))%Z with a by lia. }
  assert (Hpk : 0 < pow2 (a - b)) by apply pow2_pos.
  assert (Hpk1 : 0 < pow2 (a - b + 1)) by apply pow2_pos.
  assert (Hpk2 : 0 < pow2 (a - b - 1)) by apply pow2_pos.
  destruct (Qle_bool (pow2 (a - b)) (n # d)) eqn:E.
  - apply Qle_bool_iff in E. split; [exact E|].
    rewrite Hq'. apply Qlt_shift_div_r; [exact Hd|].
    apply Qlt_le_trans with (pow2 (a + 1)); [apply Hna|].
    rewrite <- Hk1. apply Qmult_le_l; [exact Hpk1|apply Hdb].
  - assert (E' : n # d < pow2 (a - b)).
    { apply Qnot_le_lt. intros H. apply Qle_bool_iff in H. congruence. }
    replace (a - b - 1 + 1)%Z with (a - b)%Z by lia. split; [|exact E'].
    rewrite Hq'. apply Qle_shift_div_l; [exact Hd|].
    apply Qle_trans with (pow2 a); [|apply Hna].
    rewrite <- Hk2. apply Qmult_le_l; [exact Hpk2|]. apply Qlt_le_weak, Hdb.
Qed.

(** What [double_pos] returns: a multiple [m * 2^e] of the last place with
    at most 53 bits, within half a unit in the last place of [q]. *)
Lemma double_pos_spec (q : Q) :
  0 < q ->
  let e := quantum q in
  let m := round_half_even (q / pow2 e) in
  (0 <= m <= 2 ^ 53)%Z
  /\ (-1074 <= e)%Z
  /\ q - pow2 e / 2 <= inject_Z m * pow2 e <= q + pow2 e / 2
  /\ double_pos q = (if Qle_bool (pow2 1024) (inject_Z m * pow2 e) then PInf
                     else Fin (inject_Z m * pow2 e)).
Proof.
  intros Hq e m.
  assert (Hp : 0 < pow2 e) by apply pow2_pos.
  assert (Hdiv : q / pow2 e * pow2 e == q) by (field; lra).
  pose proof (round_half_even_error (q / pow2 e)) as Herr. fold m in Herr.
  assert (Hquot : 0 <= q / pow2 e).
  { apply Qle_shift_div_l; [exact Hp|]. lra. }
  assert (Hup : q / pow2 e < pow2 53).
  { apply Qlt_shift_div_r; [exact Hp|].
    destruct (ilog2_spec q Hq) as [_ Hlt].
    apply Qlt_le_trans with (pow2 (ilog2 q + 1)); [exact Hlt|].
    rewrite <- pow2_add. apply pow2_le. unfold e, quantum. lia. }
  split; [|split; [unfold e, quantum; lia|split; [|reflexivity]]].
  - split; [apply round_half_even_mono_0; exact Hquot|].
    assert (H : inject_Z m < inject_Z (2 ^ 53) + 1).
    { rewrite <- pow2_Z by lia. lra. }
    change 1 with (inject_Z 1) in H. rewrite <- inject_Z_plus, <- Zlt_Qlt in H. lia.
  - assert (E1 : (q / pow2 e - (1 # 2)) * pow2 e == q - pow2 e / 2) by (field; lra).
    assert (E2 : (q / pow2 e + (1 # 2)) * pow2 e == q + pow2 e / 2) by (field; lra).
    rewrite <- E1, <- E2. split; apply Qmult_le_compat_r; lra.
Qed.

(** Whole numbers up to [2^53] are binary64 values. *)
Lemma double_whole (n : Z) :
  (0 <= n < 2 ^ 53)%Z -> exists x, double (inject_Z n) = Fin x /\ x == inject_Z n.
Proof.
  intros Hn. destruct (Z.eq_dec n 0%Z) as [->|Hne].
  - exists 0. split; reflexivity.
  - assert (Hpos : 0 < inject_Z n).
    { change 0 with (inject_Z 0). rewrite <- Zlt_Qlt. lia. }
    unfold double. apply Qgt_alt in Hpos as Hcmp. rewrite Hcmp.
    set (q := Qred (inject_Z n)).
    assert (Eq : q == inject_Z n) by apply Qred_correct.
    assert (Hq : 0 < q) by (rewrite Eq; exact Hpos).
    destruct (double_pos_spec q Hq) as (_ & _ & _ & Hd). cbv zeta in Hd. rewrite Hd.
    set (e := quantum q) in *.
    assert (He : (-52 <= e <= 0)%Z).
    { destruct (ilog2_spec q Hq) as [Hlo Hhi]. unfold e, quantum.
      assert (H1 : (ilog2 q < 53)%Z).
      { apply (Qpower_lt_compat_l_inv 2); [|reflexivity]. fold (pow2 (ilog2 q)) (pow2 53).
        apply Qle_lt_trans with q; [exact Hlo|]. rewrite Eq, pow2_Z by lia.
        rewrite <- Zlt_Qlt. lia. }
      assert (H2 : (0 <= ilog2 q)%Z).
      { assert (H : (0 < ilog2 q + 1)%Z); [|lia].
        apply (Qpower_lt_compat_l_inv 2); [|reflexivity].
        fold (pow2 0) (pow2 (ilog2 q + 1)).
        apply Qle_lt_trans with q; [|exact Hhi]. rewrite Eq.
        change (pow2 0) with (inject_Z 1). rewrite <- Zle_Qle. lia. }
      lia. }
    assert (Hp : 0 < pow2 e) by apply pow2_pos.
    assert (Hinv : pow2 (- e) * pow2 e == 1).
    { rewrite <- pow2_add. now replace (- e + e)%Z with 0%Z by lia. }
    assert (Hquot : q / pow2 e == inject_Z (n * 2 ^ (- e))).
    { rewrite inject_Z_mult, <- pow2_Z by lia. rewrite Eq.
      apply (Qmult_inj_r _ _ (pow2 e)); [lra|].
      assert (E1 : inject_Z n / pow2 e * pow2 e == inject_Z n) by (field; lra).
      rewrite E1, <- Qmult_assoc, Hinv. ring. }
    rewrite (round_half_even_Qeq _ _ Hquot), round_half_even_Z.
    assert (Hx : inject_Z (n * 2 ^ (- e)) * pow2 e == inject_Z n).
    { rewrite inject_Z_mult, <- pow2_Z by lia. rewrite <- Qmult_assoc, Hinv. ring. }
    assert (Hsmall : Qle_bool (pow2 1024) (inject_Z (n * 2 ^ (- e)) * pow2 e) = false).
    { destruct (Qle_bool (pow2 1024) (inject_Z (n * 2 ^ (- e)) * pow2 e)) eqn:E;
        [|reflexivity].
      apply Qle_bool_iff in E.
      rewrite Hx in E. exfalso.
      assert (H : inject_Z n < pow2 53).
      { rewrite pow2_Z by lia. rewrite <- Zlt_Qlt. lia. }
      pose proof (pow2_le 53 1024 ltac:(lia)). lra. }
    rewrite Hsmall. eexists. split; [reflexivity|exact Hx].
Qed.

Lemma double_is_a_number (q : Q) : double q <> NaN.
Proof.
  unfold double, double_pos.
  destruct (q ?= 0); [discriminate| |];
    match goal with |- context [Qle_bool ?a ?b] => destruct (Qle_bool a b) end;
    discriminate.
Qed.

End RoundingFacts.

(** ** The pattern extractor *)

Section ExtractorFacts.

Import AbsoluteZero.

Lemma of_nat_pos_sign (n : nat) (q : Q) :
  (0 < n)%nat -> (0 < q)%Q -> JS.sign (inject_Z (Z.of_nat n) * q) = Gt.
Proof.
  intros Hn Hq. unfold JS.sign. apply Qgt_alt.
  apply Qmult_lt_0_compat; [|exact Hq].
  change 0%Q with (inject_Z 0). rewrite <- Zlt_Qlt. lia.
Qed.

(** The total time of a non-empty recording is a finite, non-negative
    difference of two of its timestamps. *)
Lemma getTotalExecutionTime_Fin (a : BrickAction) (l : list BrickAction) :
  exists M m : Q,
    getTotalExecutionTime (a :: l) = JS.Fin (M + - m)
    /\ In M (map (fun a => timestamp (a_event a)) (a :: l))
    /\ In m (map (fun a => timestamp (a_event a)) (a :: l))
    /\ (forall x, In x (a :: l) -> (m <= timestamp (a_event x) <= M)%Q).
Proof.
  unfold getTotalExecutionTime.
  set (f := fun a0 : BrickAction => timestamp (a_event a0)).
  assert (E : map (fun a0 : BrickAction => JS.Fin (timestamp (a_event a0))) (a :: l)
              = map JS.Fin (f a :: map f l)).
  { simpl. f_equal. rewrite map_map. reflexivity. }
  rewrite E.
  destruct (Math_max_list_Fin (f a) (map f l)) as (M & HM & HinM & HallM).
  destruct (Math_min_list_Fin (f a) (map f l)) as (m & Hm & Hinm & Hallm).
  exists M, m. rewrite HM, Hm. split; [reflexivity|].
  split; [exact HinM|]. split; [exact Hinm|].
  intros x Hx. assert (Hfx : In (f x) (f a :: map f l)).
  { change (f a :: map f l) with (map f (a :: l)). apply in_map. exact Hx. }
  split; [apply Hallm|apply HallM]; exact Hfx.
Qed.

Lemma total_time_nonneg (a : BrickAction) (l : list BrickAction) :
  exists T : Q, getTotalExecutionTime (a :: l) = JS.Fin T /\ (0 <= T)%Q.
Proof.
  destruct (getTotalExecutionTime_Fin a l) as (M & m & E & _ & _ & Hall).
  exists (M + - m)%Q. split; [exact E|].
  destruct (Hall a (or_introl eq_refl)) as [H1 H2].
  rewrite <- Qle_minus_iff. eapply Qle_trans; eauto.
Qed.

(** The quotient behind the efficiency score, in exact arithmetic: it
    exceeds a threshold exactly when the optimal time exceeds that share of
    the total time; a total time of zero gives [Infinity]. *)
Lemma efficiency_quotient_gt (n : nat) (T c : Q) :
  (0 < n)%nat -> (0 <= T)%Q ->
  JS.gt (JS.div (JS.mul (JS.of_nat n) (JS.Fin 50)) (JS.Fin T)) (JS.Fin c) = true
  <-> (c * T < inject_Z (Z.of_nat n) * 50)%Q.
Proof.
  intros Hn HT. unfold JS.of_nat, JS.mul, JS.div.
  assert (Hpos : (0 < inject_Z (Z.of_nat n) * 50)%Q).
  { apply Qgt_alt. apply (of_nat_pos_sign n 50 Hn). reflexivity. }
  unfold JS.sign at 1. destruct (Qcompare_spec T 0) as [E|E|E].
  - rewrite (of_nat_pos_sign n 50 Hn) by reflexivity.
    split; [intros _|reflexivity].
    rewrite E, Qmult_0_r. exact Hpos.
  - exfalso. exact (Qlt_not_le _ _ E HT).
  - unfold JS.gt. rewrite lt_Fin_true. split; intros H.
    + apply (Qmult_lt_r _ _ T E) in H.
      assert (HT0 : ~ T == 0) by (intros H0; rewrite H0 in E; discriminate).
      assert (Hx : (inject_Z (Z.of_nat n) * 50 / T * T == inject_Z (Z.of_nat n) * 50)%Q)
        by (field; exact HT0).
      rewrite Hx in H. exact H.
    + apply Qlt_shift_div_l; [exact E|exact H].
Qed.

Lemma isErrorAction_spec (action : BrickAction) :
  isErrorAction action = true <->
  a_type action = system
  /\ exists event call message,
       a_event action = SystemEvent event
       /\ se_systemCall event = Some call /\ sc_error call = Some message.
Proof.
  unfold isErrorAction. split.
  - destruct (a_type action); try discriminate.
    destruct (a_event action) as [m|k|e]; try discriminate.
    destruct (se_systemCall e) as [call|] eqn:Ecall; try discriminate.
    destruct (sc_error call) as [message|] eqn:Eerr.
    + intros _. split; [reflexivity|]. exists e, call, message. auto.
    + intros H. apply bool_decide_eq_true in H. destruct H as [x Hx]. discriminate.
  - intros (-> & event & call & message & -> & -> & ->). reflexivity.
Qed.

Lemma initialize_loop_skip (uuids : nat -> string) (task : TaskRecording)
    (after : list TaskRecording) :
  hasPositiveFeedback task = false ->
  forall before calls store,
    initialize_loop uuids calls (before ++ task :: after) store
    = initialize_loop uuids calls (before ++ after) store.
Proof.
  intros Hno before. induction before as [|t before IH]; intros calls store; simpl.
  - now rewrite Hno.
  - destruct (hasPositiveFeedback t); apply IH.
Qed.

(** C1 (as amended).  For a recording that passes the completion predicate
    and whose cleanliness score is strictly above 0.8, the recording
    qualifies if and only if [optimalTime / totalTime] is strictly above 0.7,
    where [optimalTime] is 50 ms per action and [totalTime], the difference
    between the largest and the smallest timestamp, is finite and not
    negative; in exact arithmetic, if and only if
    [0.7 * totalTime < 50 * actionCount]. *)
Theorem qualifies_iff_efficiency_strictly_above (task : TaskRecording) :
  hasCompletedSuccessfully task = true ->
  JS.gt (calculateCleanlinessScore (r_actions task)) (JS.Fin (8 # 10)) = true ->
  exists totalTime : Q,
    getTotalExecutionTime (r_actions task) = JS.Fin totalTime
    /\ (0 <= totalTime)%Q
    /\ (hasPositiveFeedback task = true <->
        JS.gt (JS.div (calculateOptimalTime (r_actions task)) (JS.Fin totalTime))
          (JS.Fin (7 # 10)) = true)
    /\ (hasPositiveFeedback task = true <->
        ((7 # 10) * totalTime < inject_Z (Z.of_nat (length (r_actions task))) * 50)%Q).
Proof.
  intros Hdone Hclean.
  unfold hasPositiveFeedback, hasCleanExecution. rewrite Hdone, Hclean.
  rewrite Bool.andb_true_l, Bool.andb_true_r.
  unfold hasCompletedSuccessfully in Hdone. apply andb_prop in Hdone as [Hlen _].
  destruct (r_actions task) as [|a l] eqn:Eacts; [discriminate|].
  destruct (total_time_nonneg a l) as (T & ET & HT).
  exists T. split; [exact ET|]. split; [exact HT|].
  assert (Heff : hasOptimalTiming task
                 = JS.gt (JS.div (calculateOptimalTime (a :: l)) (JS.Fin T))
                     (JS.Fin (7 # 10))).
  { unfold hasOptimalTiming, calculateExecutionEfficiency. rewrite Eacts, ET.
    apply gt_min_one. reflexivity. }
  rewrite Heff. split; [reflexivity|].
  unfold calculateOptimalTime. apply efficiency_quotient_gt; [simpl; lia|exact HT].
Qed.

Lemma qualifies_iff_efficiency_strictly_above_witness :
  hasCompletedSuccessfully Samples.three_clicks_at_once = true
  /\ JS.gt (calculateCleanlinessScore (r_actions Samples.three_clicks_at_once))
       (JS.Fin (8 # 10)) = true
  /\ exists totalTime : Q,
       getTotalExecutionTime (r_actions Samples.three_clicks_at_once) = JS.Fin totalTime
       /\ (0 <= totalTime)%Q
       /\ (hasPositiveFeedback Samples.three_clicks_at_once = true <->
           JS.gt (JS.div (calculateOptimalTime (r_actions Samples.three_clicks_at_once))
                    (JS.Fin totalTime)) (JS.Fin (7 # 10)) = true)
       /\ (hasPositiveFeedback Samples.three_clicks_at_once = true <->
           ((7 # 10) * totalTime
            < inject_Z (Z.of_nat (length (r_actions Samples.three_clicks_at_once))) * 50)%Q).
Proof.
  split; [reflexivity|]. split; [reflexivity|].
  apply (qualifies_iff_efficiency_strictly_above Samples.three_clicks_at_once);
    reflexivity.
Defined.

(** C1 (as stated) fails: seven distinct clicks spread over 500 ms complete
    without error, have cleanliness 1 and an efficiency ratio of exactly
    350 / 500 = 0.70, and the recording does not qualify. *)
Lemma ratio_of_exactly_seventy_percent_does_not_qualify :
  hasCompletedSuccessfully Samples.seven_clicks_in_500ms = true
  /\ JS.ge (calculateCleanlinessScore (r_actions Samples.seven_clicks_in_500ms))
       (JS.Fin (8 # 10)) = true
  /\ JS.ge (JS.div (calculateOptimalTime (r_actions Samples.seven_clicks_in_500ms))
              (getTotalExecutionTime (r_actions Samples.seven_clicks_in_500ms)))
       (JS.Fin (7 # 10)) = true
  /\ JS.eqb (JS.div (calculateOptimalTime (r_actions Samples.seven_clicks_in_500ms))
               (getTotalExecutionTime (r_actions Samples.seven_clicks_in_500ms)))
       (JS.Fin (7 # 10)) = true
  /\ hasPositiveFeedback Samples.seven_clicks_in_500ms = false.
Proof. repeat split; vm_compute; reflexivity. Qed.

(** One millisecond less, and the same clicks qualify. *)
Example ratio_above_seventy_percent_qualifies :
  hasPositiveFeedback Samples.seven_clicks_in_499ms = true.
Proof. vm_compute. reflexivity. Qed.

(** The cleanliness threshold is strict as well: with one repeated action in
    five the score is exactly 0.8 and the recording does not qualify,
    although its efficiency is 1. *)
Example cleanliness_of_exactly_eighty_percent_does_not_qualify :
  hasCompletedSuccessfully Samples.one_repeat_in_five = true
  /\ JS.eqb (calculateCleanlinessScore (r_actions Samples.one_repeat_in_five))
       (JS.Fin (8 # 10)) = true
  /\ calculateExecutionEfficiency (r_actions Samples.one_repeat_in_five) = JS.Fin 1
  /\ hasPositiveFeedback Samples.one_repeat_in_five = false.
Proof. repeat split; vm_compute; reflexivity. Qed.

(** C8.  A recording that contains a system action whose system call carries
    an error fails the success check, whatever its efficiency and cleanliness
    scores are, and the cold-start scan leaves the pattern store exactly as
    if that recording had not been stored. *)
Theorem error_action_excludes_recording
    (task : TaskRecording) (action : BrickAction) (event : BrickSystemEvent)
    (call : BrickSystemCall) (message : string) :
  In action (r_actions task) ->
  a_type action = system ->
  a_event action = SystemEvent event ->
  se_systemCall event = Some call ->
  sc_error call = Some message ->
  hasPositiveFeedback task = false
  /\ forall uuids before after store,
       initializeFromSuccessfulTasks uuids (Some (before ++ task :: after)) store
       = initializeFromSuccessfulTasks uuids (Some (before ++ after)) store.
Proof.
  intros Hin Htype Hevent Hcall Herr.
  assert (Hno : hasPositiveFeedback task = false).
  { unfold hasPositiveFeedback, hasCompletedSuccessfully.
    assert (H : existsb isErrorAction (r_actions task) = true).
    { apply existsb_exists. exists action. split; [exact Hin|].
      apply isErrorAction_spec. split; [exact Htype|].
      exists event, call, message. auto. }
    rewrite H. simpl. now rewrite Bool.andb_false_r. }
  split; [exact Hno|].
  intros uuids before after store. unfold initializeFromSuccessfulTasks.
  now apply initialize_loop_skip.
Qed.

Lemma error_action_excludes_recording_witness :
  In (Samples.system_call_at Samples.blank_context (Some "EACCES") 10)
     (r_actions Samples.failed_probe_recording)
  /\ hasPositiveFeedback Samples.failed_probe_recording = false
  /\ forall uuids before after store,
       initializeFromSuccessfulTasks uuids
         (Some (before ++ Samples.failed_probe_recording :: after)) store
       = initializeFromSuccessfulTasks uuids (Some (before ++ after)) store.
Proof.
  split; [right; left; reflexivity|].
  eapply (error_action_excludes_recording Samples.failed_probe_recording
            (Samples.system_call_at Samples.blank_context (Some "EACCES") 10)).
  - right; left; reflexivity.
  - reflexivity.
  - reflexivity.
  - reflexivity.
  - reflexivity.
Defined.

(** C9.  A recording without actions never qualifies.  Its cleanliness score
    is the unguarded quotient [0 / 0], which is [NaN] and throws nothing; the
    verdict is [false] all the same. *)
Theorem empty_recording_never_qualifies (task : TaskRecording) :
  r_actions task = [] ->
  calculateCleanlinessScore (r_actions task) = JS.NaN
  /\ hasCleanExecution task = false
  /\ hasCompletedSuccessfully task = false
  /\ hasPositiveFeedback task = false.
Proof.
  intros E. unfold hasPositiveFeedback, hasCleanExecution, hasCompletedSuccessfully.
  rewrite E. repeat split; reflexivity.
Qed.

Lemma empty_recording_never_qualifies_witness :
  r_actions (Samples.recording_of (@nil BrickAction)) = []
  /\ calculateCleanlinessScore (r_actions (Samples.recording_of (@nil BrickAction))) = JS.NaN
  /\ hasCleanExecution (Samples.recording_of []) = false
  /\ hasCompletedSuccessfully (Samples.recording_of []) = false
  /\ hasPositiveFeedback (Samples.recording_of []) = false.
Proof.
  split; [reflexivity|].
  apply (empty_recording_never_qualifies (Samples.recording_of [])). reflexivity.
Defined.

(** C10.  When all the actions of a non-empty recording carry the same
    timestamp, the total time is 0, the quotient [optimalTime / totalTime] is
    [Infinity], the efficiency score is [Math.min(1, Infinity) = 1], and the
    recording passes the efficiency predicate. *)
Theorem same_instant_recording_has_efficiency_one (task : TaskRecording) (t : Q) :
  r_actions task <> [] ->
  (forall a, In a (r_actions task) -> timestamp (a_event a) == t) ->
  (exists totalTime : Q,
     getTotalExecutionTime (r_actions task) = JS.Fin totalTime /\ totalTime == 0)
  /\ JS.div (calculateOptimalTime (r_actions task))
       (getTotalExecutionTime (r_actions task)) = JS.PInf
  /\ calculateExecutionEfficiency (r_actions task) = JS.Fin 1
  /\ hasOptimalTiming task = true.
Proof.
  intros Hne Hsame. unfold hasOptimalTiming, calculateExecutionEfficiency.
  destruct (r_actions task) as [|a l]; [congruence|].
  destruct (getTotalExecutionTime_Fin a l) as (M & m & E & HinM & Hinm & _).
  assert (Hts : forall x, In x (map (fun a => timestamp (a_event a)) (a :: l)) -> x == t).
  { intros x Hx. apply in_map_iff in Hx as (b & <- & Hb). apply Hsame. exact Hb. }
  assert (H0 : (M + - m == 0)%Q).
  { rewrite (Hts M HinM), (Hts m Hinm). apply Qplus_opp_r. }
  assert (Hdiv : JS.div (calculateOptimalTime (a :: l)) (JS.Fin (M + - m)) = JS.PInf).
  { unfold calculateOptimalTime, JS.of_nat, JS.mul, JS.div.
    unfold JS.sign at 1. apply Qeq_alt in H0. rewrite H0.
    rewrite of_nat_pos_sign; [reflexivity|simpl; lia|reflexivity]. }
  rewrite E, Hdiv. split; [|repeat split].
  exists (M + - m)%Q. split; [reflexivity|exact H0].
Qed.

Lemma same_instant_recording_has_efficiency_one_witness :
  r_actions Samples.three_clicks_at_once <> []
  /\ (forall a, In a (r_actions Samples.three_clicks_at_once) ->
        timestamp (a_event a) == 5)
  /\ calculateExecutionEfficiency (r_actions Samples.three_clicks_at_once) = JS.Fin 1
  /\ hasOptimalTiming Samples.three_clicks_at_once = true.
Proof.
  assert (H1 : r_actions Samples.three_clicks_at_once <> []) by discriminate.
  assert (H2 : forall a, In a (r_actions Samples.three_clicks_at_once) ->
                 timestamp (a_event a) == 5).
  { intros a [<-|[<-|[<-|[]]]]; reflexivity. }
  split; [exact H1|]. split; [exact H2|].
  exact (proj2 (proj2 (same_instant_recording_has_efficiency_one
                         Samples.three_clicks_at_once 5 H1 H2))).
Defined.

Lemma sign_of_length (n : nat) : (0 < n)%nat -> JS.sign (inject_Z (Z.of_nat n)) = Gt.
Proof.
  intros H. unfold JS.sign. apply Qgt_alt. change 0%Q with (inject_Z 0).
  rewrite <- Zlt_Qlt. lia.
Qed.

(** The number the selection passes to [slice], for a finite product. *)
Lemma selection_bound (x : Q) :
  JS.Math_max (JS.Fin 1) (JS.Math_floor (JS.Fin x))
  = JS.Fin (inject_Z (Z.max 1 (Qfloor x))).
Proof.
  unfold JS.Math_floor, JS.Math_max.
  set (z := Qfloor x).
  destruct (JS.lt (JS.Fin 1) (JS.Fin (inject_Z z))) eqn:E.
  - apply lt_Fin_true in E. change 1%Q with (inject_Z 1) in E.
    rewrite <- Zlt_Qlt in E. f_equal. f_equal. lia.
  - apply lt_Fin_false in E. change 1%Q with (inject_Z 1) in E.
    rewrite <- Zle_Qle in E. replace (Z.max 1 z) with 1%Z by lia. reflexivity.
Qed.

Lemma slice_to_positive {A} (xs : list A) (z : Z) :
  (0 <= z)%Z -> JS.slice_to xs (JS.Fin (inject_Z z)) = take (Z.to_nat z) xs.
Proof.
  intros Hz. unfold JS.slice_to, JS.truncate.
  assert (H : Qle_bool 0 (inject_Z z) = true).
  { apply Qle_bool_iff. change 0%Q with (inject_Z 0). rewrite <- Zle_Qle. exact Hz. }
  rewrite H, Qfloor_Z.
  destruct (z <? 0)%Z eqn:E; [apply Z.ltb_lt in E; lia|reflexivity].
Qed.

(** What [slice(0, n)] returns is an initial part of the array. *)
Lemma slice_to_prefix {A} (xs : list A) (stop : number) :
  exists k, JS.slice_to xs stop = take k xs.
Proof.
  destruct stop as [q| | |]; cbn [JS.slice_to].
  - destruct (JS.truncate q <? 0)%Z; eauto.
  - exists (length xs). now rewrite firstn_all.
  - exists 0%nat. reflexivity.
  - exists 0%nat. reflexivity.
Qed.

(** C2 (as amended).  [generateFutureTask] hands its hints and complexity
    level to [selectRelevantPatterns], which returns the first
    [max(1, floor(complexityLevel * P))] patterns of the ranked relevant ones,
    [P] being the number of all stored patterns, relevant or not, and the
    product being the binary64 product, rounded before it is floored; so it
    returns [min(R, max(1, floor(complexityLevel * P)))] patterns when [R] are
    relevant.  A product of [Infinity] selects all the relevant patterns, a
    product of [-Infinity] one, and [NaN] none.  With complexity 1 and a
    store of fewer than [2^53] patterns it returns all [R] of them; with any
    complexity but [NaN] it returns at least one whenever one is relevant; and
    with complexity [NaN] it returns none.  (A complexity written as the
    decimal literal [d] is the number [JS.double d].) *)
Theorem selection_takes_floor_of_store_size
    (store : PatternStore) (hints : ContextHints) (complexityLevel : number) :
  let relevant :=
    List.filter (fun p => isPatternRelevant p hints) (Map_values store) in
  let ranked :=
    JS.sort (fun a b => JS.sub (calculatePatternScore b) (calculatePatternScore a))
      relevant in
  let product := JS.mul_double complexityLevel (JS.of_nat (length store)) in
  let selected := selectRelevantPatterns store hints complexityLevel in
  match product with
  | JS.Fin x =>
      selected = take (Z.to_nat (Z.max 1 (Qfloor x))) ranked
      /\ length selected = Nat.min (length relevant) (Z.to_nat (Z.max 1 (Qfloor x)))
  | JS.PInf => selected = ranked
  | JS.NInf => selected = take 1 ranked
  | JS.NaN => selected = []
  end
  /\ (forall c, complexityLevel = JS.Fin c ->
        product = JS.double (c * inject_Z (Z.of_nat (length store))))
  /\ (forall c, complexityLevel = JS.Fin c -> c == 1 ->
        (Z.of_nat (length store) < 2 ^ 53)%Z ->
        length selected = length relevant)
  /\ (complexityLevel <> JS.NaN -> relevant <> [] -> (1 <= length selected)%nat)
  /\ (complexityLevel = JS.NaN -> selected = []).
Proof.
  intros relevant ranked product selected.
  assert (Hdef : selected
                 = JS.slice_to ranked (JS.Math_max (JS.Fin 1) (JS.Math_floor product))).
  { unfold selected, selectRelevantPatterns, product, Map_values.
    rewrite length_map. reflexivity. }
  assert (Hranked : length ranked = length relevant) by apply sort_length.
  assert (HR : (length relevant <= length store)%nat).
  { unfold relevant, Map_values.
    etransitivity; [apply filter_length_le|]. now rewrite length_map. }
  assert (Hcases : match product with
                   | JS.Fin x =>
                       selected = take (Z.to_nat (Z.max 1 (Qfloor x))) ranked
                       /\ length selected
                          = Nat.min (length relevant) (Z.to_nat (Z.max 1 (Qfloor x)))
                   | JS.PInf => selected = ranked
                   | JS.NInf => selected = take 1 ranked
                   | JS.NaN => selected = []
                   end).
  { rewrite Hdef. destruct product as [x| | |].
    - rewrite selection_bound, slice_to_positive by lia.
      split; [reflexivity|]. rewrite length_take, Hranked. lia.
    - reflexivity.
    - reflexivity.
    - reflexivity. }
  assert (Hfin : forall c, complexityLevel = JS.Fin c ->
                   product = JS.double (c * inject_Z (Z.of_nat (length store)))).
  { intros c ->. reflexivity. }
  split; [exact Hcases|]. split; [exact Hfin|]. split; [|split].
  - intros c Hc Hone Hsize.
    destruct (double_whole (Z.of_nat (length store)) ltac:(lia)) as (x & Ex & Hx).
    assert (Eprod : product = JS.Fin x).
    { rewrite (Hfin c Hc), <- Ex. apply double_Qeq. rewrite Hone. apply Qmult_1_l. }
    rewrite Eprod in Hcases. destruct Hcases as [_ Hlen]. rewrite Hlen.
    rewrite (Qfloor_comp _ _ Hx), Qfloor_Z. lia.
  - intros Hnan Hne.
    assert (Hpos : (0 < length relevant)%nat).
    { destruct relevant; [congruence|cbn; lia]. }
    assert (Hprod : product <> JS.NaN).
    { unfold product. destruct complexityLevel as [c| | |]; [| | |congruence].
      - unfold JS.mul_double, JS.mul, JS.of_nat. apply double_is_a_number.
      - unfold JS.mul_double, JS.mul, JS.of_nat.
        rewrite (sign_of_length (length store)) by lia. discriminate.
      - unfold JS.mul_double, JS.mul, JS.of_nat.
        rewrite (sign_of_length (length store)) by lia. discriminate. }
    destruct product as [x| | |]; [| | |congruence].
    + destruct Hcases as [_ ->]. lia.
    + rewrite Hcases, Hranked. lia.
    + rewrite Hcases, length_take, Hranked. lia.
  - intros ->. exact Hcases.
Qed.

Lemma selection_takes_floor_of_store_size_witness :
  (1 : Q) == 1
  /\ length (selectRelevantPatterns Samples.mixed_pattern_store Samples.linux_hint
               (JS.Fin 1)) = 2%nat
  /\ (1 <= length (selectRelevantPatterns Samples.mixed_pattern_store
                     Samples.linux_hint (JS.Fin 1)))%nat.
Proof.
  split; [reflexivity|].
  pose proof (selection_takes_floor_of_store_size Samples.mixed_pattern_store
                Samples.linux_hint (JS.Fin 1)) as H.
  cbv zeta in H. destruct H as (_ & _ & Hall & Hone & _).
  split.
  - rewrite (Hall 1%Q eq_refl ltac:(reflexivity) ltac:(reflexivity)).
    vm_compute. reflexivity.
  - apply Hone; [discriminate|]. vm_compute. discriminate.
Defined.

(** The literal [0.7], the complexity the application asks for, against
    stores of 90 and of 10 patterns: the rounded products are
    [62.99999999999999] and [7], where the exact products of the decimal
    [0.7] are 63 and 7, and those of the binary64 value of the literal just
    below 63 and just below 7. *)
Lemma rounded_product_of_the_literal_07 :
  (exists x, JS.mul_double (JS.double (7 # 10)) (JS.of_nat 90) = JS.Fin x
             /\ Qfloor x = 62%Z)
  /\ (exists x, JS.mul_double (JS.double (7 # 10)) (JS.of_nat 10) = JS.Fin x
                /\ Qfloor x = 7%Z)
  /\ (exists c, JS.double (7 # 10) = JS.Fin c
                /\ Qfloor (c * 90) = 62%Z /\ Qfloor (c * 10) = 6%Z
                /\ Qfloor ((7 # 10) * 90) = 63%Z).
Proof.
  split; [|split]; eexists; (split; [vm_compute; reflexivity|]).
  - vm_compute. reflexivity.
  - vm_compute. reflexivity.
  - repeat split; vm_compute; reflexivity.
Qed.

(** C2 (as stated) fails.  With three stored patterns, all relevant, and
    complexity 0.5 the stated count is [max(1, ceil(1.5)) = 2], and the code
    selects [max(1, floor(1.5)) = 1] pattern.  With four stored patterns of
    which two are relevant and complexity 0.5 the stated count is
    [max(1, ceil(0.5 * 2)) = 1], and the code selects [floor(0.5 * 4) = 2].
    With an empty store nothing is selected, whatever the complexity. *)
Lemma half_complexity_of_three_selects_one :
  (length (List.filter (fun p => isPatternRelevant p Samples.no_hints)
             (Map_values Samples.three_pattern_store)) = 3%nat
   /\ Z.max 1 (Qceiling ((1 # 2) * inject_Z 3)) = 2%Z
   /\ length (selectRelevantPatterns Samples.three_pattern_store Samples.no_hints
                (JS.Fin (1 # 2))) = 1%nat)
  /\ (length (Map_values Samples.mixed_pattern_store) = 4%nat
      /\ length (List.filter (fun p => isPatternRelevant p Samples.linux_hint)
                   (Map_values Samples.mixed_pattern_store)) = 2%nat
      /\ Z.max 1 (Qceiling ((1 # 2) * inject_Z 2)) = 1%Z
      /\ length (selectRelevantPatterns Samples.mixed_pattern_store Samples.linux_hint
                   (JS.Fin (1 # 2))) = 2%nat)
  /\ selectRelevantPatterns [] Samples.no_hints (JS.Fin (1 # 100)) = [].
Proof. repeat split; vm_compute; reflexivity. Qed.

End ExtractorFacts.

(** ** The instruction translator *)

Section TranslatorFacts.

Import MCP.

Lemma focus_window_is_focus (context : string) (a : BrickAction) :
  List.filter (fun i => negb (is_focus i)) (snd (focus_window context a)) = [].
Proof.
  unfold focus_window. destruct (windowTitle (a_context a)) as [[|c rest]|]; try reflexivity.
  destruct (negb (String.eqb (String c rest) context)); reflexivity.
Qed.

Lemma action_instructions_spec (context : string) (a : BrickAction) :
  if has_instruction a
  then exists i, action_instructions context a = [i]
                 /\ is_focus i = false /\ translates_to a i
  else action_instructions context a = [].
Proof.
  unfold has_instruction, action_instructions.
  destruct (a_type a) eqn:Et; destruct (a_event a) as [m|k|e] eqn:Ee; try reflexivity.
  - destruct (me_target m) as [target|] eqn:Etg; [|reflexivity].
    eexists. split; [reflexivity|]. split; [reflexivity|].
    eapply click_of_mouse; eauto.
  - destruct (String.eqb (ke_type k) "textInput") eqn:Ek; [|reflexivity].
    eexists. split; [reflexivity|]. split; [reflexivity|].
    eapply type_of_text_input; eauto. now apply String.eqb_eq.
  - destruct (se_systemCall e) as [call|] eqn:Ec; [|reflexivity].
    eexists. split; [reflexivity|]. split; [reflexivity|].
    eapply system_of_call; eauto.
Qed.

(** C4 (as amended).  Before the coalescing pass an action is mapped to at
    most one instruction besides the focus-window instructions: a mouse action
    whose event has a target to a click instruction (its target the element
    text when that is present and not empty, the element identifier
    otherwise), a keyboard action of subtype [textInput] to a type instruction
    whose value is the key, a system action carrying a system call to a system
    instruction carrying that call, and any other action to no instruction.
    The instructions of the loop that are not focus instructions are, in
    order, those of the actions of these three kinds. *)
Theorem each_action_yields_at_most_one_instruction
    (context : string) (actions : list BrickAction) :
  (forall a c, length (action_instructions c a) = if has_instruction a then 1%nat else 0%nat)
  /\ Forall2 translates_to
       (List.filter has_instruction actions)
       (List.filter (fun i => negb (is_focus i)) (translate_loop context actions)).
Proof.
  split.
  - intros a c. pose proof (action_instructions_spec c a) as H.
    destruct (has_instruction a).
    + destruct H as (i & -> & _). reflexivity.
    + now rewrite H.
  - revert context. induction actions as [|a rest IH]; intros context.
    + constructor.
    + cbn [translate_loop].
      pose proof (focus_window_is_focus context a) as Hf.
      destruct (focus_window context a) as [context' focus]. cbn [snd] in Hf.
      rewrite !List.filter_app, Hf. cbn [app List.filter].
      pose proof (action_instructions_spec context' a) as H.
      destruct (has_instruction a).
      * destruct H as (i & -> & Hi & Ht). cbn [List.filter app]. rewrite Hi.
        cbn [negb]. constructor; [exact Ht|apply IH].
      * rewrite H. cbn [List.filter app]. apply IH.
Qed.

(** C4 (as stated) fails: a pointer move without a target, a key-down and a
    system event without a system call are each mapped to no instruction. *)
Lemma actions_without_an_instruction :
  a_type (Samples.move_at Samples.blank_context 0) = mouse
  /\ translate_loop "" [Samples.move_at Samples.blank_context 0] = []
  /\ translate_loop "" [Samples.key_at Samples.blank_context "keydown" "a" 0] = []
  /\ translateToInstructions
       [Samples.move_at Samples.blank_context 0;
        Samples.key_at Samples.blank_context "keydown" "a" 10] = [].
Proof. repeat split; reflexivity. Qed.

(** The scenario of the specification: two clicks give two click
    instructions, in order. *)
Example two_clicks_give_two_instructions :
  map i_description
    (translateToInstructions
       [Samples.click_at Samples.blank_context 0;
        Samples.click_at Samples.blank_context 500])
  = ["Click Save"; "Click Save"].
Proof. reflexivity. Qed.

End TranslatorFacts.

(** ** The replay engine *)

Section ReplayFacts.

Import Player.

Context {World : Type}.
Variable executeMouseAction : BrickAction -> World -> Result World.
Variable executeSystemAction : BrickAction -> World -> Result World.

Local Abbreviation exec := (executeAction World executeMouseAction executeSystemAction).
Local Abbreviation loop := (play_loop World executeMouseAction executeSystemAction).
Local Abbreviation run := (dispatch_all World executeMouseAction executeSystemAction).

(** Case analysis on what the handler selected by [executeAction] does. *)
Ltac case_handler :=
  unfold executeAction;
  match goal with
  | |- context [match a_type ?a with mouse => ?m | keyboard => ?k | system => ?s end] =>
      destruct (match a_type a with mouse => m | keyboard => k | system => s end)
  end;
  simpl; congruence.

Lemma executeAction_ok (a : BrickAction) (w w' : World) :
  snd (exec a w) = Ok w' -> exec a w = ([Dispatch a], Ok w').
Proof. case_handler. Qed.

Lemma executeAction_throw (a : BrickAction) (w : World) (e : string) :
  snd (exec a w) = Throw e ->
  exec a w = ([Dispatch a; ConsoleError ("Error executing action " +:+ a_id a +:+ ":") e],
              Throw e).
Proof. case_handler. Qed.

(** The action under the cursor and what lies after it. *)
Lemma drop_cons_inv (l : list BrickAction) (i : nat) (a : BrickAction)
    (rest : list BrickAction) :
  drop i l = a :: rest ->
  l !! i = Some a /\ (i <? length l)%nat = true /\ drop (S i) l = rest.
Proof.
  intros Hdrop.
  assert (Hlook : l !! i = Some a).
  { rewrite <- (Nat.add_0_r i), <- lookup_drop, Hdrop. reflexivity. }
  split; [exact Hlook|]. split.
  - apply Nat.ltb_lt. exact (lookup_lt_Some _ _ _ Hlook).
  - rewrite (drop_S _ _ _ Hlook) in Hdrop. congruence.
Qed.

Lemma dispatched_app (l1 l2 : list Obs) :
  dispatched (l1 ++ l2) = dispatched l1 ++ dispatched l2.
Proof. apply flat_map_app. Qed.

Lemma delay_before_quiet (next : option BrickAction) (a : BrickAction) :
  dispatched (delay_before next a) = []
  /\ forall m e, ~ In (ConsoleError m e) (delay_before next a).
Proof.
  unfold delay_before. destruct next as [n|]; [|split; [reflexivity|intros ? ? []]].
  destruct (negb _); split; try reflexivity.
  - intros ? ? [H|[]]. discriminate.
  - intros ? ? [].
Qed.

(** The loop, started at index [i] with every remaining dispatch succeeding
    and [stop()] never called, dispatches the remaining actions in order and
    leaves the cursor at the end. *)
Lemma play_loop_success (l : list BrickAction) (stops : nat -> bool) :
  (forall j, stops j = false) ->
  forall rest i fuel w w' log,
    drop i l = rest -> (i <= length l)%nat -> (length rest <= fuel)%nat ->
    run rest w = Ok w' ->
    exists log',
      loop stops fuel {| actions := l; isPlaying := true; currentIndex := i |} w log
      = Some ({| actions := l; isPlaying := true; currentIndex := length l |},
              w', log ++ log', Ok tt)
      /\ dispatched log' = rest
      /\ forall m e, ~ In (ConsoleError m e) log'.
Proof.
  intros Hstops rest. induction rest as [|a rest IH]; intros i fuel w w' log Hdrop Hi Hfuel Hrun.
  - apply drop_nil_inv in Hdrop. assert (i = length l) as -> by lia.
    simpl in Hrun. injection Hrun as <-.
    exists []. rewrite app_nil_r. split; [|split; [reflexivity|intros ? ? []]].
    destruct fuel; simpl; rewrite Nat.ltb_irrefl; reflexivity.
  - destruct (drop_cons_inv _ _ _ _ Hdrop) as (Hlook & Hlt & Hdrop').
    destruct fuel as [|fuel]; [simpl in Hfuel; lia|].
    simpl in Hrun. destruct (snd (exec a w)) as [w1|e] eqn:Eexec; [|discriminate].
    apply executeAction_ok in Eexec.
    cbn [play_loop actions isPlaying currentIndex].
    rewrite Hlt. cbn [andb]. rewrite Hlook, Eexec, Hstops.
    cbn [andb negb].
    set (sleep := if (S i <? length l)%nat then delay_before (l !! S i) a else []).
    destruct (IH (S i) fuel w1 w' (log ++ [Dispatch a] ++ sleep) Hdrop')
      as (log' & Hloop & Hdis & Hquiet).
    { apply Nat.ltb_lt in Hlt. lia. }
    { simpl in Hfuel. lia. }
    { exact Hrun. }
    assert (Hsleep : dispatched sleep = [] /\ forall m e, ~ In (ConsoleError m e) sleep).
    { unfold sleep. destruct (S i <? length l)%nat; [apply delay_before_quiet|].
      split; [reflexivity|intros ? ? []]. }
    exists ([Dispatch a] ++ sleep ++ log'). split; [|split].
    + rewrite Hloop. f_equal. f_equal. now rewrite <- !app_assoc.
    + rewrite !dispatched_app, (proj1 Hsleep), Hdis. reflexivity.
    + intros m e Hin. apply in_app_or in Hin as [[H|[]]|Hin]; [discriminate|].
      apply in_app_or in Hin as [Hin|Hin]; [exact (proj2 Hsleep m e Hin)|].
      exact (Hquiet m e Hin).
Qed.

(** The loop, when the dispatch of the action [k] places after the cursor
    is the first to throw, stops there with the error: nothing after that
    action is dispatched and the cursor stays on it. *)
Lemma play_loop_failure (l : list BrickAction) (stops : nat -> bool)
    (a : BrickAction) (e : string) :
  forall k rest i fuel w wk log,
    drop i l = rest -> (length rest <= fuel)%nat ->
    (forall j, (j < i + k)%nat -> stops j = false) ->
    rest !! k = Some a ->
    run (take k rest) w = Ok wk ->
    snd (exec a wk) = Throw e ->
    exists log',
      loop stops fuel {| actions := l; isPlaying := true; currentIndex := i |} w log
      = Some ({| actions := l; isPlaying := true; currentIndex := (i + k)%nat |},
              wk, log ++ log', Throw e)
      /\ dispatched log' = take (S k) rest.
Proof.
  induction k as [|k IH]; intros rest i fuel w wk log Hdrop Hfuel Hstops Hk Hrun Hthrow.
  - destruct rest as [|b rest]; [discriminate|]. injection Hk as ->.
    destruct (drop_cons_inv _ _ _ _ Hdrop) as (Hlook & Hlt & _).
    simpl in Hrun. injection Hrun as ->.
    destruct fuel as [|fuel]; [simpl in Hfuel; lia|].
    apply executeAction_throw in Hthrow.
    cbn [play_loop actions isPlaying currentIndex].
    rewrite Hlt. cbn [andb]. rewrite Hlook, Hthrow, Nat.add_0_r.
    eexists. split; [reflexivity|]. reflexivity.
  - destruct rest as [|b rest]; [discriminate|]. simpl in Hk.
    destruct (drop_cons_inv _ _ _ _ Hdrop) as (Hlook & Hlt & Hdrop').
    destruct fuel as [|fuel]; [simpl in Hfuel; lia|].
    simpl in Hrun. destruct (snd (exec b w)) as [w1|e1] eqn:Eexec; [|discriminate].
    apply executeAction_ok in Eexec.
    cbn [play_loop actions isPlaying currentIndex].
    rewrite Hlt. cbn [andb]. rewrite Hlook, Eexec, (Hstops i) by lia.
    cbn [andb negb].
    set (sleep := if (S i <? length l)%nat then delay_before (l !! S i) b else []).
    destruct (IH rest (S i) fuel w1 wk (log ++ [Dispatch b] ++ sleep) Hdrop')
      as (log' & Hloop & Hdis); try assumption.
    { simpl in Hfuel. lia. }
    { intros j Hj. apply Hstops. lia. }
    assert (Hsleep : dispatched sleep = []).
    { unfold sleep. destruct (S i <? length l)%nat; [apply delay_before_quiet|reflexivity]. }
    exists ([Dispatch b] ++ sleep ++ log'). split.
    + rewrite Hloop. replace (S i + k)%nat with (i + S k)%nat by lia.
      f_equal. f_equal. now rewrite <- !app_assoc.
    + rewrite !dispatched_app, Hsleep, Hdis. reflexivity.
Qed.

Local Abbreviation play' := (play World executeMouseAction executeSystemAction).

(** The loop never runs out of fuel when it is given one unit for each
    action at or after the cursor, so [play()] always settles, whatever the
    handlers do and whenever [stop()] is called. *)
Lemma play_loop_total (stops : nat -> bool) :
  forall fuel p w log,
    (length (actions p) - currentIndex p <= fuel)%nat ->
    exists outcome, loop stops fuel p w log = Some outcome.
Proof.
  induction fuel as [|fuel IH]; intros p w log Hfuel.
  - cbn [play_loop]. destruct (currentIndex p <? length (actions p))%nat eqn:E.
    + apply Nat.ltb_lt in E. lia.
    + eexists. reflexivity.
  - cbn [play_loop].
    destruct ((currentIndex p <? length (actions p))%nat && isPlaying p) eqn:E;
      [|eexists; reflexivity].
    destruct (actions p !! currentIndex p) as [a|]; [|eexists; reflexivity].
    destruct (exec a w) as [obs [w1|e]]; [|eexists; reflexivity].
    apply IH. cbn [actions currentIndex]. lia.
Qed.

Lemma play_total (stops : nat -> bool) (p : BrickPlayer) (w : World) :
  exists p' w' log, play' stops p w = Some (p', w', log, Ok tt).
Proof.
  unfold play. destruct (isPlaying p || (length (actions p) =? 0)%nat).
  - eexists _, _, _. reflexivity.
  - destruct (play_loop_total stops (length (actions p))
                {| actions := actions p; isPlaying := true; currentIndex := 0 |} w [])
      as ([[[p1 w1] log1] settled] & ->); [cbn; lia|].
    destruct settled; eexists _, _, _; reflexivity.
Qed.

(** C6.  From the idle state, with a recording of N > 0 actions, no call of
    [stop()] and no dispatch failure, [play()] dispatches exactly the N
    actions in their order, each in the document the previous one left, logs
    no error, and ends idle with the cursor at N.  When the engine is already
    playing or the recording is empty, [play()] does nothing. *)
Theorem play_dispatches_every_action_in_order
    (p : BrickPlayer) (stops : nat -> bool) (w : World) :
  (isPlaying p = false -> actions p <> [] ->
   (forall i, stops i = false) ->
   forall w', run (actions p) w = Ok w' ->
   exists log,
     play' stops p w
     = Some ({| actions := actions p; isPlaying := false;
                currentIndex := length (actions p) |}, w', log, Ok tt)
     /\ dispatched log = actions p
     /\ length (dispatched log) = length (actions p)
     /\ forall m e, ~ In (ConsoleError m e) log)
  /\ (isPlaying p = true \/ actions p = [] -> play' stops p w = Some (p, w, [], Ok tt)).
Proof.
  split.
  - intros Hidle Hne Hstops w' Hrun.
    destruct (play_loop_success (actions p) stops Hstops (actions p) 0
                (length (actions p)) w w' [] eq_refl (Nat.le_0_l _) (Nat.le_refl _) Hrun)
      as (log & Hloop & Hdis & Hquiet).
    exists log. unfold play. rewrite Hidle. cbn [orb].
    destruct (length (actions p) =? 0)%nat eqn:E.
    { apply Nat.eqb_eq in E. destruct (actions p); [congruence|discriminate]. }
    rewrite Hloop. cbn [actions currentIndex app].
    split; [reflexivity|]. split; [exact Hdis|]. split; [now rewrite Hdis|exact Hquiet].
  - intros [Hplaying|Hempty]; unfold play.
    + now rewrite Hplaying.
    + rewrite Hempty. cbn [length Nat.eqb]. now rewrite Bool.orb_true_r.
Qed.

(** C3 (as amended).  When the dispatch of the action at index [i] is the
    first to fail, [play()] dispatches the actions up to and including index
    [i] and none after it, logs the error, ends idle with the cursor at [i],
    and its promise is fulfilled: the error does not reach the caller. *)
Theorem dispatch_failure_aborts_and_is_logged
    (p : BrickPlayer) (stops : nat -> bool) (w wi : World)
    (i : nat) (a : BrickAction) (e : string) :
  isPlaying p = false ->
  (forall j, (j < i)%nat -> stops j = false) ->
  actions p !! i = Some a ->
  run (take i (actions p)) w = Ok wi ->
  snd (exec a wi) = Throw e ->
  exists log,
    play' stops p w
    = Some ({| actions := actions p; isPlaying := false; currentIndex := i |},
            wi, log ++ [ConsoleError "Playback error:" e], Ok tt)
    /\ dispatched (log ++ [ConsoleError "Playback error:" e]) = take (S i) (actions p).
Proof.
  intros Hidle Hstops Hlook Hrun Hthrow.
  destruct (play_loop_failure (actions p) stops a e i (actions p) 0
              (length (actions p)) w wi [] eq_refl (Nat.le_refl _) Hstops Hlook Hrun Hthrow)
    as (log & Hloop & Hdis).
  exists log. unfold play. rewrite Hidle. cbn [orb].
  destruct (length (actions p) =? 0)%nat eqn:E.
  { apply Nat.eqb_eq in E. destruct (actions p); [discriminate Hlook|discriminate]. }
  rewrite Hloop. cbn [actions currentIndex app Nat.add].
  split; [reflexivity|].
  rewrite dispatched_app, Hdis. cbn. apply app_nil_r.
Qed.

End ReplayFacts.

Lemma play_dispatches_every_action_in_order_witness :
  Player.isPlaying (Samples.idle_player
                      [Samples.click_at Samples.blank_context 0;
                       Samples.click_at Samples.blank_context 500]) = false
  /\ Player.dispatch_all unit Samples.strict_document Samples.strict_document
       [Samples.click_at Samples.blank_context 0;
        Samples.click_at Samples.blank_context 500] tt = Player.Ok tt
  /\ exists log,
       Player.play unit Samples.strict_document Samples.strict_document (fun _ => false)
         (Samples.idle_player
            [Samples.click_at Samples.blank_context 0;
             Samples.click_at Samples.blank_context 500]) tt
       = Some ({| Player.actions :=
                    [Samples.click_at Samples.blank_context 0;
                     Samples.click_at Samples.blank_context 500];
                  Player.isPlaying := false; Player.currentIndex := 2 |},
               tt, log, Player.Ok tt)
       /\ Player.dispatched log
          = [Samples.click_at Samples.blank_context 0;
             Samples.click_at Samples.blank_context 500].
Proof.
  split; [reflexivity|]. split; [reflexivity|].
  destruct (proj1 (play_dispatches_every_action_in_order
                     Samples.strict_document Samples.strict_document
                     (Samples.idle_player
                        [Samples.click_at Samples.blank_context 0;
                         Samples.click_at Samples.blank_context 500])
                     (fun _ => false) tt)
              eq_refl ltac:(discriminate) (fun _ => eq_refl) tt eq_refl)
    as (log & Hplay & Hdis & _).
  exists log. split; [exact Hplay|exact Hdis].
Defined.

Lemma dispatch_failure_aborts_and_is_logged_witness :
  Player.actions (Samples.idle_player
                    [Samples.click_at Samples.blank_context 0;
                     Samples.click_nowhere 100;
                     Samples.click_at Samples.blank_context 500]) !! 1%nat
  = Some (Samples.click_nowhere 100)
  /\ exists log,
       Player.play unit Samples.strict_document Samples.strict_document (fun _ => false)
         (Samples.idle_player
            [Samples.click_at Samples.blank_context 0;
             Samples.click_nowhere 100;
             Samples.click_at Samples.blank_context 500]) tt
       = Some ({| Player.actions :=
                    [Samples.click_at Samples.blank_context 0;
                     Samples.click_nowhere 100;
                     Samples.click_at Samples.blank_context 500];
                  Player.isPlaying := false; Player.currentIndex := 1 |},
               tt,
               log ++ [Player.ConsoleError "Playback error:"
                         "SyntaxError: The provided selector is empty"],
               Player.Ok tt)
       /\ Player.dispatched
            (log ++ [Player.ConsoleError "Playback error:"
                       "SyntaxError: The provided selector is empty"])
          = [Samples.click_at Samples.blank_context 0; Samples.click_nowhere 100].
Proof.
  split; [reflexivity|].
  apply (dispatch_failure_aborts_and_is_logged
           Samples.strict_document Samples.strict_document
           (Samples.idle_player
              [Samples.click_at Samples.blank_context 0;
               Samples.click_nowhere 100;
               Samples.click_at Samples.blank_context 500])
           (fun _ => false) tt tt 1 (Samples.click_nowhere 100)
           "SyntaxError: The provided selector is empty");
    reflexivity.
Defined.

(** C3 (as stated) fails: the second click of this recording cannot be
    dispatched ([querySelector] throws on its empty selector), and the promise
    of [play()] is fulfilled, not rejected; the error is only logged.  A
    recording with a keyboard action behaves the same in every document. *)
Lemma failed_dispatch_is_not_surfaced :
  snd (Player.executeAction unit Samples.strict_document Samples.strict_document
         (Samples.click_nowhere 100) tt)
  = Player.Throw "SyntaxError: The provided selector is empty"
  /\ (exists p log,
        Player.play unit Samples.strict_document Samples.strict_document (fun _ => false)
          (Samples.idle_player
             [Samples.click_at Samples.blank_context 0;
              Samples.click_nowhere 100;
              Samples.click_at Samples.blank_context 500]) tt
        = Some (p, tt, log, Player.Ok tt)
        /\ In (Player.ConsoleError "Playback error:"
                 "SyntaxError: The provided selector is empty") log)
  /\ (exists p log,
        Player.play unit Samples.strict_document Samples.strict_document (fun _ => false)
          (Samples.idle_player [Samples.key_at Samples.blank_context "keydown" "a" 0]) tt
        = Some (p, tt, log, Player.Ok tt)
        /\ In (Player.ConsoleError "Playback error:"
                 "TypeError: this.executeKeyboardAction is not a function") log).
Proof.
  split; [reflexivity|]. split.
  - eexists _, _. split; [vm_compute; reflexivity|].
    repeat (first [left; reflexivity | right]).
  - eexists _, _. split; [vm_compute; reflexivity|].
    repeat (first [left; reflexivity | right]).
Qed.

(** ** The variation generator *)

Section VariationFacts.

Import TaskGen.

Variable random : nat -> Q.

Lemma same_contexts_refl (s : Store) : same_contexts s s.
Proof. intros l. reflexivity. Qed.

Lemma same_contexts_trans (s1 s2 s3 : Store) :
  same_contexts s1 s2 -> same_contexts s2 s3 -> same_contexts s1 s3.
Proof. intros H12 H23 l. now rewrite H23, H12. Qed.

Lemma varyAction_shape (a : ActionRef) (st : State) :
  same_shape a (fst (varyAction random a st))
  /\ same_contexts (store st) (store (snd (varyAction random a st))).
Proof.
  unfold varyAction, same_shape.
  destruct a as [id t e c]. cbn [a_id a_type a_event a_context].
  destruct t.
  - destruct e as [m|k|e]; cbn; auto 10 using same_contexts_refl.
  - destruct e as [m|k|e]; cbn; auto 10 using same_contexts_refl.
  - destruct (systemState (store st c)) as [old|] eqn:Es; cbn;
      [|auto 10 using same_contexts_refl].
    repeat split; try reflexivity.
    intros l. unfold store_set. destruct (l =? c)%nat eqn:El.
    + apply Nat.eqb_eq in El. subst l. unfold erase_context, set_systemState. cbn.
      rewrite Es. reflexivity.
    + reflexivity.
Qed.

Lemma varyActions_shape (l : list ActionRef) (st : State) :
  Forall2 same_shape l (fst (varyActions random l st))
  /\ same_contexts (store st) (store (snd (varyActions random l st))).
Proof.
  revert st. induction l as [|a l IH]; intros st.
  - split; [constructor|apply same_contexts_refl].
  - cbn [varyActions].
    pose proof (varyAction_shape a st) as [Ha Hs].
    destruct (varyAction random a st) as [a' st1]. cbn [fst snd] in Ha, Hs.
    pose proof (IH st1) as [Hl Hs'].
    destruct (varyActions random l st1) as [l' st2]. cbn [fst snd] in *.
    split; [constructor; assumption|]. eapply same_contexts_trans; eauto.
Qed.

Lemma varyScreens_shape (l : list Screen) (st : State) :
  erase_scale_screens (fst (varyScreens random l st)) = erase_scale_screens l
  /\ store (snd (varyScreens random l st)) = store st.
Proof.
  revert st. induction l as [|screen l IH]; intros st; [split; reflexivity|].
  cbn [varyScreens]. unfold randomVariation.
  pose proof (IH {| store := store st; draws := S (draws st) |}) as [H1 H2].
  destruct (varyScreens random l {| store := store st; draws := S (draws st) |})
    as [l' st2].
  cbn [fst snd store] in *. split; [|exact H2].
  unfold erase_scale_screens in *. cbn [map]. now rewrite H1.
Qed.

Lemma same_shape_snapshot (s s' : Store) (l l' : list ActionRef) :
  Forall2 same_shape l l' -> same_contexts s s' ->
  length l' = length l
  /\ map a_id (map (deref s') l') = map a_id (map (deref s) l)
  /\ map (fun a => (a_type a, subtype (a_event a))) (map (deref s') l')
     = map (fun a => (a_type a, subtype (a_event a))) (map (deref s) l)
  /\ map erase_numeric (map (deref s') l') = map erase_numeric (map (deref s) l).
Proof.
  intros Hl Hs. induction Hl as [|a a' l l' (Hid & Hty & Hsub & Hev & Hctx) _ IH].
  - repeat split; reflexivity.
  - destruct IH as (IH1 & IH2 & IH3 & IH4).
    assert (Hhead : erase_numeric (deref s' a') = erase_numeric (deref s a)).
    { unfold erase_numeric, deref. cbn [a_id a_type a_event a_context].
      now rewrite Hev, Hid, Hty, Hctx, Hs. }
    cbn [map length]. rewrite IH1, IH2, IH3, IH4, Hhead.
    cbn [deref a_id a_type a_event]. rewrite Hid, Hty, Hsub.
    repeat split; reflexivity.
Qed.

(** C7.  Whatever [Math.random()] returns, the variation has as many
    actions as the base recording, with the same identifiers in the same
    order and the same sequence of types and subtypes; its actions and its
    environment are those of the base once the perturbed numbers (mouse
    coordinates, keyboard timestamps, CPU and memory metrics, screen scale
    factors) are disregarded. *)
Theorem variation_changes_only_numeric_fields
    (uuid now : string) (task : RecordingRef) (st : State) :
  let result := createVariation random uuid now task st in
  let before := snapshot (store st) task in
  let after := snapshot (store (snd result)) (fst result) in
  length (r_actions after) = length (r_actions before)
  /\ map a_id (r_actions after) = map a_id (r_actions before)
  /\ map (fun a => (a_type a, subtype (a_event a))) (r_actions after)
     = map (fun a => (a_type a, subtype (a_event a))) (r_actions before)
  /\ map erase_numeric (r_actions after) = map erase_numeric (r_actions before)
  /\ erase_scale (r_environment after) = erase_scale (r_environment before).
Proof.
  intros result before after. subst result before after.
  unfold createVariation, varyEnvironment.
  pose proof (varyActions_shape (r_actions task) st) as [Hl Hs].
  destruct (varyActions random (r_actions task) st) as [l' st1]. cbn [fst snd] in Hl, Hs.
  pose proof (varyScreens_shape (screens (env_display (r_environment task))) st1)
    as [Hscr Hst].
  destruct (varyScreens random (screens (env_display (r_environment task))) st1)
    as [screens' st2].
  cbn [fst snd] in *. cbn [snapshot r_actions r_environment].
  rewrite Hst.
  destruct (same_shape_snapshot _ _ _ _ Hl Hs) as (H1 & H2 & H3 & H4).
  rewrite !length_map. repeat split; try assumption.
  unfold erase_scale. cbn [env_os env_display env_locale env_timezone screens].
  now rewrite Hscr.
Qed.

(** A variation of a recording none of whose system actions has
    system-state metrics leaves every context object as it was. *)
Lemma variation_without_metrics_keeps_store (l : list ActionRef) (st : State) :
  Forall (fun a => a_type a = system -> systemState (store st (a_context a)) = None) l ->
  store (snd (varyActions random l st)) = store st.
Proof.
  revert st. induction l as [|a l IH]; intros st Hall; [reflexivity|].
  inversion Hall as [|? ? Ha Hl]; subst. cbn [varyActions].
  assert (Hstep : store (snd (varyAction random a st)) = store st).
  { unfold varyAction. destruct (a_type a).
    - destruct (a_event a); reflexivity.
    - reflexivity.
    - rewrite Ha by reflexivity. reflexivity. }
  destruct (varyAction random a st) as [a' st1]. cbn [snd] in Hstep.
  specialize (IH st1). rewrite Hstep in IH. specialize (IH Hl).
  destruct (varyActions random l st1) as [l' st2]. cbn [snd] in *.
  now rewrite IH.
Qed.

End VariationFacts.

(** C5 fails on the code.  The base recording holds one system action whose
    context, the object at 7, reports 10 % CPU and 1000 bytes; with
    [Math.random()] returning 0.75, [createVariation] leaves 12.5 % and 26000
    bytes in that same object, so the base recording read after the call
    differs from the base recording read before it. *)
Theorem createVariation_writes_into_base_context :
  let st := {| TaskGen.store := Samples.busy_store; TaskGen.draws := 0 |} in
  let st' := snd (TaskGen.createVariation Samples.three_quarters "new-id"
                    "2024-01-02T00:00:00.000Z" Samples.probe_recording st) in
  option_map cpuUsage (systemState (TaskGen.store st 7%nat)) = Some 10%Q
  /\ (exists varied,
        systemState (TaskGen.store st' 7%nat) = Some varied
        /\ cpuUsage varied == 25 # 2 /\ memoryUsage varied == 26000)
  /\ TaskGen.snapshot (TaskGen.store st') Samples.probe_recording
     <> TaskGen.snapshot (TaskGen.store st) Samples.probe_recording.
Proof.
  cbv zeta. split; [reflexivity|]. split.
  - eexists. split; [vm_compute; reflexivity|]. split; reflexivity.
  - vm_compute. intros H. discriminate H.
Qed.

(* ===================================================================== *)
(** * Further properties of the code *)
(* ===================================================================== *)

(** ** Scores and thresholds of the pattern extractor *)

Section ScoreFacts.

Import AbsoluteZero.

Lemma inject_nat_pos (n : nat) : (0 < n)%nat -> (0 < inject_Z (Z.of_nat n))%Q.
Proof. intros H. change 0%Q with (inject_Z 0). rewrite <- Zlt_Qlt. lia. Qed.

Lemma inject_nat_nonneg (n : nat) : (0 <= inject_Z (Z.of_nat n))%Q.
Proof. change 0%Q with (inject_Z 0). rewrite <- Zle_Qle. lia. Qed.

Lemma sign_pos (q : Q) : (0 < q)%Q -> JS.sign q = Gt.
Proof. intros H. unfold JS.sign. now apply Qgt_alt. Qed.

Lemma sign_zero (q : Q) : q == 0 -> JS.sign q = Eq.
Proof. intros H. unfold JS.sign. now apply Qeq_alt. Qed.

Lemma efficiency_range (actions : list BrickAction) :
  exists e : Q,
    calculateExecutionEfficiency actions = JS.Fin e
    /\ (0 <= e <= 1)%Q
    /\ (e == 0 <-> actions = []).
Proof.
  destruct actions as [|a l].
  - exists 0%Q. split; [reflexivity|]. split; [lra|]. split; reflexivity.
  - destruct (total_time_nonneg a l) as (T & ET & HT).
    assert (Hn : (0 < inject_Z (Z.of_nat (length (a :: l))) * 50)%Q).
    { apply Qmult_lt_0_compat; [apply inject_nat_pos; simpl; lia|reflexivity]. }
    unfold calculateExecutionEfficiency. rewrite ET.
    unfold calculateOptimalTime, JS.of_nat, JS.mul, JS.div.
    destruct (Qcompare_spec T 0) as [E|E|E].
    + rewrite (sign_zero T E), (sign_pos _ Hn). exists 1%Q.
      split; [reflexivity|]. split; [lra|]. split; [intros H; lra|discriminate].
    + lra.
    + rewrite (sign_pos T E).
      set (q := (inject_Z (Z.of_nat (length (a :: l))) * 50 / T)%Q).
      assert (Hq : (0 < q)%Q).
      { unfold q. apply Qlt_shift_div_l; [exact E|]. lra. }
      unfold JS.Math_min. destruct (JS.lt (JS.Fin q) (JS.Fin 1)) eqn:Elt.
      * apply lt_Fin_true in Elt. exists q. split; [reflexivity|].
        split; [lra|]. split; [intros H; lra|discriminate].
      * exists 1%Q. split; [reflexivity|]. split; [lra|].
        split; [intros H; lra|discriminate].
Qed.

(** The efficiency score of a recording is a finite number between 0 and 1,
    and it is 0 only for the empty recording: neither the division by a
    total time of zero nor any timestamp can make it [NaN], infinite or
    negative. *)
Theorem efficiency_is_a_share (actions : list BrickAction) :
  exists e : Q,
    calculateExecutionEfficiency actions = JS.Fin e
    /\ (0 <= e <= 1)%Q
    /\ (e == 0 <-> actions = []).
Proof. exact (efficiency_range actions). Qed.

Lemma countRedundantActions_lt (a : BrickAction) (l : list BrickAction) :
  (countRedundantActions (a :: l) <= length l)%nat.
Proof.
  revert a. induction l as [|b l IH]; intros a; [simpl; lia|].
  change (countRedundantActions (a :: b :: l))
    with ((if areActionsSimilar a b then 1 else 0) + countRedundantActions (b :: l))%nat.
  specialize (IH b). destruct (areActionsSimilar a b); simpl length; lia.
Qed.

Lemma cleanliness_value (a : BrickAction) (l : list BrickAction) :
  let n := inject_Z (Z.of_nat (length (a :: l))) in
  let r := inject_Z (Z.of_nat (countRedundantActions (a :: l))) in
  (countRedundantActions (a :: l) < length (a :: l))%nat
  /\ exists c : Q,
       calculateCleanlinessScore (a :: l) = JS.Fin c
       /\ c == 1 - r / n /\ (1 / n <= c <= 1)%Q.
Proof.
  intros n r. pose proof (countRedundantActions_lt a l) as Hr.
  split; [simpl length; lia|].
  assert (Hn : (0 < n)%Q) by (apply inject_nat_pos; simpl; lia).
  assert (Hr0 : (0 <= r)%Q) by apply inject_nat_nonneg.
  assert (Hrn : (r + 1 <= n)%Q).
  { unfold r, n. change 1%Q with (inject_Z 1). rewrite <- inject_Z_plus, <- Zle_Qle.
    simpl length. lia. }
  assert (Hdiv : (r / n * n == r)%Q) by (field; lra).
  assert (Hinv : (1 / n * n == 1)%Q) by (field; lra).
  assert (Hlow : (1 / n <= 1 - r / n)%Q).
  { apply (Qmult_le_r _ _ n Hn).
    assert (E1 : ((1 - r / n) * n == n - r)%Q) by (field; lra).
    rewrite Hinv, E1. lra. }
  assert (Hhigh : (0 <= r / n)%Q).
  { apply Qle_shift_div_l; [exact Hn|lra]. }
  assert (Hpos : (0 < 1 / n)%Q).
  { apply Qlt_shift_div_l; [exact Hn|lra]. }
  unfold calculateCleanlinessScore, JS.of_nat, JS.div. fold n r.
  rewrite (sign_pos n Hn). cbn [JS.sub JS.neg JS.add].
  unfold JS.Math_max. destruct (JS.lt (JS.Fin 0) (JS.Fin (1 + - (r / n)))) eqn:E.
  - exists (1 + - (r / n))%Q. split; [reflexivity|]. split; [ring|]. lra.
  - apply lt_Fin_false in E. lra.
Qed.


Lemma hasPositiveFeedback_exact (task : TaskRecording) :
  hasPositiveFeedback task = true <->
  r_actions task <> []
  /\ (forall a, In a (r_actions task) -> isErrorAction a = false)
  /\ (exists T : Q,
        getTotalExecutionTime (r_actions task) = JS.Fin T
        /\ ((7 # 10) * T < inject_Z (Z.of_nat (length (r_actions task))) * 50)%Q)
  /\ (5 * countRedundantActions (r_actions task) < length (r_actions task))%nat.
Proof.
  unfold hasPositiveFeedback, hasCompletedSuccessfully, hasOptimalTiming,
    hasCleanExecution.
  destruct (r_actions task) as [|a l] eqn:Eacts.
  - split; [discriminate|]. intros [H _]. congruence.
  - destruct (total_time_nonneg a l) as (T & ET & HT).
    destruct (cleanliness_value a l) as (Hlt & c & Ec & Hc & _).
    cbv zeta in Hc.
    set (n := length (a :: l)) in *. set (r := countRedundantActions (a :: l)) in *.
    assert (Hn : (0 < inject_Z (Z.of_nat n))%Q) by (apply inject_nat_pos; unfold n; simpl; lia).
    assert (Heff : JS.gt (calculateExecutionEfficiency (a :: l)) (JS.Fin (7 # 10)) = true
                   <-> ((7 # 10) * T < inject_Z (Z.of_nat n) * 50)%Q).
    { unfold calculateExecutionEfficiency. rewrite ET, gt_min_one by reflexivity.
      apply efficiency_quotient_gt; [unfold n; simpl; lia|exact HT]. }
    assert (Hclean : JS.gt (calculateCleanlinessScore (a :: l)) (JS.Fin (8 # 10)) = true
                     <-> (5 * r < n)%nat).
    { rewrite Ec. unfold JS.gt. rewrite lt_Fin_true, Hc.
      assert (Hdiv : (inject_Z (Z.of_nat r) / inject_Z (Z.of_nat n) * inject_Z (Z.of_nat n)
                      == inject_Z (Z.of_nat r))%Q) by (field; lra).
      assert (Hz : (5 * r < n)%nat
                   <-> (5 * inject_Z (Z.of_nat r) < inject_Z (Z.of_nat n))%Q).
      { change 5%Q with (inject_Z 5). rewrite <- inject_Z_mult, <- Zlt_Qlt. lia. }
      rewrite Hz. split; intros H.
      - assert (H1 : (inject_Z (Z.of_nat r) / inject_Z (Z.of_nat n) < 2 # 10)%Q) by lra.
        apply (Qmult_lt_r _ _ _ Hn) in H1. rewrite Hdiv in H1. lra.
      - assert (H1 : (inject_Z (Z.of_nat r) / inject_Z (Z.of_nat n) < 2 # 10)%Q).
        { apply Qlt_shift_div_r; [exact Hn|lra]. }
        lra. }
    assert (Herr : negb (existsb isErrorAction (a :: l)) = true
                   <-> forall x, In x (a :: l) -> isErrorAction x = false).
    { rewrite Bool.negb_true_iff. split.
      - intros H x Hx. destruct (isErrorAction x) eqn:Ex; [|reflexivity].
        assert (existsb isErrorAction (a :: l) = true)
          by (apply existsb_exists; eauto).
        congruence.
      - intros H. destruct (existsb isErrorAction (a :: l)) eqn:Ex; [|reflexivity].
        apply existsb_exists in Ex as (x & Hx & Hx'). rewrite (H x Hx) in Hx'.
        discriminate. }
    rewrite !Bool.andb_true_iff, Herr, Heff, Hclean. split.
    + intros [[[_ H1] H2] H3]. split; [discriminate|]. split; [exact H1|].
      split; [exists T; auto|exact H3].
    + intros (_ & H1 & (T' & ET' & H2) & H3).
      assert (T' = T) by congruence. subst T'. repeat split; auto.
Qed.

(** Qualification in exact arithmetic.  A recording becomes a pattern
    exactly when it has an action, none of its actions is an error action,
    seven tenths of its total time is less than 50 ms per action, and fewer
    than one action in five repeats its predecessor. *)
Theorem qualification_in_exact_arithmetic (task : TaskRecording) :
  hasPositiveFeedback task = true <->
  r_actions task <> []
  /\ (forall a, In a (r_actions task) -> isErrorAction a = false)
  /\ (exists T : Q,
        getTotalExecutionTime (r_actions task) = JS.Fin T
        /\ ((7 # 10) * T < inject_Z (Z.of_nat (length (r_actions task))) * 50)%Q)
  /\ (5 * countRedundantActions (r_actions task) < length (r_actions task))%nat.
Proof. exact (hasPositiveFeedback_exact task). Qed.

(** What the metrics of a distilled pattern can be.  For a recording that
    qualifies, the pattern has one token per action, completion rate 1, error
    rate 0, an execution time that is finite, not negative and below
    [500 / 7] ms per action, and a user satisfaction strictly between 0.75 and
    1 (1 included). *)
Theorem metrics_of_a_distilled_pattern (uuid : string) (task : TaskRecording) :
  hasPositiveFeedback task = true ->
  let pattern := extractSuccessPattern uuid task in
  let n := inject_Z (Z.of_nat (length (r_actions task))) in
  length (actionSequence pattern) = length (r_actions task)
  /\ completionRate (successMetrics pattern) = JS.Fin 1
  /\ errorRate (successMetrics pattern) = JS.Fin 0
  /\ (exists T : Q,
        executionTime (successMetrics pattern) = JS.Fin T
        /\ (0 <= T)%Q /\ ((7 # 10) * T < n * 50)%Q)
  /\ (exists s : Q,
        userSatisfaction (successMetrics pattern) = JS.Fin s
        /\ (3 # 4 < s <= 1)%Q).
Proof.
  intros Hq pattern n. subst pattern n.
  pose proof Hq as Hq'. apply hasPositiveFeedback_exact in Hq'.
  destruct Hq' as (Hne & _ & (T & ET & HT) & _).
  unfold hasPositiveFeedback, hasOptimalTiming, hasCleanExecution in Hq.
  apply andb_prop in Hq as [Hq Hclean]. apply andb_prop in Hq as [_ Heff].
  cbn [extractSuccessPattern actionSequence successMetrics completionRate errorRate
       executionTime userSatisfaction].
  split; [unfold extractActionSequence; apply length_map|].
  split; [reflexivity|]. split; [reflexivity|]. split.
  - exists T. split; [exact ET|]. split; [|exact HT].
    destruct (r_actions task) as [|a l]; [congruence|].
    destruct (total_time_nonneg a l) as (T' & ET' & HT'). congruence.
  - unfold inferUserSatisfaction.
    destruct (efficiency_range (r_actions task)) as (e & Ee & He & _).
    destruct (r_actions task) as [|a l] eqn:Eacts; [congruence|].
    destruct (cleanliness_value a l) as (_ & c & Ec & _ & Hc).
    cbv zeta in Hc. rewrite Ee in Heff |- *. rewrite Ec in Hclean |- *.
    apply lt_Fin_true in Heff. apply lt_Fin_true in Hclean.
    cbn [JS.add]. unfold JS.div. rewrite (sign_pos 2) by reflexivity.
    exists ((e + c) / 2)%Q. split; [reflexivity|].
    assert (E2 : ((e + c) / 2 == (e + c) * (1 # 2))%Q) by (field; discriminate).
    rewrite E2. lra.
Qed.

Lemma metrics_of_a_distilled_pattern_witness :
  hasPositiveFeedback Samples.seven_clicks_in_499ms = true
  /\ length (actionSequence
               (extractSuccessPattern "p" Samples.seven_clicks_in_499ms)) = 7%nat
  /\ exists s : Q,
       userSatisfaction
         (successMetrics (extractSuccessPattern "p" Samples.seven_clicks_in_499ms))
       = JS.Fin s
       /\ (3 # 4 < s <= 1)%Q.
Proof.
  assert (H : hasPositiveFeedback Samples.seven_clicks_in_499ms = true)
    by (vm_compute; reflexivity).
  split; [exact H|].
  pose proof (metrics_of_a_distilled_pattern "p" Samples.seven_clicks_in_499ms H) as M.
  cbv zeta in M. destruct M as (M1 & _ & _ & _ & M2).
  split; [exact M1|exact M2].
Defined.



End ScoreFacts.

(** ** The pattern store after the cold-start scan *)

Section StoreFacts.

Import AbsoluteZero.

Lemma Map_set_fresh (key : string) (value : TaskPattern) (m : PatternStore) :
  ~ In key (map fst m) -> Map_set key value m = m ++ [(key, value)].
Proof.
  induction m as [|[k v] m IH]; intros Hfresh; [reflexivity|].
  cbn [Map_set]. destruct (String.eqb k key) eqn:E.
  - apply String.eqb_eq in E. exfalso. apply Hfresh. left. exact E.
  - cbn [app]. f_equal. apply IH. intros H. apply Hfresh. right. exact H.
Qed.

Lemma initialize_loop_fresh (uuids : nat -> string) :
  (forall i j, uuids i = uuids j -> i = j) ->
  forall tasks calls store,
    (forall key, In key (map fst store) -> exists j, (j < calls)%nat /\ key = uuids j) ->
    initialize_loop uuids calls tasks store
    = store ++ imap (fun i task => (uuids (calls + i)%nat,
                                    extractSuccessPattern (uuids (calls + i)%nat) task))
                 (List.filter hasPositiveFeedback tasks).
Proof.
  intros Hinj tasks. induction tasks as [|task tasks IH]; intros calls store Hkeys.
  - cbn. now rewrite app_nil_r.
  - cbn [initialize_loop List.filter]. destruct (hasPositiveFeedback task).
    + cbn [extractSuccessPattern p_id]. rewrite Map_set_fresh.
      * rewrite IH.
        -- rewrite <- app_assoc. f_equal. cbn [app imap]. rewrite Nat.add_0_r.
           f_equal. apply imap_ext. intros i x _. cbn.
           replace (calls + S i)%nat with (S (calls + i))%nat by lia. reflexivity.
        -- intros key Hin. rewrite map_app in Hin. apply in_app_or in Hin as [Hin|Hin].
           ++ destruct (Hkeys key Hin) as (j & Hj & ->). exists j. split; [lia|reflexivity].
           ++ destruct Hin as [<-|[]]. exists calls. split; [lia|reflexivity].
      * intros Hin. destruct (Hkeys _ Hin) as (j & Hj & Heq).
        apply Hinj in Heq. lia.
    + apply IH. exact Hkeys.
Qed.

(** After the cold-start scan of an empty store, when the generated
    identifiers are pairwise distinct, the store holds one pattern for each
    recording that qualifies and nothing else, in the order in which the
    database returned the recordings, each under the identifier generated
    for it. *)
Theorem cold_start_stores_one_pattern_per_qualifying_recording
    (uuids : nat -> string) (allTasks : list TaskRecording) :
  (forall i j, uuids i = uuids j -> i = j) ->
  let store := initializeFromSuccessfulTasks uuids (Some allTasks) [] in
  Map_values store
  = imap (fun i task => extractSuccessPattern (uuids i) task)
      (List.filter hasPositiveFeedback allTasks)
  /\ map fst store = map p_id (Map_values store)
  /\ length store = length (List.filter hasPositiveFeedback allTasks).
Proof.
  intros Hinj store. subst store. unfold initializeFromSuccessfulTasks.
  rewrite (initialize_loop_fresh uuids Hinj allTasks 0 []) by (intros ? []).
  cbn [app Nat.add]. unfold Map_values.
  set (qualifying := List.filter hasPositiveFeedback allTasks).
  assert (H1 : map snd (imap (fun i task => (uuids i, extractSuccessPattern (uuids i) task))
                          qualifying)
               = imap (fun i task => extractSuccessPattern (uuids i) task) qualifying).
  { change (map snd ?l) with (snd <$> l). rewrite fmap_imap. reflexivity. }
  split; [exact H1|]. split.
  - rewrite H1. change (map fst ?l) with (fst <$> l). change (map p_id ?l) with (p_id <$> l).
    rewrite !fmap_imap. reflexivity.
  - apply length_imap.
Qed.

Lemma cold_start_stores_one_pattern_per_qualifying_recording_witness :
  (forall i j : nat, @pretty nat _ i = pretty j -> i = j)
  /\ length (initializeFromSuccessfulTasks pretty
               (Some [Samples.seven_clicks_in_499ms; Samples.seven_clicks_in_500ms;
                      Samples.three_clicks_at_once]) []) = 2%nat.
Proof.
  assert (Hinj : forall i j : nat, @pretty nat _ i = pretty j -> i = j).
  { intros i j H. exact (pretty_nat_inj i j H). }
  split; [exact Hinj|].
  pose proof (cold_start_stores_one_pattern_per_qualifying_recording pretty
                [Samples.seven_clicks_in_499ms; Samples.seven_clicks_in_500ms;
                 Samples.three_clicks_at_once] Hinj) as H.
  cbv zeta in H. destruct H as (_ & _ & H). rewrite H. vm_compute. reflexivity.
Defined.

End StoreFacts.

(** ** The coalescing pass and the stub script *)

Section CoalescingFacts.

Import MCP.

Lemma append_nil_r (s : string) : s +:+ "" = s.
Proof.
  induction s as [|c s IH]; [reflexivity|].
  change (String c (s +:+ "") = String c s). now rewrite IH.
Qed.

Lemma append_assoc (s1 s2 s3 : string) : (s1 +:+ s2) +:+ s3 = s1 +:+ (s2 +:+ s3).
Proof.
  induction s1 as [|c s1 IH]; [reflexivity|].
  change (String c ((s1 +:+ s2) +:+ s3) = String c (s1 +:+ (s2 +:+ s3))).
  now rewrite IH.
Qed.

Lemma is_type_type_instruction (text context : string) :
  is_type (type_instruction text context) = true.
Proof. reflexivity. Qed.

Lemma flush_typed_text (text context : string) : typed_text (flush text context) = text.
Proof.
  unfold flush. destruct text as [|c text]; [reflexivity|].
  cbn [String.eqb negb]. unfold typed_text.
  cbn [fold_right is_type type_instruction i_type i_value or_else].
  apply append_nil_r.
Qed.

Lemma typed_text_app (l1 l2 : list MCPInstruction) :
  typed_text (l1 ++ l2) = typed_text l1 +:+ typed_text l2.
Proof.
  induction l1 as [|i l1 IH]; [reflexivity|]. cbn [app typed_text fold_right].
  fold (typed_text (l1 ++ l2)). fold (typed_text l1). rewrite IH.
  destruct (is_type i); [now rewrite append_assoc|reflexivity].
Qed.

Lemma optimize_loop_spec (instructions : list MCPInstruction) :
  forall text context,
    List.filter (fun i => negb (is_type i)) (optimize_loop text context instructions)
    = List.filter (fun i => negb (is_type i)) instructions
    /\ typed_text (optimize_loop text context instructions)
       = text +:+ typed_text instructions
    /\ (length (optimize_loop text context instructions)
        <= length (flush text context) + length instructions)%nat.
Proof.
  induction instructions as [|i rest IH]; intros text context.
  - cbn [optimize_loop]. fold (flush text context).
    split; [|split].
    + unfold flush. destruct (negb (String.eqb text "")); reflexivity.
    + rewrite flush_typed_text. cbn. now rewrite append_nil_r.
    + cbn. lia.
  - cbn [optimize_loop]. fold (flush text context).
    destruct (is_type i && option_eqb String.eqb (i_context i) (Some context)) eqn:E.
    + apply andb_prop in E as [Ei _].
      destruct (IH (text +:+ or_else (i_value i) "") context) as (H1 & H2 & H3).
      split; [|split].
      * rewrite H1. cbn [List.filter]. now rewrite Ei.
      * rewrite H2. cbn [typed_text fold_right]. fold (typed_text rest).
        rewrite Ei. apply append_assoc.
      * cbn [length]. etransitivity; [exact H3|]. unfold flush.
        destruct (negb (String.eqb (text +:+ or_else (i_value i) "") ""));
          destruct (negb (String.eqb text "")); cbn [length]; lia.
    + destruct (IH "" (or_else (i_context i) context)) as (H1 & H2 & H3).
      split; [|split].
      * rewrite List.filter_app. cbn [List.filter]. rewrite H1.
        assert (Hf : List.filter (fun i => negb (is_type i)) (flush text context) = []).
        { unfold flush. destruct (negb (String.eqb text "")); reflexivity. }
        rewrite Hf. reflexivity.
      * rewrite typed_text_app, flush_typed_text. f_equal.
        cbn [typed_text fold_right]. fold (typed_text rest).
        fold (typed_text (optimize_loop "" (or_else (i_context i) context) rest)).
        rewrite H2. reflexivity.
      * rewrite length_app. cbn [length]. cbn [flush String.eqb negb length] in H3. lia.
Qed.

(** The coalescing pass touches type instructions only: every instruction
    of another type is kept, in order, and the list never grows. *)
Theorem coalescing_keeps_the_other_instructions (instructions : list MCPInstruction) :
  List.filter (fun i => negb (is_type i)) (optimizeInstructions instructions)
  = List.filter (fun i => negb (is_type i)) instructions
  /\ (length (optimizeInstructions instructions) <= length instructions)%nat.
Proof.
  unfold optimizeInstructions.
  destruct (optimize_loop_spec instructions "" "") as (H1 & _ & H3).
  split; [exact H1|exact H3].
Qed.

(** The coalescing pass keeps the text: the values of the type instructions,
    read in order and joined, are the same before and after it. *)
Theorem coalescing_keeps_the_typed_text (instructions : list MCPInstruction) :
  typed_text (optimizeInstructions instructions) = typed_text instructions.
Proof.
  unfold optimizeInstructions.
  destruct (optimize_loop_spec instructions "" "") as (_ & H2 & _). exact H2.
Qed.

Lemma or_else_some (text : string) : or_else (Some text) "" = text.
Proof. destruct text; reflexivity. Qed.

Lemma translate_loop_same_window (title : option string) (actions : list BrickAction) :
  Forall (text_input_in title) actions ->
  translate_loop (or_else title "") actions
  = map (fun a => type_instruction (key_of a) (or_else title "")) actions.
Proof.
  induction 1 as [|a rest (Hty & Htitle & k & Hev & Hsub) _ IH]; [reflexivity|].
  cbn [translate_loop map].
  assert (Hfocus : focus_window (or_else title "") a = (or_else title "", [])).
  { unfold focus_window. rewrite Htitle. destruct title as [[|c t]|]; try reflexivity.
    cbn [or_else]. now rewrite String.eqb_refl. }
  rewrite Hfocus, IH. cbn [app]. f_equal.
  unfold action_instructions, key_of. rewrite Hty, Hev, Hsub. reflexivity.
Qed.

Lemma optimize_loop_same_window (context : string) (actions : list BrickAction) :
  forall text,
    optimize_loop text context
      (map (fun a => type_instruction (key_of a) context) actions)
    = flush (text +:+ joined_keys actions) context.
Proof.
  induction actions as [|a rest IH]; intros text.
  - cbn. now rewrite append_nil_r.
  - cbn [map optimize_loop]. rewrite is_type_type_instruction.
    cbn [type_instruction i_context i_value option_eqb andb].
    rewrite String.eqb_refl, or_else_some, IH.
    cbn [joined_keys fold_right]. now rewrite append_assoc.
Qed.

(** Text typed in one window becomes one instruction.  A run of text-input
    actions that share a window title is translated to a single type
    instruction whose value is their keys joined in order, after one focus
    instruction when the title is not empty; when all the keys are empty no
    type instruction is left at all. *)
Theorem text_typed_in_one_window_becomes_one_instruction
    (title : option string) (actions : list BrickAction) :
  Forall (text_input_in title) actions ->
  actions <> [] ->
  translateToInstructions actions
  = (if negb (String.eqb (or_else title "") "")
     then [focus_instruction (or_else title "")] else [])
    ++ flush (joined_keys actions) (or_else title "").
Proof.
  intros Hall Hne. unfold translateToInstructions, optimizeInstructions.
  destruct actions as [|a rest]; [congruence|].
  destruct (String.eqb (or_else title "") "") eqn:Ec; cbn [negb app].
  - apply String.eqb_eq in Ec.
    pose proof (translate_loop_same_window title (a :: rest) Hall) as H.
    rewrite Ec in H. rewrite H, Ec. apply (optimize_loop_same_window "" (a :: rest) "").
  - inversion Hall as [|? ? Ha Hrest]; subst.
    destruct Ha as (Hty & Htitle & k & Hev & Hsub).
    destruct title as [[|c t]|]; try discriminate. cbn [or_else] in *.
    cbn [translate_loop]. unfold focus_window at 1. rewrite Htitle.
    cbn [String.eqb negb].
    pose proof (translate_loop_same_window (Some (String c t)) rest Hrest) as H.
    cbn [or_else] in H. rewrite H.
    assert (Hkey : action_instructions (String c t) a
                   = [type_instruction (key_of a) (String c t)]).
    { unfold action_instructions, key_of. rewrite Hty, Hev, Hsub. reflexivity. }
    rewrite Hkey.
    transitivity
      (focus_instruction (String c t)
       :: optimize_loop "" (String c t)
            (map (fun a => type_instruction (key_of a) (String c t)) (a :: rest)));
      [reflexivity|].
    f_equal. exact (optimize_loop_same_window (String c t) (a :: rest) "").
Qed.

Lemma text_typed_in_one_window_becomes_one_instruction_witness :
  Forall (text_input_in (Some "Editor"))
    [mkAction "k1" keyboard
       (a_event (Samples.key_at Samples.busy_context "textInput" "h" 0))
       Samples.busy_context;
     mkAction "k2" keyboard
       (a_event (Samples.key_at Samples.busy_context "textInput" "i" 10))
       Samples.busy_context]
  /\ translateToInstructions
       [mkAction "k1" keyboard
          (a_event (Samples.key_at Samples.busy_context "textInput" "h" 0))
          Samples.busy_context;
        mkAction "k2" keyboard
          (a_event (Samples.key_at Samples.busy_context "textInput" "i" 10))
          Samples.busy_context]
     = [focus_instruction "Editor"; type_instruction "hi" "Editor"].
Proof.
  assert (H : Forall (text_input_in (Some "Editor"))
                [mkAction "k1" keyboard
                   (a_event (Samples.key_at Samples.busy_context "textInput" "h" 0))
                   Samples.busy_context;
                 mkAction "k2" keyboard
                   (a_event (Samples.key_at Samples.busy_context "textInput" "i" 10))
                   Samples.busy_context]).
  { repeat constructor; eexists; split; reflexivity. }
  split; [exact H|].
  rewrite (text_typed_in_one_window_becomes_one_instruction (Some "Editor") _ H)
    by discriminate.
  reflexivity.
Defined.

Lemma script_fold (instructions : list MCPInstruction) :
  forall code,
    fold_left (fun code instruction => code +:+ statement instruction) instructions code
    = fold_left (fun code instruction => code +:+ statement instruction)
        (List.filter has_statement instructions) code.
Proof.
  induction instructions as [|i rest IH]; intros code; [reflexivity|].
  cbn [fold_left List.filter]. destruct (has_statement i) eqn:E.
  - cbn [fold_left]. apply IH.
  - assert (Hs : statement i = "").
    { unfold has_statement in E. unfold statement.
      destruct (i_type i); try discriminate; try reflexivity.
      destruct (i_systemCall i); [discriminate|reflexivity]. }
    rewrite Hs, append_nil_r. apply IH.
Qed.

(** The stub script has no statement for a window change: it is the script
    of the instructions left when the focus instructions (and the navigate
    instructions) are removed, so the scripts of two recordings that differ
    only in their window titles' changes are the same. *)
Theorem script_ignores_window_changes (instructions : list MCPInstruction) :
  generateExecutableCode instructions
  = generateExecutableCode (List.filter has_statement instructions)
  /\ (forall title, has_statement (focus_instruction title) = false).
Proof.
  split; [|reflexivity]. unfold generateExecutableCode. now rewrite script_fold.
Qed.

End CoalescingFacts.

(** ** Cancellation, timing and progress of a replay *)

Section ReplayExtras.

Import Player.

Context {World : Type}.
Variable executeMouseAction : BrickAction -> World -> Result World.
Variable executeSystemAction : BrickAction -> World -> Result World.

Local Abbreviation exec := (executeAction World executeMouseAction executeSystemAction).
Local Abbreviation loop := (play_loop World executeMouseAction executeSystemAction).
Local Abbreviation run := (dispatch_all World executeMouseAction executeSystemAction).
Local Abbreviation play' := (play World executeMouseAction executeSystemAction).

Lemma executeAction_dispatched (a : BrickAction) (w : World) :
  dispatched (fst (exec a w)) = [a].
Proof.
  unfold executeAction.
  destruct (match a_type a with
            | mouse => executeMouseAction a w
            | keyboard => _
            | system => executeSystemAction a w
            end); reflexivity.
Qed.

Lemma take_S_drop (l : list BrickAction) (i k : nat) (a : BrickAction) :
  l !! i = Some a -> take (S k) (drop i l) = a :: take k (drop (S i) l).
Proof. intros H. now rewrite (drop_S _ _ _ H). Qed.

(** The loop dispatches a run of consecutive actions from the cursor on and
    moves the cursor past the ones that succeeded, whatever the handlers do
    and whenever [stop()] is called. *)
Lemma play_loop_prefix (stops : nat -> bool) :
  forall fuel p w log,
    (length (actions p) - currentIndex p <= fuel)%nat ->
    exists p' w' log' settled,
      loop stops fuel p w log = Some (p', w', log ++ log', settled)
      /\ actions p' = actions p
      /\ (currentIndex p <= currentIndex p')%nat
      /\ (currentIndex p <= length (actions p) ->
          currentIndex p' <= length (actions p))%nat
      /\ match settled with
         | Ok _ =>
             dispatched log'
             = take (currentIndex p' - currentIndex p) (drop (currentIndex p) (actions p))
         | Throw _ =>
             dispatched log'
             = take (S (currentIndex p' - currentIndex p))
                 (drop (currentIndex p) (actions p))
             /\ (currentIndex p' < length (actions p))%nat
         end.
Proof.
  induction fuel as [|fuel IH]; intros p w log Hfuel.
  - exists p, w, [], (Ok tt). cbn [play_loop].
    assert (E : (currentIndex p <? length (actions p))%nat = false)
      by (apply Nat.ltb_ge; lia).
    rewrite E, app_nil_r, Nat.sub_diag. cbn. repeat split; auto.
  - cbn [play_loop].
    destruct ((currentIndex p <? length (actions p))%nat && isPlaying p) eqn:E.
    2: { exists p, w, [], (Ok tt). rewrite app_nil_r, Nat.sub_diag. cbn.
         repeat split; auto. }
    apply andb_prop in E as [Hlt _]. apply Nat.ltb_lt in Hlt.
    destruct (actions p !! currentIndex p) as [a|] eqn:Hlook.
    2: { apply lookup_ge_None in Hlook. lia. }
    pose proof (executeAction_dispatched a w) as Hdis.
    destruct (exec a w) as [obs [w1|e]]; cbn [fst] in Hdis.
    + set (sleep := if (S (currentIndex p) <? length (actions p))%nat
                    then delay_before (actions p !! S (currentIndex p)) a else []).
      set (p1 := {| actions := actions p;
                    isPlaying := isPlaying p && negb (stops (currentIndex p));
                    currentIndex := S (currentIndex p) |}).
      destruct (IH p1 w1 (log ++ obs ++ sleep)) as (p' & w' & log' & settled & Hloop & Hact & Hle & Hbound & Hlog).
      { cbn [actions currentIndex p1]. lia. }
      cbn [actions currentIndex p1] in Hact, Hle, Hbound, Hlog.
      assert (Hsleep : dispatched sleep = []).
      { subst sleep. destruct (S (currentIndex p) <? length (actions p))%nat;
          [apply delay_before_quiet|reflexivity]. }
      exists p', w', (obs ++ sleep ++ log'), settled.
      split; [rewrite Hloop; f_equal; f_equal; now rewrite <- !app_assoc|].
      split; [exact Hact|]. split; [lia|]. split; [intros _; apply Hbound; lia|].
      rewrite !dispatched_app, Hdis, Hsleep. cbn [app].
      destruct settled as [u|e].
      * replace (currentIndex p' - currentIndex p)%nat
          with (S (currentIndex p' - S (currentIndex p)))%nat by lia.
        rewrite (take_S_drop _ _ _ _ Hlook). f_equal. exact Hlog.
      * destruct Hlog as [Hlog Hlt']. split; [|exact Hlt'].
        replace (currentIndex p' - currentIndex p)%nat
          with (S (currentIndex p' - S (currentIndex p)))%nat by lia.
        rewrite (take_S_drop _ _ _ _ Hlook). f_equal. exact Hlog.
    + exists p, w, obs, (Throw e). split; [reflexivity|]. split; [reflexivity|].
      split; [lia|]. split; [auto|]. rewrite Nat.sub_diag. split; [|exact Hlt].
      rewrite (take_S_drop _ _ _ _ Hlook). cbn [take]. exact Hdis.
Qed.

(** Whatever the handlers do and whenever [stop()] is called, a replay
    started from the idle state ends idle with the same recording, has
    dispatched the actions of an initial part of it, each once and in order,
    and leaves the cursor inside the recording, on the action that failed or
    just past the last action dispatched; so the progress it reports is a
    percentage between 0 and 100. *)
Theorem replay_dispatches_an_initial_part
    (stops : nat -> bool) (p : BrickPlayer) (w : World) :
  isPlaying p = false ->
  exists p' w' log,
    play' stops p w = Some (p', w', log, Ok tt)
    /\ actions p' = actions p
    /\ isPlaying p' = false
    /\ (actions p <> [] ->
        (currentIndex p' <= length (actions p))%nat
        /\ (dispatched log = take (currentIndex p') (actions p)
            \/ dispatched log = take (S (currentIndex p')) (actions p)
               /\ (currentIndex p' < length (actions p))%nat)
        /\ exists percent : Q,
             getProgress p' = JS.Fin percent /\ (0 <= percent <= 100)%Q).
Proof.
  intros Hidle. unfold play. rewrite Hidle. cbn [orb].
  destruct (length (actions p) =? 0)%nat eqn:Elen.
  { exists p, w, []. apply Nat.eqb_eq in Elen.
    assert (Hnil : actions p = []) by (destruct (actions p); [reflexivity|discriminate]).
    split; [reflexivity|]. split; [reflexivity|]. split; [exact Hidle|].
    intros Hne. congruence. }
  apply Nat.eqb_neq in Elen.
  destruct (play_loop_prefix stops (length (actions p))
              {| actions := actions p; isPlaying := true; currentIndex := 0 |} w [])
    as (p1 & w1 & log1 & settled & Hloop & Hact & _ & Hbound & Hlog).
  { cbn [actions currentIndex]. lia. }
  cbn [actions currentIndex] in Hloop, Hact, Hbound, Hlog. cbn [app] in Hloop.
  rewrite Nat.sub_0_r in Hlog. cbn [drop] in Hlog. specialize (Hbound (Nat.le_0_l _)).
  assert (Hprogress : forall q : BrickPlayer,
             actions q = actions p -> (currentIndex q <= length (actions p))%nat ->
             exists percent : Q, getProgress q = JS.Fin percent /\ (0 <= percent <= 100)%Q).
  { intros q Hq Hc. unfold getProgress. rewrite Hq.
    destruct (length (actions p) =? 0)%nat eqn:E0; [apply Nat.eqb_eq in E0; lia|].
    assert (Hn : (0 < inject_Z (Z.of_nat (length (actions p))))%Q)
      by (apply inject_nat_pos; lia).
    unfold JS.of_nat, JS.div. rewrite (sign_pos _ Hn). cbn [JS.mul].
    eexists. split; [reflexivity|].
    set (c := inject_Z (Z.of_nat (currentIndex q))).
    set (n := inject_Z (Z.of_nat (length (actions p)))) in *.
    assert (Hc0 : (0 <= c)%Q) by apply inject_nat_nonneg.
    assert (Hcn : (c <= n)%Q) by (unfold c, n; rewrite <- Zle_Qle; lia).
    assert (H0 : (0 <= c / n)%Q) by (apply Qle_shift_div_l; [exact Hn|lra]).
    assert (H1 : (c / n <= 1)%Q) by (apply Qle_shift_div_r; [exact Hn|lra]).
    set (x := (c / n)%Q) in *. clearbody x. lra. }
  rewrite Hloop. destruct settled as [u|e].
  - eexists _, _, _. split; [reflexivity|]. cbn [actions isPlaying currentIndex].
    split; [exact Hact|]. split; [reflexivity|]. intros _.
    split; [exact Hbound|]. split; [left; exact Hlog|].
    apply Hprogress; cbn [actions currentIndex]; auto.
  - destruct Hlog as [Hlog Hlt].
    eexists _, _, _. split; [reflexivity|]. cbn [actions isPlaying currentIndex].
    split; [exact Hact|]. split; [reflexivity|]. intros _.
    split; [exact Hbound|]. split.
    + right. split; [|exact Hlt]. rewrite dispatched_app, Hlog. cbn. apply app_nil_r.
    + apply Hprogress; cbn [actions currentIndex]; auto.
Qed.

Lemma play_loop_not_playing (stops : nat -> bool) (fuel : nat)
    (l : list BrickAction) (i : nat) (w : World) (log : list Obs) :
  loop stops fuel {| actions := l; isPlaying := false; currentIndex := i |} w log
  = Some ({| actions := l; isPlaying := false; currentIndex := i |}, w, log, Ok tt).
Proof.
  destruct fuel; cbn [play_loop actions isPlaying currentIndex];
    now rewrite Bool.andb_false_r.
Qed.

Lemma sleep_dispatches_nothing (l : list BrickAction) (i : nat) (a : BrickAction) :
  dispatched (if (S i <? length l)%nat then delay_before (l !! S i) a else []) = [].
Proof.
  destruct (S i <? length l)%nat; [apply delay_before_quiet|reflexivity].
Qed.

(** The loop, when [stop()] is first called while the action [k] places
    after the cursor is in flight, lets that action finish and dispatches
    nothing after it. *)
Lemma play_loop_stopped (l : list BrickAction) (stops : nat -> bool) :
  forall k rest i fuel w wk log,
    drop i l = rest -> (length rest <= fuel)%nat ->
    (forall j, (j < i + k)%nat -> stops j = false) ->
    stops (i + k)%nat = true ->
    (k < length rest)%nat ->
    run (take (S k) rest) w = Ok wk ->
    exists log',
      loop stops fuel {| actions := l; isPlaying := true; currentIndex := i |} w log
      = Some ({| actions := l; isPlaying := false; currentIndex := (i + S k)%nat |},
              wk, log ++ log', Ok tt)
      /\ dispatched log' = take (S k) rest.
Proof.
  induction k as [|k IH]; intros rest i fuel w wk log Hdrop Hfuel Hbefore Hstop Hk Hrun.
  - destruct rest as [|a rest]; [simpl in Hk; lia|].
    destruct (drop_cons_inv _ _ _ _ Hdrop) as (Hlook & Hlt & _).
    destruct fuel as [|fuel]; [simpl in Hfuel; lia|].
    cbn [take dispatch_all] in Hrun.
    destruct (snd (exec a w)) as [w1|e] eqn:Eexec; [|discriminate].
    injection Hrun as ->.
    apply (executeAction_ok executeMouseAction executeSystemAction) in Eexec.
    cbn [play_loop actions isPlaying currentIndex].
    rewrite Hlt. cbn [andb]. rewrite Hlook, Eexec.
    rewrite Nat.add_0_r in Hstop. rewrite Hstop. cbn [andb negb].
    rewrite play_loop_not_playing. rewrite Nat.add_1_r.
    eexists. split; [reflexivity|].
    rewrite dispatched_app, sleep_dispatches_nothing. reflexivity.
  - destruct rest as [|b rest]; [simpl in Hk; lia|].
    destruct (drop_cons_inv _ _ _ _ Hdrop) as (Hlook & Hlt & Hdrop').
    destruct fuel as [|fuel]; [simpl in Hfuel; lia|].
    change (take (S (S k)) (b :: rest)) with (b :: take (S k) rest) in Hrun |- *.
    cbn [dispatch_all] in Hrun.
    destruct (snd (exec b w)) as [w1|e] eqn:Eexec; [|discriminate].
    apply (executeAction_ok executeMouseAction executeSystemAction) in Eexec.
    cbn [play_loop actions isPlaying currentIndex].
    rewrite Hlt. cbn [andb]. rewrite Hlook, Eexec, (Hbefore i) by lia.
    cbn [andb negb].
    set (sleep := if (S i <? length l)%nat then delay_before (l !! S i) b else []).
    destruct (IH rest (S i) fuel w1 wk (log ++ [Dispatch b] ++ sleep) Hdrop')
      as (log' & Hloop & Hdis).
    { simpl in Hfuel. lia. }
    { intros j Hj. apply Hbefore. lia. }
    { replace (S i + k)%nat with (i + S k)%nat by lia. exact Hstop. }
    { simpl in Hk. lia. }
    { exact Hrun. }
    exists ([Dispatch b] ++ sleep ++ log'). split.
    + rewrite Hloop. replace (S i + S k)%nat with (i + S (S k))%nat by lia.
      f_equal. f_equal. now rewrite <- !app_assoc.
    + rewrite !dispatched_app. subst sleep. rewrite sleep_dispatches_nothing, Hdis.
      reflexivity.
Qed.

(** Cancellation is cooperative.  When [stop()] is first called while the
    action at index [k] is being dispatched (or during the delay that
    follows it), that action runs to completion, no later action is
    dispatched, and the replay ends idle with the cursor at [k + 1]. *)
Theorem stop_takes_effect_after_the_action_in_flight
    (stops : nat -> bool) (p : BrickPlayer) (w wk : World) (k : nat) :
  isPlaying p = false ->
  (k < length (actions p))%nat ->
  (forall j, (j < k)%nat -> stops j = false) ->
  stops k = true ->
  run (take (S k) (actions p)) w = Ok wk ->
  exists log,
    play' stops p w
    = Some ({| actions := actions p; isPlaying := false; currentIndex := S k |},
            wk, log, Ok tt)
    /\ dispatched log = take (S k) (actions p).
Proof.
  intros Hidle Hk Hbefore Hstop Hrun.
  destruct (play_loop_stopped (actions p) stops k (actions p) 0 (length (actions p))
              w wk [] eq_refl (Nat.le_refl _) Hbefore Hstop Hk Hrun)
    as (log & Hloop & Hdis).
  exists log. unfold play. rewrite Hidle. cbn [orb].
  destruct (length (actions p) =? 0)%nat eqn:E; [apply Nat.eqb_eq in E; lia|].
  rewrite Hloop. cbn [actions currentIndex app Nat.add]. split; [reflexivity|exact Hdis].
Qed.

(** The loop of a replay that runs to the end awaits, after each action
    that another one follows, the gap between their timestamps when that gap
    is positive, and nothing otherwise. *)
Lemma play_loop_timing (l : list BrickAction) (stops : nat -> bool) :
  (forall j, stops j = false) ->
  forall rest i fuel w w' log,
    drop i l = rest -> (i <= length l)%nat -> (length rest <= fuel)%nat ->
    run rest w = Ok w' ->
    exists log',
      loop stops fuel {| actions := l; isPlaying := true; currentIndex := i |} w log
      = Some ({| actions := l; isPlaying := true; currentIndex := length l |},
              w', log ++ log', Ok tt)
      /\ timeouts log' = positive_gaps rest.
Proof.
  intros Hstops rest. induction rest as [|a rest IH]; intros i fuel w w' log Hdrop Hi Hfuel Hrun.
  - apply drop_nil_inv in Hdrop. assert (i = length l) as -> by lia.
    simpl in Hrun. injection Hrun as <-.
    exists []. rewrite app_nil_r. split; [|reflexivity].
    destruct fuel; simpl; rewrite Nat.ltb_irrefl; reflexivity.
  - destruct (drop_cons_inv _ _ _ _ Hdrop) as (Hlook & Hlt & Hdrop').
    destruct fuel as [|fuel]; [simpl in Hfuel; lia|].
    simpl in Hrun. destruct (snd (exec a w)) as [w1|e] eqn:Eexec; [|discriminate].
    apply (executeAction_ok executeMouseAction executeSystemAction) in Eexec.
    cbn [play_loop actions isPlaying currentIndex].
    rewrite Hlt. cbn [andb]. rewrite Hlook, Eexec, Hstops. cbn [andb negb].
    set (sleep := if (S i <? length l)%nat then delay_before (l !! S i) a else []).
    destruct (IH (S i) fuel w1 w' (log ++ [Dispatch a] ++ sleep) Hdrop')
      as (log' & Hloop & Htime).
    { apply Nat.ltb_lt in Hlt. lia. }
    { simpl in Hfuel. lia. }
    { exact Hrun. }
    exists ([Dispatch a] ++ sleep ++ log'). split.
    + rewrite Hloop. f_equal. f_equal. now rewrite <- !app_assoc.
    + unfold timeouts in *. rewrite !flat_map_app, Htime. cbn [flat_map app].
      destruct rest as [|b rest'].
      * apply drop_nil_inv in Hdrop'. subst sleep.
        assert (E : (S i <? length l)%nat = false) by (apply Nat.ltb_ge; lia).
        rewrite E. reflexivity.
      * destruct (drop_cons_inv _ _ _ _ Hdrop') as (Hnext & Hlt' & _).
        subst sleep. rewrite Hlt', Hnext. cbn [delay_before positive_gaps].
        destruct (negb (Qle_bool (timestamp (a_event b) - timestamp (a_event a)) 0));
          reflexivity.
Qed.

(** A replay that runs to the end keeps the recorded rhythm where it can:
    the delays it awaits are, in order, the positive gaps between the
    timestamps of consecutive actions; a gap that is zero or negative is not
    awaited at all. *)
Theorem replay_awaits_the_positive_gaps
    (stops : nat -> bool) (p : BrickPlayer) (w w' : World) :
  isPlaying p = false ->
  actions p <> [] ->
  (forall i, stops i = false) ->
  run (actions p) w = Ok w' ->
  exists p' log,
    play' stops p w = Some (p', w', log, Ok tt)
    /\ timeouts log = positive_gaps (actions p)
    /\ Forall (fun delay => 0 < delay)%Q (timeouts log).
Proof.
  intros Hidle Hne Hstops Hrun.
  destruct (play_loop_timing (actions p) stops Hstops (actions p) 0
              (length (actions p)) w w' [] eq_refl (Nat.le_0_l _) (Nat.le_refl _) Hrun)
    as (log & Hloop & Htime).
  unfold play. rewrite Hidle. cbn [orb].
  destruct (length (actions p) =? 0)%nat eqn:E.
  { apply Nat.eqb_eq in E. destruct (actions p); [congruence|discriminate]. }
  rewrite Hloop. cbn [app]. eexists _, log. split; [reflexivity|].
  split; [exact Htime|]. rewrite Htime.
  clear. induction (actions p) as [|a [|b rest] IH]; cbn [positive_gaps]; try constructor.
  apply Forall_app. split; [|exact IH].
  destruct (Qle_bool (timestamp (a_event b) - timestamp (a_event a)) 0) eqn:E;
    cbn [negb]; constructor; [|constructor].
  apply Qnot_le_lt. intros H. apply Qle_bool_iff in H. congruence.
Qed.

End ReplayExtras.

Lemma replay_dispatches_an_initial_part_witness :
  Player.isPlaying (Samples.idle_player
               [Samples.click_at Samples.blank_context 0; Samples.click_nowhere 100]) = false
  /\ exists p' w' log,
       Player.play unit Samples.strict_document Samples.strict_document
         (fun i => (i =? 0)%nat)
         (Samples.idle_player
            [Samples.click_at Samples.blank_context 0; Samples.click_nowhere 100]) tt
       = Some (p', w', log, Player.Ok tt)
       /\ Player.isPlaying p' = false.
Proof.
  split; [reflexivity|].
  destruct (replay_dispatches_an_initial_part Samples.strict_document
              Samples.strict_document (fun i => (i =? 0)%nat)
              (Samples.idle_player
                 [Samples.click_at Samples.blank_context 0; Samples.click_nowhere 100])
              tt eq_refl)
    as (p' & w' & log & Hplay & _ & Hidle & _).
  exists p', w', log. split; [exact Hplay|exact Hidle].
Defined.

Lemma stop_takes_effect_after_the_action_in_flight_witness :
  (0 < length (Player.actions
                 (Samples.idle_player
                    [Samples.click_at Samples.blank_context 0;
                     Samples.click_at Samples.blank_context 500])))%nat
  /\ exists log,
       Player.play unit Samples.strict_document Samples.strict_document
         (fun i => (i =? 0)%nat)
         (Samples.idle_player
            [Samples.click_at Samples.blank_context 0;
             Samples.click_at Samples.blank_context 500]) tt
       = Some ({| Player.actions :=
                    [Samples.click_at Samples.blank_context 0;
                     Samples.click_at Samples.blank_context 500];
                  Player.isPlaying := false; Player.currentIndex := 1 |},
               tt, log, Player.Ok tt)
       /\ Player.dispatched log = [Samples.click_at Samples.blank_context 0].
Proof.
  split; [cbn; lia|].
  apply (stop_takes_effect_after_the_action_in_flight
           Samples.strict_document Samples.strict_document (fun i => (i =? 0)%nat)
           (Samples.idle_player
              [Samples.click_at Samples.blank_context 0;
               Samples.click_at Samples.blank_context 500]) tt tt 0).
  - reflexivity.
  - cbn. lia.
  - intros j Hj. lia.
  - reflexivity.
  - reflexivity.
Defined.

Lemma replay_awaits_the_positive_gaps_witness :
  Player.dispatch_all unit Samples.strict_document Samples.strict_document
    [Samples.click_at Samples.blank_context 0;
     Samples.click_at Samples.blank_context 500;
     Samples.click_at Samples.blank_context 500] tt = Player.Ok tt
  /\ exists p' log,
       Player.play unit Samples.strict_document Samples.strict_document (fun _ => false)
         (Samples.idle_player
            [Samples.click_at Samples.blank_context 0;
             Samples.click_at Samples.blank_context 500;
             Samples.click_at Samples.blank_context 500]) tt
       = Some (p', tt, log, Player.Ok tt)
       /\ Player.timeouts log = [500 - 0]%Q.
Proof.
  split; [reflexivity|].
  destruct (replay_awaits_the_positive_gaps
              Samples.strict_document Samples.strict_document (fun _ => false)
              (Samples.idle_player
                 [Samples.click_at Samples.blank_context 0;
                  Samples.click_at Samples.blank_context 500;
                  Samples.click_at Samples.blank_context 500]) tt tt
              eq_refl ltac:(discriminate) (fun _ => eq_refl) eq_refl)
    as (p' & log & Hplay & Htime & _).
  exists p', log. split; [exact Hplay|]. rewrite Htime. reflexivity.
Defined.

(** ** How far a variation strays, and what variations share *)

Section VariationExtras.

Import TaskGen.

Variable random : nat -> Q.

(** [Math.random()] returns a number from 0 (included) to 1 (excluded). *)
Hypothesis random_range : forall n, (0 <= random n < 1)%Q.

Lemma timestamp_set_timestamp (e : Event) (t : Q) : timestamp (set_timestamp e t) = t.
Proof. destruct e; reflexivity. Qed.





End VariationExtras.


Section SyntheticTaskFacts.

Import TaskGen.

Variable random : nat -> Q.

Lemma same_shape_contexts (l l' : list ActionRef) :
  Forall2 same_shape l l' ->
  map a_id l' = map a_id l /\ map a_type l' = map a_type l
  /\ map a_context l' = map a_context l.
Proof.
  induction 1 as [|a a' l l' (Hid & Hty & _ & _ & Hctx) _ (IH1 & IH2 & IH3)];
    [repeat split; reflexivity|].
  cbn [map]. now rewrite IH1, IH2, IH3, Hid, Hty, Hctx.
Qed.

Lemma synthetic_loop_spec (uuids nows : nat -> string) (baseTask : RecordingRef) :
  forall remaining i st,
    length (fst (synthetic_loop random uuids nows baseTask i remaining st)) = remaining
    /\ Forall (fun v =>
                 map a_id (r_actions v) = map a_id (r_actions baseTask)
                 /\ map a_type (r_actions v) = map a_type (r_actions baseTask)
                 /\ map a_context (r_actions v) = map a_context (r_actions baseTask))
         (fst (synthetic_loop random uuids nows baseTask i remaining st)).
Proof.
  induction remaining as [|remaining IH]; intros i st; [split; [reflexivity|constructor]|].
  cbn [synthetic_loop].
  assert (Hv : let v := fst (createVariation random (uuids i) (nows i) baseTask st) in
               map a_id (r_actions v) = map a_id (r_actions baseTask)
               /\ map a_type (r_actions v) = map a_type (r_actions baseTask)
               /\ map a_context (r_actions v) = map a_context (r_actions baseTask)).
  { cbv zeta. unfold createVariation, varyEnvironment.
    pose proof (varyActions_shape random (r_actions baseTask) st) as [Hl _].
    destruct (varyActions random (r_actions baseTask) st) as [l' st1].
    destruct (varyScreens random _ st1) as [screens' st2].
    cbn [fst r_actions] in *. now apply same_shape_contexts. }
  destruct (createVariation random (uuids i) (nows i) baseTask st) as [v st1].
  specialize (IH (S i) st1).
  destruct (synthetic_loop random uuids nows baseTask (S i) remaining st1) as [vs st2].
  cbn [fst length] in *. destruct IH as [IH1 IH2].
  split; [now rewrite IH1|]. constructor; assumption.
Qed.

(** [generateSyntheticTask] returns as many variations as asked for, each
    with the base's action identifiers and types in the base's order, and
    each action of each variation holds the very context object of the base
    action it was made from: read after the call, the variations and the
    base all show the same contexts, whatever was written into them. *)
Theorem variations_hold_the_contexts_of_the_base
    (uuids nows : nat -> string) (baseTask : RecordingRef) (variations : nat)
    (st : State) :
  let result := generateSyntheticTask random uuids nows baseTask variations st in
  length (fst result) = variations
  /\ Forall (fun v =>
               map a_id (r_actions v) = map a_id (r_actions baseTask)
               /\ map a_type (r_actions v) = map a_type (r_actions baseTask)
               /\ map a_context (r_actions (snapshot (store (snd result)) v))
                  = map a_context (r_actions (snapshot (store (snd result)) baseTask)))
       (fst result).
Proof.
  cbv zeta. unfold generateSyntheticTask.
  destruct (synthetic_loop_spec uuids nows baseTask variations 0 st) as [Hlen Hall].
  split; [exact Hlen|].
  eapply Forall_impl; [exact Hall|]. cbv beta. intros v (Hid & Hty & Hctx).
  split; [exact Hid|]. split; [exact Hty|].
  cbn [snapshot r_actions]. rewrite !map_map. cbn [deref a_context].
  rewrite <- !(map_map a_context). now rewrite Hctx.
Qed.

End SyntheticTaskFacts.

(** ** Merging recordings *)

Section MergeFacts.

Import TaskGen.

Variable random : nat -> Q.
Hypothesis random_range : forall n, (0 <= random n < 1)%Q.

Lemma random_below_range (n : Z) (st : State) :
  (0 <= n)%Z ->
  (0 <= fst (random_below random n st))%Z
  /\ (fst (random_below random n st) <= Z.pred (Z.max n 1))%Z.
Proof.
  intros Hn. unfold random_below. cbn [fst].
  pose proof (random_range (draws st)) as [H0 H1].
  set (r := random (draws st)) in *.
  assert (Hq : (0 <= inject_Z n)%Q) by (change 0%Q with (inject_Z 0); now rewrite <- Zle_Qle).
  assert (Hx : (0 <= r * inject_Z n)%Q) by (apply Qmult_le_0_compat; assumption).
  split.
  - change 0%Z with (Qfloor (inject_Z 0)) at 1. now apply Qfloor_resp_le.
  - destruct (Z.eq_dec n 0%Z) as [->|Hne].
    + assert (E : (r * inject_Z 0 == 0)%Q) by ring. rewrite (Qfloor_comp _ _ E). reflexivity.
    + assert (Hpos : (0 < inject_Z n)%Q)
        by (change 0%Q with (inject_Z 0); rewrite <- Zlt_Qlt; lia).
      assert (Hlt : (r * inject_Z n < inject_Z n)%Q).
      { pose proof (Qmult_lt_compat_r r 1 (inject_Z n) Hpos H1) as H.
        now rewrite Qmult_1_l in H. }
      pose proof (Qfloor_le (r * inject_Z n)) as Hfl.
      assert (Hz : (inject_Z (Qfloor (r * inject_Z n)) < inject_Z n)%Q)
        by (eapply Qle_lt_trans; eauto).
      rewrite <- Zlt_Qlt in Hz. lia.
Qed.

Lemma slice_inner {A} (xs : list A) (start size : Z) :
  (0 <= start)%Z -> (0 <= size)%Z -> (start + size <= Z.of_nat (length xs))%Z ->
  JS.slice xs start (start + size)
  = take (Z.to_nat size) (drop (Z.to_nat start) xs).
Proof.
  intros Hs Hz Hle. unfold JS.slice, JS.relative_index.
  destruct (start <? 0)%Z eqn:E1; [apply Z.ltb_lt in E1; lia|].
  destruct (start + size <? 0)%Z eqn:E2; [apply Z.ltb_lt in E2; lia|].
  f_equal; [|f_equal]; lia.
Qed.

Lemma draw_segment_inner (task : RecordingRef) (st : State) :
  inner_run task (fst (draw_segment random task st)).
Proof.
  unfold draw_segment, inner_run.
  set (len := Z.of_nat (length (r_actions task))).
  pose proof (random_below_range len st ltac:(lia)) as [Hs0 Hs1].
  destruct (random_below random len st) as [segmentSize st1]. cbn [fst] in Hs0, Hs1.
  pose proof (random_below_range (len - segmentSize) st1 ltac:(lia)) as [Hi0 Hi1].
  destruct (random_below random (len - segmentSize) st1) as [startIndex st2].
  cbn [fst] in *.
  exists (Z.to_nat startIndex), (Z.to_nat segmentSize). split; [lia|].
  apply slice_inner; lia.
Qed.

Lemma Math_max_finite_upper (xs : list Q) (x : Q) :
  (x <= JS.Math_max_finite x xs)%Q
  /\ forall y, In y xs -> (y <= JS.Math_max_finite x xs)%Q.
Proof.
  unfold JS.Math_max_finite. revert x. induction xs as [|z xs IH]; intros x.
  - split; [apply Qle_refl|intros ? []].
  - cbn [fold_left]. destruct (Qle_bool z x) eqn:E.
    + apply Qle_bool_iff in E. destruct (IH x) as [H1 H2].
      split; [exact H1|]. intros y [<-|Hy]; [eapply Qle_trans; eauto|auto].
    + assert (Hlt : (x < z)%Q).
      { apply Qnot_le_lt. intros H. apply Qle_bool_iff in H. congruence. }
      destruct (IH z) as [H1 H2].
      split; [apply Qlt_le_weak; eapply Qlt_le_trans; eauto|].
      intros y [<-|Hy]; auto.
Qed.

Lemma lastTimestamp_bounds (existing : list ActionRef) (a : ActionRef) :
  In a existing -> (timestamp (a_event a) <= lastTimestamp existing)%Q.
Proof.
  destruct existing as [|b rest]; [intros []|]. cbn [lastTimestamp].
  destruct (Math_max_finite_upper (map (fun b => timestamp (a_event b)) rest)
              (timestamp (a_event b))) as [H1 H2].
  intros [<-|Hin]; [exact H1|]. apply H2.
  exact (in_map (fun b : ActionRef => timestamp (a_event b)) rest a Hin).
Qed.

Lemma normalize_erased (actions existing : list ActionRef) :
  map erase_timestamp (normalizeActionTimestamps actions existing)
  = map erase_timestamp actions.
Proof.
  unfold normalizeActionTimestamps.
  generalize (lastTimestamp existing). intros L.
  assert (H : forall (l : list ActionRef) (k : nat),
             map erase_timestamp
               (imap (fun index action =>
                        mkAction (a_id action) (a_type action)
                          (set_timestamp (a_event action)
                             (L + inject_Z (Z.of_nat (k + index)) * 100)%Q)
                          (a_context action)) l)
             = map erase_timestamp l).
  { induction l as [|a l IH]; intros k; [reflexivity|].
    cbn [imap map]. f_equal.
    - unfold erase_timestamp. cbn [a_id a_type a_event a_context].
      destruct (a_event a); reflexivity.
    - rewrite <- (IH (S k)). f_equal. apply imap_ext. intros i x _. cbn.
      now replace (k + S i)%nat with (S (k + i))%nat by lia. }
  apply (H actions 0%nat).
Qed.

Lemma normalize_in_time_order (actions existing : list ActionRef) :
  in_time_order (normalizeActionTimestamps actions existing)
  /\ forall b, In b (normalizeActionTimestamps actions existing) ->
               (lastTimestamp existing <= timestamp (a_event b))%Q.
Proof.
  unfold normalizeActionTimestamps, in_time_order.
  generalize (lastTimestamp existing). intros L.
  assert (H : forall (l : list ActionRef) (k : nat),
             let out :=
               imap (fun index action =>
                       mkAction (a_id action) (a_type action)
                         (set_timestamp (a_event action)
                            (L + inject_Z (Z.of_nat (k + index)) * 100)%Q)
                         (a_context action)) l in
             StronglySorted
               (fun a b => (timestamp (a_event a) <= timestamp (a_event b))%Q) out
             /\ forall b, In b out ->
                  (L + inject_Z (Z.of_nat k) * 100 <= timestamp (a_event b))%Q).
  { induction l as [|a l IH]; intros k; cbv zeta.
    - split; [constructor|intros ? []].
    - cbn [imap].
      assert (Hext : imap ((fun index action =>
                              mkAction (a_id action) (a_type action)
                                (set_timestamp (a_event action)
                                   (L + inject_Z (Z.of_nat (k + index)) * 100)%Q)
                                (a_context action)) ∘ S) l
                     = imap (fun index action =>
                               mkAction (a_id action) (a_type action)
                                 (set_timestamp (a_event action)
                                    (L + inject_Z (Z.of_nat (S k + index)) * 100)%Q)
                                 (a_context action)) l).
      { apply imap_ext. intros i x _. cbn.
        now replace (k + S i)%nat with (S (k + i))%nat by lia. }
      rewrite Hext. destruct (IH (S k)) as [Hsorted Hlow]. cbv zeta in Hsorted, Hlow.
      assert (Hstep : (L + inject_Z (Z.of_nat k) * 100
                       <= L + inject_Z (Z.of_nat (S k)) * 100)%Q).
      { assert (Hk : (inject_Z (Z.of_nat k) <= inject_Z (Z.of_nat (S k)))%Q)
          by (rewrite <- Zle_Qle; lia).
        lra. }
      split.
      + constructor; [exact Hsorted|]. apply List.Forall_forall. intros b Hb.
        cbn [a_event]. rewrite timestamp_set_timestamp, Nat.add_0_r.
        eapply Qle_trans; [exact Hstep|apply Hlow; exact Hb].
      + intros b [<-|Hb].
        * cbn [a_event]. rewrite timestamp_set_timestamp, Nat.add_0_r. apply Qle_refl.
        * eapply Qle_trans; [exact Hstep|apply Hlow; exact Hb]. }
  destruct (H actions 0%nat) as [H1 H2]. cbv zeta in H1, H2.
  split; [exact H1|]. intros b Hb. specialize (H2 b Hb).
  change (inject_Z (Z.of_nat 0)) with 0%Q in H2. lra.
Qed.

Lemma merge_loop_spec (tasks : list RecordingRef) :
  forall merged used st,
    in_time_order merged ->
    exists segments,
      Forall2 inner_run tasks segments
      /\ map erase_timestamp (fst (fst (merge_loop random tasks merged used st)))
         = map erase_timestamp (merged ++ concat segments)
      /\ in_time_order (fst (fst (merge_loop random tasks merged used st))).
Proof.
  induction tasks as [|task tasks IH]; intros merged used st Hsorted.
  - exists []. cbn. rewrite app_nil_r. split; [constructor|]. split; [reflexivity|exact Hsorted].
  - cbn [merge_loop].
    pose proof (draw_segment_inner task st) as Hrun.
    destruct (draw_segment random task st) as [segment st1]. cbn [fst] in Hrun.
    destruct (normalize_in_time_order segment merged) as [Hnew Hlow].
    destruct (IH (merged ++ normalizeActionTimestamps segment merged)
                (Set_add (r_name task) used) st1) as (segments & Hruns & Herased & Hord).
    { apply StronglySorted_app_2; [|exact Hsorted|exact Hnew].
      intros x y Hx Hy. apply list_elem_of_In in Hx, Hy.
      eapply Qle_trans; [apply lastTimestamp_bounds; exact Hx|apply Hlow; exact Hy]. }
    exists (segment :: segments). split; [constructor; assumption|].
    split; [|exact Hord].
    rewrite Herased, !map_app, normalize_erased. cbn [concat].
    now rewrite map_app, app_assoc.
Qed.

Lemma sort_insert_last {A} (compare : A -> A -> number) (x : A) (sorted : list A) :
  Forall (fun y => JS.gt (compare y x) (JS.Fin 0) = false) sorted ->
  JS.sort_insert compare x sorted = sorted ++ [x].
Proof.
  induction 1 as [|y sorted Hy _ IH]; [reflexivity|].
  cbn [JS.sort_insert]. rewrite Hy, IH. reflexivity.
Qed.

(** A sort leaves an array that is already in order as it is. *)
Lemma sort_in_order {A} (compare : A -> A -> number) (l : list A) :
  StronglySorted (fun y x => JS.gt (compare y x) (JS.Fin 0) = false) l ->
  JS.sort compare l = l.
Proof.
  unfold JS.sort. intros Hsorted.
  assert (H : forall acc,
             StronglySorted (fun y x => JS.gt (compare y x) (JS.Fin 0) = false) (acc ++ l) ->
             fold_left (fun sorted x => JS.sort_insert compare x sorted) l acc = acc ++ l).
  { clear Hsorted. induction l as [|x l IH]; intros acc Hacc; [now rewrite app_nil_r|].
    cbn [fold_left]. rewrite sort_insert_last.
    - rewrite IH; [now rewrite <- app_assoc|]. now rewrite <- app_assoc.
    - apply List.Forall_forall. intros y Hy.
      apply (StronglySorted_app_1_elem_of _ _ _ y x Hacc);
        [apply list_elem_of_In; exact Hy|left]. }
  apply (H []). exact Hsorted.
Qed.

Lemma in_time_order_sorted (l : list ActionRef) :
  in_time_order l ->
  StronglySorted
    (fun y x => JS.gt (JS.sub (JS.Fin (timestamp (a_event y))) (JS.Fin (timestamp (a_event x))))
                  (JS.Fin 0) = false) l.
Proof.
  unfold in_time_order. induction 1 as [|a l Hl IH Ha]; constructor; [exact IH|].
  eapply List.Forall_impl; [|exact Ha]. cbv beta. intros b Hab.
  cbn [JS.sub JS.neg JS.add]. unfold JS.gt. apply lt_Fin_false.
  cbv beta in Hab. lra.
Qed.

Lemma inner_runs_length (tasks : list RecordingRef) (segments : list (list ActionRef)) :
  Forall2 inner_run tasks segments ->
  (length (concat segments)
   <= list_sum (map (fun task => pred (length (r_actions task))) tasks))%nat.
Proof.
  induction 1 as [|task segment tasks segments (start & size & Hle & ->) _ IH];
    [reflexivity|].
  cbn [concat map]. rewrite length_app, length_take.
  match goal with
  | |- context [list_sum (?x :: ?l)] => change (list_sum (x :: l)) with (x + list_sum l)%nat
  end.
  lia.
Qed.

(** What [mergeTasks] makes of its sources.  With [Math.random()] in its
    range and at least one recording, the merged recording consists, in the
    order of the recordings, of one run of consecutive actions from each,
    re-timed and otherwise unchanged; no run reaches the last action of its
    recording, so a recording of one action contributes nothing and the merged
    recording has at most [length - 1] actions per source.  The timestamps
    given to the runs never decrease, so the final sort moves nothing.  The
    environment is the first recording's. *)
Theorem merge_draws_inner_runs_in_source_order
    (uuid now : string) (tasks : list RecordingRef) (st : State) :
  tasks <> [] ->
  exists merged segments,
    fst (mergeTasks random uuid now tasks st) = Player.Ok merged
    /\ Forall2 inner_run tasks segments
    /\ map erase_timestamp (r_actions merged) = map erase_timestamp (concat segments)
    /\ in_time_order (r_actions merged)
    /\ (length (r_actions merged)
        <= list_sum (map (fun task => pred (length (r_actions task))) tasks))%nat
    /\ Some (r_environment merged) = option_map r_environment (head tasks).
Proof.
  intros Hne. unfold mergeTasks.
  destruct (merge_loop_spec tasks [] [] st) as (segments & Hruns & Herased & Hord);
    [constructor|].
  destruct (merge_loop random tasks [] [] st) as [[mergedActions used] st1].
  cbn [fst app] in Herased, Hord.
  destruct tasks as [|first rest]; [congruence|]. cbn [fst].
  rewrite (sort_in_order _ _ (in_time_order_sorted _ Hord)).
  eexists _, segments. split; [reflexivity|]. cbn [r_actions r_environment head option_map].
  split; [exact Hruns|]. split; [exact Herased|]. split; [exact Hord|].
  split; [|reflexivity].
  rewrite <- (length_map erase_timestamp), Herased, length_map.
  now apply inner_runs_length.
Qed.

Lemma Set_add_spec (x : string) (set : list string) :
  (forall y, In y (Set_add x set) <-> y = x \/ In y set)
  /\ (List.NoDup set -> List.NoDup (Set_add x set)).
Proof.
  unfold Set_add. destruct (existsb (String.eqb x) set) eqn:E.
  - apply existsb_exists in E as (z & Hz & Hxz). apply String.eqb_eq in Hxz. subst z.
    split; [|auto]. intros y. split; [auto|]. intros [->|H]; auto.
  - assert (Hnot : ~ In x set).
    { intros Hin. assert (existsb (String.eqb x) set = true).
      { apply existsb_exists. exists x. split; [exact Hin|apply String.eqb_refl]. }
      congruence. }
    split.
    + intros y. rewrite in_app_iff. cbn. split.
      * intros [H|[H|[]]]; auto.
      * intros [->|H]; auto.
    + intros Hnd. apply NoDup_ListNoDup. apply NoDup_app. split; [|split].
      * now apply NoDup_ListNoDup.
      * intros y Hy [->|[]]%list_elem_of_In. apply Hnot. now apply list_elem_of_In.
      * apply NoDup_singleton.
Qed.

Lemma Set_of_spec (l : list string) :
  List.NoDup (Set_of l) /\ forall x, In x (Set_of l) <-> In x l.
Proof.
  unfold Set_of.
  assert (H : forall set,
             List.NoDup set ->
             List.NoDup (fold_left (fun set x => Set_add x set) l set)
             /\ forall x, In x (fold_left (fun set x => Set_add x set) l set)
                          <-> In x set \/ In x l).
  { induction l as [|y l IH]; intros set Hnd.
    - split; [exact Hnd|]. intros x. cbn. tauto.
    - cbn [fold_left]. destruct (Set_add_spec y set) as [Hin Hnd'].
      destruct (IH (Set_add y set) (Hnd' Hnd)) as [H1 H2].
      split; [exact H1|]. intros x. rewrite H2, Hin. cbn. intuition auto. }
  destruct (H [] (List.NoDup_nil _)) as [H1 H2].
  split; [exact H1|]. intros x. rewrite H2. cbn. tauto.
Qed.

(** The tags of a merged recording are the tags of its sources, each once,
    followed by the markers [synthetic] and [merged], which are appended even
    when a source already carries them. *)
Theorem merged_tags_are_the_source_tags_once
    (uuid now : string) (tasks : list RecordingRef) (st : State)
    (merged : RecordingRef) :
  fst (mergeTasks random uuid now tasks st) = Player.Ok merged ->
  exists sourceTags,
    r_tags merged = sourceTags ++ ["synthetic"; "merged"]
    /\ List.NoDup sourceTags
    /\ forall tag, In tag sourceTags <-> exists task, In task tasks /\ In tag (r_tags task).
Proof.
  unfold mergeTasks.
  destruct (merge_loop random tasks [] [] st) as [[mergedActions used] st1].
  destruct tasks as [|first rest]; [discriminate|]. cbn [fst].
  intros H. injection H as <-. cbn [r_tags].
  destruct (Set_of_spec (flat_map r_tags (first :: rest))) as [Hnd Hin].
  eexists. split; [reflexivity|]. split; [exact Hnd|].
  intros tag. rewrite Hin, in_flat_map. reflexivity.
Qed.

End MergeFacts.

Lemma merge_draws_inner_runs_in_source_order_witness :
  (forall n, (0 <= Samples.three_quarters n < 1)%Q)
  /\ [Samples.recording_of
        [Samples.click_at 1%nat 0; Samples.click_at 2%nat 10; Samples.click_at 3%nat 20]]
     <> []
  /\ exists merged,
       fst (TaskGen.mergeTasks Samples.three_quarters "id" "now"
              [Samples.recording_of
                 [Samples.click_at 1%nat 0; Samples.click_at 2%nat 10;
                  Samples.click_at 3%nat 20]]
              {| TaskGen.store := Samples.busy_store; TaskGen.draws := 0 |})
       = Player.Ok merged
       /\ (length (r_actions merged) <= 2)%nat.
Proof.
  assert (H : forall n, (0 <= Samples.three_quarters n < 1)%Q).
  { intros n. unfold Samples.three_quarters. split; [discriminate|reflexivity]. }
  split; [exact H|]. split; [discriminate|].
  destruct (merge_draws_inner_runs_in_source_order Samples.three_quarters H "id" "now"
              [Samples.recording_of
                 [Samples.click_at 1%nat 0; Samples.click_at 2%nat 10;
                  Samples.click_at 3%nat 20]]
              {| TaskGen.store := Samples.busy_store; TaskGen.draws := 0 |}
              ltac:(discriminate))
    as (merged & segments & Hok & _ & _ & _ & Hlen & _).
  exists merged. split; [exact Hok|exact Hlen].
Defined.

Lemma merged_tags_are_the_source_tags_once_witness :
  exists merged sourceTags,
    fst (TaskGen.mergeTasks Samples.three_quarters "id" "now"
           [Samples.recording_of
              [Samples.click_at 1%nat 0; Samples.click_at 2%nat 10]]
           {| TaskGen.store := Samples.busy_store; TaskGen.draws := 0 |})
    = Player.Ok merged
    /\ r_tags merged = sourceTags ++ ["synthetic"; "merged"]
    /\ List.NoDup sourceTags.
Proof.
  eexists.
  destruct (merged_tags_are_the_source_tags_once Samples.three_quarters "id" "now"
              [Samples.recording_of
                 [Samples.click_at 1%nat 0; Samples.click_at 2%nat 10]]
              {| TaskGen.store := Samples.busy_store; TaskGen.draws := 0 |}
              _ eq_refl)
    as (sourceTags & Htags & Hnd & _).
  exists sourceTags. split; [reflexivity|]. split; [exact Htags|exact Hnd].
Defined.

(** ** The aggregated system state *)

Section AggregateFacts.

Import AbsoluteZero Learning.

Lemma total_snoc (field : SystemState -> Q) (states : list SystemState) (st : SystemState) :
  total field (states ++ [st]) = (total field states + field st)%Q.
Proof. unfold total. rewrite map_app, fold_left_app. reflexivity. Qed.

Lemma totals_step (states : list SystemState) (st : SystemState) :
  fold_left
    (fun state '(key, value) => <[key := (default 0%Q (state !! key) + value)%Q]> state)
    (systemState_entries st) (totals states)
  = totals (states ++ [st]).
Proof.
  assert (Hsnoc : exists s l, states ++ [st] = s :: l).
  { destruct states; cbn; eauto. }
  destruct Hsnoc as (s & l & Hsnoc).
  unfold totals at 2. rewrite Hsnoc, <- Hsnoc. rewrite !total_snoc.
  unfold systemState_entries. cbn [fold_left].
  apply map_eq. intros key.
  destruct states as [|s0 states0].
  - cbn [totals]. unfold total. cbn [map fold_left].
    destruct (decide (key = "cpuUsage")) as [->|H1]; [by simplify_map_eq|].
    destruct (decide (key = "memoryUsage")) as [->|H2]; [by simplify_map_eq|].
    destruct (decide (key = "activeProcesses")) as [->|H3]; [by simplify_map_eq|].
    destruct (decide (key = "activeServices")) as [->|H4]; [by simplify_map_eq|].
    by simplify_map_eq.
  - set (sts := s0 :: states0). unfold totals. cbv iota. fold sts.
    destruct (decide (key = "cpuUsage")) as [->|H1]; [by simplify_map_eq|].
    destruct (decide (key = "memoryUsage")) as [->|H2]; [by simplify_map_eq|].
    destruct (decide (key = "activeProcesses")) as [->|H3]; [by simplify_map_eq|].
    destruct (decide (key = "activeServices")) as [->|H4]; [by simplify_map_eq|].
    by simplify_map_eq.
Qed.

(** [aggregateSystemState] adds up, metric by metric, the system states of
    the actions that carry one, in the order of the actions; when no action
    carries a system state the result has no key at all (not four zeros). *)
Theorem aggregate_sums_each_metric (actions : list BrickAction) :
  aggregateSystemState actions
  = totals (omap (fun action => systemState (a_context action)) actions).
Proof.
  unfold aggregateSystemState.
  change (∅ : gmap string Q) with (totals []).
  change (omap (fun action : BrickAction => systemState (a_context action)) actions)
    with ([] ++ omap (fun action : BrickAction => systemState (a_context action)) actions).
  generalize (@nil SystemState). induction actions as [|a actions IH]; intros states.
  - cbn. now rewrite app_nil_r.
  - cbn [fold_left omap list_omap]. destruct (systemState (a_context a)) as [st|].
    + rewrite totals_step, IH, <- app_assoc. reflexivity.
    + apply IH.
Qed.

End AggregateFacts.

(** ** Ranking of the selected patterns *)

Section SelectionFacts.

Import AbsoluteZero Learning.

Lemma ge_trans (x y z : number) :
  comparable x = true -> comparable y = true -> comparable z = true ->
  JS.ge x y = true -> JS.ge y z = true -> JS.ge x z = true.
Proof.
  destruct x as [p| | |], y as [q| | |], z as [r| | |]; cbn; try discriminate; auto.
  intros _ _ _ H1 H2. apply Qle_bool_iff in H1, H2. apply Qle_bool_iff.
  eapply Qle_trans; eauto.
Qed.

(** The comparator of [selectRelevantPatterns], [(a, b) => score(b) -
    score(a)], read on comparable scores: it is positive when the second
    pattern has the strictly higher score, and otherwise the first has a score
    at least as high. *)
Lemma comparator_positive (x y : number) :
  comparable x = true -> comparable y = true ->
  if JS.gt (JS.sub x y) (JS.Fin 0) then JS.ge x y = true else JS.ge y x = true.
Proof.
  destruct x as [p| | |], y as [q| | |]; cbn; try discriminate; auto.
  intros _ _. destruct (Qle_bool (p + - q) 0) eqn:E; cbn.
  - apply Qle_bool_iff in E. apply Qle_bool_iff. lra.
  - apply Qle_bool_iff. destruct (Qlt_le_dec 0 (p + - q)) as [H|H]; [lra|].
    apply Qle_bool_iff in H. congruence.
Qed.

Lemma sort_insert_ranked (x : TaskPattern) (l : list TaskPattern) :
  comparable (calculatePatternScore x) = true ->
  Forall (fun p => comparable (calculatePatternScore p) = true) l ->
  StronglySorted outranks l ->
  Permutation
    (JS.sort_insert (fun a b => JS.sub (calculatePatternScore b) (calculatePatternScore a))
       x l) (x :: l)
  /\ StronglySorted outranks
       (JS.sort_insert (fun a b => JS.sub (calculatePatternScore b) (calculatePatternScore a))
          x l).
Proof.
  intros Hx Hall Hsorted. induction Hsorted as [|y l Hl IH Hy].
  - split; [reflexivity|]. repeat constructor.
  - apply Forall_cons in Hall as [Hcy Hall]. specialize (IH Hall) as [Hperm Hs].
    cbn [JS.sort_insert].
    pose proof (comparator_positive (calculatePatternScore x) (calculatePatternScore y)
                  Hx Hcy) as Hcmp.
    destruct (JS.gt (JS.sub (calculatePatternScore x) (calculatePatternScore y)) (JS.Fin 0)).
    + split; [reflexivity|]. constructor; [constructor; assumption|].
      constructor; [exact Hcmp|].
      apply List.Forall_forall. intros z Hz. unfold outranks.
      apply (ge_trans _ (calculatePatternScore y)); auto.
      * rewrite Forall_forall in Hall. apply Hall. apply list_elem_of_In. exact Hz.
      * rewrite List.Forall_forall in Hy. apply Hy. exact Hz.
    + split.
      * rewrite Hperm. apply perm_swap.
      * constructor; [exact Hs|]. apply List.Forall_forall. intros z Hz.
        apply (Permutation_in _ Hperm) in Hz. destruct Hz as [<-|Hz]; [exact Hcmp|].
        rewrite List.Forall_forall in Hy. apply Hy. exact Hz.
Qed.

Lemma sort_ranked (l : list TaskPattern) :
  Forall (fun p => comparable (calculatePatternScore p) = true) l ->
  Permutation
    (JS.sort (fun a b => JS.sub (calculatePatternScore b) (calculatePatternScore a)) l) l
  /\ StronglySorted outranks
       (JS.sort (fun a b => JS.sub (calculatePatternScore b) (calculatePatternScore a)) l).
Proof.
  unfold JS.sort.
  set (insert := fun sorted x =>
                   JS.sort_insert
                     (fun a b => JS.sub (calculatePatternScore b) (calculatePatternScore a))
                     x sorted).
  assert (H : forall acc,
             Forall (fun p => comparable (calculatePatternScore p) = true) acc ->
             StronglySorted outranks acc ->
             Forall (fun p => comparable (calculatePatternScore p) = true) l ->
             Permutation (fold_left insert l acc) (acc ++ l)
             /\ StronglySorted outranks (fold_left insert l acc)).
  { induction l as [|x l IH]; intros acc Hacc Hsorted Hl.
    - cbn. rewrite app_nil_r. split; [reflexivity|exact Hsorted].
    - apply Forall_cons in Hl as [Hx Hl]. cbn [fold_left].
      destruct (sort_insert_ranked x acc Hx Hacc Hsorted) as [Hperm Hs].
      destruct (IH (insert acc x)) as [Hperm' Hs']; [|exact Hs|exact Hl|].
      + apply Forall_forall. intros z Hz. apply list_elem_of_In in Hz.
        apply (Permutation_in _ Hperm) in Hz. destruct Hz as [<-|Hz]; [exact Hx|].
        rewrite Forall_forall in Hacc. apply Hacc, list_elem_of_In, Hz.
      + split; [|exact Hs']. rewrite Hperm'. unfold insert at 1. rewrite Hperm.
        cbn [app]. apply Permutation_middle. }
  intros Hl. destruct (H [] (List.Forall_nil _) (SSorted_nil _) Hl) as [H1 H2].
  split; assumption.
Qed.

(** Selection returns the best relevant patterns.  When every stored
    pattern has a score that can be compared (a finite number or [Infinity],
    as every pattern distilled from a recording has), the relevant patterns
    split into the selected ones and the rest so that, read in this order,
    scores never increase: the selection is sorted from the highest score
    down, and no relevant pattern left out has a higher score than a selected
    one. *)
Theorem selection_returns_the_best_relevant_patterns
    (store : PatternStore) (hints : ContextHints) (c : Q) :
  Forall (fun p => comparable (calculatePatternScore p) = true) (Map_values store) ->
  exists rest,
    Permutation (selectRelevantPatterns store hints (JS.Fin c) ++ rest)
      (List.filter (fun p => isPatternRelevant p hints) (Map_values store))
    /\ StronglySorted outranks (selectRelevantPatterns store hints (JS.Fin c) ++ rest).
Proof.
  intros Hall.
  set (relevant := List.filter (fun p => isPatternRelevant p hints) (Map_values store)).
  assert (Hrel : Forall (fun p => comparable (calculatePatternScore p) = true) relevant).
  { apply Forall_forall. intros p Hp. apply list_elem_of_In in Hp.
    apply filter_In in Hp as [Hp _]. rewrite Forall_forall in Hall.
    apply Hall, list_elem_of_In, Hp. }
  destruct (sort_ranked relevant Hrel) as [Hperm Hsorted].
  unfold selectRelevantPatterns. fold relevant.
  set (sorted := JS.sort _ relevant) in *.
  destruct (slice_to_prefix sorted
              (JS.Math_max (JS.Fin 1)
                 (JS.Math_floor
                    (JS.mul_double (JS.Fin c) (JS.of_nat (length (Map_values store)))))))
    as [bound ->].
  exists (drop bound sorted). rewrite take_drop. split; assumption.
Qed.

End SelectionFacts.

Lemma selection_returns_the_best_relevant_patterns_witness :
  Forall (fun p => Learning.comparable (AbsoluteZero.calculatePatternScore p) = true)
    (AbsoluteZero.Map_values Samples.mixed_pattern_store)
  /\ exists rest,
       Permutation
         (AbsoluteZero.selectRelevantPatterns Samples.mixed_pattern_store
            Samples.linux_hint (JS.Fin (1 # 2)) ++ rest)
         (List.filter (fun p => AbsoluteZero.isPatternRelevant p Samples.linux_hint)
            (AbsoluteZero.Map_values Samples.mixed_pattern_store))
       /\ StronglySorted Learning.outranks
            (AbsoluteZero.selectRelevantPatterns Samples.mixed_pattern_store
               Samples.linux_hint (JS.Fin (1 # 2)) ++ rest).
Proof.
  assert (H : Forall (fun p => Learning.comparable (AbsoluteZero.calculatePatternScore p)
                               = true)
                (AbsoluteZero.Map_values Samples.mixed_pattern_store)).
  { apply Forall_forall. intros p Hp. apply list_elem_of_In in Hp.
    vm_compute in Hp. repeat (destruct Hp as [<-|Hp]; [reflexivity|]). destruct Hp. }
  split; [exact H|].
  exact (selection_returns_the_best_relevant_patterns Samples.mixed_pattern_store
           Samples.linux_hint (1 # 2) H).
Defined.

(** ** The optimisation passes *)

Section OptimisationFacts.

Import AbsoluteZero Learning.

(** *** Equality of serialised events is an equivalence *)

Lemma eqb_reflexive {A} (eqb : A -> A -> bool) :
  equivalence_b eqb -> forall a, eqb a a = true.
Proof. intros H. apply H. Qed.

Lemma eqb_symmetric {A} (eqb : A -> A -> bool) :
  equivalence_b eqb -> forall a b, eqb a b = true -> eqb b a = true.
Proof. intros H. apply H. Qed.

Lemma eqb_transitive {A} (eqb : A -> A -> bool) :
  equivalence_b eqb -> forall a b c, eqb a b = true -> eqb b c = true -> eqb a c = true.
Proof. intros H. apply H. Qed.

Lemma Qeq_bool_equivalence : equivalence_b Qeq_bool.
Proof.
  split; [|split].
  - intros a. apply Qeq_bool_iff. reflexivity.
  - intros a b H. apply Qeq_bool_iff in H. apply Qeq_bool_iff. now symmetry.
  - intros a b c H1 H2. apply Qeq_bool_iff in H1, H2. apply Qeq_bool_iff.
    now rewrite H1.
Qed.

Lemma String_eqb_equivalence : equivalence_b String.eqb.
Proof.
  split; [|split].
  - apply String.eqb_refl.
  - intros a b H. apply String.eqb_eq in H. subst. apply String.eqb_refl.
  - intros a b c H1 H2. apply String.eqb_eq in H1, H2. subst. apply String.eqb_refl.
Qed.

Lemma Z_eqb_equivalence : equivalence_b Z.eqb.
Proof.
  split; [|split].
  - apply Z.eqb_refl.
  - intros a b H. apply Z.eqb_eq in H. subst. apply Z.eqb_refl.
  - intros a b c H1 H2. apply Z.eqb_eq in H1, H2. subst. apply Z.eqb_refl.
Qed.

Lemma Bool_eqb_equivalence : equivalence_b Bool.eqb.
Proof.
  split; [|split].
  - now intros [].
  - now intros [] [].
  - now intros [] [] [].
Qed.

Lemma option_eqb_equivalence {A} (eqb : A -> A -> bool) :
  equivalence_b eqb -> equivalence_b (option_eqb eqb).
Proof.
  intros (Hr & Hs & Ht). split; [|split].
  - intros [a|]; [apply Hr|reflexivity].
  - intros [a|] [b|]; cbn; auto.
  - intros [a|] [b|] [c|]; cbn; try discriminate; auto. apply Ht.
Qed.

Create HintDb eqb discriminated.
#[local] Hint Resolve Qeq_bool_equivalence String_eqb_equivalence Z_eqb_equivalence
  Bool_eqb_equivalence option_eqb_equivalence : eqb.

Ltac split_all := repeat match goal with |- _ /\ _ => split end.

Ltac fields_equivalence :=
  split; [|split];
  [ intros a; rewrite ?andb_true_iff; split_all;
    apply eqb_reflexive; auto with eqb
  | intros a b; rewrite ?andb_true_iff; intros H; decompose [and] H; split_all;
    (apply eqb_symmetric; [auto with eqb|assumption])
  | intros a b c; rewrite ?andb_true_iff; intros H1 H2;
    decompose [and] H1; decompose [and] H2; split_all;
    (eapply eqb_transitive; [auto with eqb|eassumption|eassumption]) ].

Lemma bounds_eqb_equivalence : equivalence_b bounds_eqb.
Proof. unfold bounds_eqb. fields_equivalence. Qed.
#[local] Hint Resolve bounds_eqb_equivalence : eqb.

Lemma coordinates_eqb_equivalence : equivalence_b coordinates_eqb.
Proof. unfold coordinates_eqb. fields_equivalence. Qed.
#[local] Hint Resolve coordinates_eqb_equivalence : eqb.

Lemma target_eqb_equivalence : equivalence_b target_eqb.
Proof. unfold target_eqb. fields_equivalence. Qed.
#[local] Hint Resolve target_eqb_equivalence : eqb.

Lemma mouse_event_eqb_equivalence : equivalence_b mouse_event_eqb.
Proof. unfold mouse_event_eqb. fields_equivalence. Qed.
#[local] Hint Resolve mouse_event_eqb_equivalence : eqb.

Lemma modifiers_eqb_equivalence : equivalence_b modifiers_eqb.
Proof. unfold modifiers_eqb. fields_equivalence. Qed.
#[local] Hint Resolve modifiers_eqb_equivalence : eqb.

Lemma keyboard_event_eqb_equivalence : equivalence_b keyboard_event_eqb.
Proof. unfold keyboard_event_eqb. fields_equivalence. Qed.
#[local] Hint Resolve keyboard_event_eqb_equivalence : eqb.

Lemma system_call_eqb_equivalence : equivalence_b system_call_eqb.
Proof. unfold system_call_eqb. fields_equivalence. Qed.
#[local] Hint Resolve system_call_eqb_equivalence : eqb.

Lemma window_eqb_equivalence : equivalence_b window_eqb.
Proof. unfold window_eqb. fields_equivalence. Qed.
#[local] Hint Resolve window_eqb_equivalence : eqb.

Lemma system_event_eqb_equivalence : equivalence_b system_event_eqb.
Proof. unfold system_event_eqb. fields_equivalence. Qed.
#[local] Hint Resolve system_event_eqb_equivalence : eqb.

Lemma json_event_eqb_equivalence : equivalence_b json_event_eqb.
Proof.
  split; [|split].
  - intros [m|k|e]; cbn; apply eqb_reflexive; auto with eqb.
  - intros [m|k|e] [m'|k'|e']; cbn; try discriminate;
      apply eqb_symmetric; auto with eqb.
  - intros [m|k|e] [m'|k'|e'] [m''|k''|e'']; cbn; try discriminate;
      apply eqb_transitive; auto with eqb.
Qed.

Lemma action_type_eqb_equivalence : equivalence_b action_type_eqb.
Proof.
  split; [|split].
  - now intros [].
  - now intros [] [].
  - now intros [] [] [].
Qed.

Lemma areActionsSimilar_equivalence : equivalence_b areActionsSimilar.
Proof.
  pose proof json_event_eqb_equivalence as (Hr & Hs & Ht).
  pose proof action_type_eqb_equivalence as (Hr' & Hs' & Ht').
  unfold areActionsSimilar. split; [|split].
  - intros a. rewrite andb_true_iff. auto.
  - intros a b. rewrite !andb_true_iff. intros [H1 H2]. auto.
  - intros a b c. rewrite !andb_true_iff. intros [H1 H2] [H3 H4]. eauto.
Qed.

Lemma areActionsSimilar_comm (a b : BrickAction) :
  areActionsSimilar a b = areActionsSimilar b a.
Proof.
  pose proof areActionsSimilar_equivalence as (_ & Hs & _).
  destruct (areActionsSimilar a b) eqn:E1, (areActionsSimilar b a) eqn:E2;
    try reflexivity.
  - apply Hs in E1. congruence.
  - apply Hs in E2. congruence.
Qed.

Lemma countRedundantActions_cons (a b : BrickAction) (l : list BrickAction) :
  countRedundantActions (a :: b :: l)
  = ((if areActionsSimilar a b then 1 else 0) + countRedundantActions (b :: l))%nat.
Proof. reflexivity. Qed.

Lemma filter_after_length (l : list BrickAction) (previous : BrickAction) :
  (length (filter_after previous l) + countRedundantActions (previous :: l)
   = length l)%nat.
Proof.
  revert previous. induction l as [|a l IH]; intros previous; [reflexivity|].
  rewrite countRedundantActions_cons. cbn [filter_after].
  rewrite (areActionsSimilar_comm a previous). specialize (IH a).
  destruct (areActionsSimilar previous a); cbn [negb length]; lia.
Qed.

Lemma filter_after_sublist (l : list BrickAction) (previous : BrickAction) :
  sublist (filter_after previous l) l.
Proof.
  revert previous. induction l as [|a l IH]; intros previous; [constructor|].
  cbn [filter_after]. destruct (negb (areActionsSimilar a previous)).
  - apply sublist_skip, IH.
  - apply sublist_cons, IH.
Qed.

(** After the pass, the element kept last is similar to the input element
    the filter looks back at, so what is kept next differs from it. *)
Lemma filter_after_clean (l : list BrickAction) :
  forall previous kept,
    areActionsSimilar kept previous = true ->
    countRedundantActions (kept :: filter_after previous l) = 0%nat.
Proof.
  pose proof areActionsSimilar_equivalence as (Hr & Hs & Ht).
  induction l as [|a l IH]; intros previous kept Hk; [reflexivity|].
  cbn [filter_after]. destruct (areActionsSimilar a previous) eqn:E; cbn [negb].
  - apply IH. apply (Ht kept previous a); [exact Hk|]. apply Hs. exact E.
  - rewrite countRedundantActions_cons.
    destruct (areActionsSimilar kept a) eqn:E'.
    + assert (areActionsSimilar a previous = true).
      { apply (Ht a kept previous); [apply Hs; exact E'|exact Hk]. }
      congruence.
    + rewrite (IH a a (Hr a)). reflexivity.
Qed.

(** Removing redundant actions keeps the first action of every run of
    similar actions, in order: what is removed is exactly what
    [countRedundantActions] counts, and the result has no redundant action
    left. *)
Theorem removal_keeps_the_first_of_each_run (actions : list BrickAction) :
  sublist (removeRedundantActions actions) actions
  /\ head (removeRedundantActions actions) = head actions
  /\ (length (removeRedundantActions actions) + countRedundantActions actions
      = length actions)%nat
  /\ countRedundantActions (removeRedundantActions actions) = 0%nat.
Proof.
  pose proof areActionsSimilar_equivalence as (Hr & _ & _).
  destruct actions as [|first rest].
  - repeat split. constructor.
  - cbn [removeRedundantActions]. split; [apply sublist_skip, filter_after_sublist|].
    split; [reflexivity|]. split.
    + cbn [length]. pose proof (filter_after_length rest first). lia.
    + apply filter_after_clean, Hr.
Qed.

(** *** The optimised sequence *)

Lemma json_event_eqb_timestamp (e e' : Event) :
  json_event_eqb e e' = true -> timestamp e == timestamp e'.
Proof.
  destruct e as [m|k|s], e' as [m'|k'|s']; cbn; try discriminate.
  - unfold mouse_event_eqb. rewrite !andb_true_iff. intros (_ & H).
    now apply Qeq_bool_iff.
  - unfold keyboard_event_eqb. rewrite !andb_true_iff. intros (_ & H).
    now apply Qeq_bool_iff.
  - unfold system_event_eqb. rewrite !andb_true_iff. intros (_ & H).
    now apply Qeq_bool_iff.
Qed.

Lemma timestamp_retimed (i : nat) (a : BrickAction) :
  timestamp (a_event (retimed i a)) = (inject_Z (Z.of_nat i) * 75)%Q.
Proof. unfold retimed. cbn [a_event]. destruct (a_event a); reflexivity. Qed.

Lemma retimed_not_similar (i j : nat) (a b : BrickAction) :
  i <> j -> areActionsSimilar (retimed i a) (retimed j b) = false.
Proof.
  intros Hij. unfold areActionsSimilar.
  destruct (json_event_eqb (a_event (retimed i a)) (a_event (retimed j b))) eqn:E;
    [|apply andb_false_r].
  apply json_event_eqb_timestamp in E. rewrite !timestamp_retimed in E.
  exfalso. apply Hij.
  assert (H : inject_Z (Z.of_nat i) == inject_Z (Z.of_nat j)).
  { apply Qmult_inj_r in E; [exact E|discriminate]. }
  apply Nat2Z.inj. apply inject_Z_injective. exact H.
Qed.

Lemma isErrorAction_retimed (i : nat) (a : BrickAction) :
  isErrorAction (retimed i a) = isErrorAction a.
Proof.
  unfold isErrorAction, retimed. cbn [a_type a_event].
  destruct (a_type a), (a_event a); reflexivity.
Qed.

Lemma imap_clean (l : list BrickAction) :
  forall f : nat -> BrickAction -> BrickAction,
    (forall i j a b, i <> j -> areActionsSimilar (f i a) (f j b) = false) ->
    countRedundantActions (imap f l) = 0%nat.
Proof.
  induction l as [|a l IH]; intros f Hf; [reflexivity|].
  destruct l as [|b l]; [reflexivity|].
  specialize (IH (f ∘ S)). cbn [imap] in IH |- *.
  rewrite countRedundantActions_cons.
  change ((f ∘ S) 0%nat b) with (f 1%nat b).
  rewrite (Hf 0%nat 1%nat a b) by lia.
  apply IH. intros i j x y Hij. apply Hf. lia.
Qed.

Lemma existsb_imap {A} (P : A -> bool) (l : list A) :
  forall f : nat -> A -> A,
    (forall i a, P (f i a) = P a) -> existsb P (imap f l) = existsb P l.
Proof.
  induction l as [|a l IH]; intros f Hf; [reflexivity|].
  cbn [imap existsb]. rewrite Hf. f_equal. apply IH. intros i x. apply Hf.
Qed.

Lemma isErrorAction_similar (a b : BrickAction) :
  areActionsSimilar a b = true -> isErrorAction a = isErrorAction b.
Proof.
  unfold areActionsSimilar, isErrorAction. rewrite andb_true_iff. intros [Ht He].
  destruct (a_type a), (a_type b); try discriminate; try reflexivity.
  destruct (a_event a) as [m|k|s], (a_event b) as [m'|k'|s'];
    try discriminate; try reflexivity.
  cbn in He. unfold system_event_eqb in He. rewrite !andb_true_iff in He.
  destruct He as ((((_ & _) & Hcall) & _) & _).
  destruct (se_systemCall s) as [c|], (se_systemCall s') as [c'|];
    try discriminate; try reflexivity.
  cbn in Hcall. unfold system_call_eqb in Hcall. rewrite !andb_true_iff in Hcall.
  destruct Hcall as ((_ & Herr) & _).
  destruct (sc_error c), (sc_error c'); try discriminate; reflexivity.
Qed.

Lemma filter_after_errors (l : list BrickAction) (previous : BrickAction) :
  existsb isErrorAction (filter_after previous l) || isErrorAction previous
  = existsb isErrorAction l || isErrorAction previous.
Proof.
  revert previous. induction l as [|a l IH]; intros previous; [reflexivity|].
  cbn [filter_after existsb]. specialize (IH a).
  destruct (areActionsSimilar a previous) eqn:E; cbn [negb existsb].
  - apply isErrorAction_similar in E. rewrite <- E.
    destruct (isErrorAction a), (existsb isErrorAction (filter_after a l)),
      (existsb isErrorAction l); cbn in *; congruence.
  - destruct (isErrorAction a), (isErrorAction previous),
      (existsb isErrorAction (filter_after a l)), (existsb isErrorAction l);
      cbn in *; congruence.
Qed.

Lemma optimised_errors (actions : list BrickAction) :
  existsb isErrorAction (applyLearnedOptimizations actions)
  = existsb isErrorAction actions.
Proof.
  unfold applyLearnedOptimizations, applyEmergentPatterns, optimizeTimings.
  rewrite (existsb_imap isErrorAction _ retimed isErrorAction_retimed).
  destruct actions as [|first rest]; [reflexivity|].
  cbn [removeRedundantActions existsb].
  pose proof (filter_after_errors rest first) as H.
  destruct (isErrorAction first), (existsb isErrorAction (filter_after first rest)),
    (existsb isErrorAction rest); cbn in *; congruence.
Qed.

Lemma optimised_total_time (a : BrickAction) (l : list BrickAction) :
  exists T : Q,
    getTotalExecutionTime (optimizeTimings (a :: l)) = JS.Fin T
    /\ T == inject_Z (Z.of_nat (length l)) * 75.
Proof.
  unfold optimizeTimings.
  assert (Hshape : exists b rest, imap retimed (a :: l) = b :: rest)
    by (cbn [imap]; eauto).
  destruct Hshape as (b & rest & Hshape). rewrite Hshape.
  destruct (getTotalExecutionTime_Fin b rest) as (M & m & ET & HM & Hm & Hall).
  rewrite <- Hshape in HM, Hm, Hall.
  exists (M + - m)%Q. split; [exact ET|].
  assert (Hin : forall t, In t (map (fun x : BrickAction => timestamp (a_event x))
                                   (imap retimed (a :: l))) ->
                  exists i, (i <= length l)%nat /\ t = (inject_Z (Z.of_nat i) * 75)%Q).
  { intros t Ht. apply in_map_iff in Ht as (x & <- & Hx).
    apply list_elem_of_In, elem_of_lookup_imap_1 in Hx as (i & y & -> & Hy).
    exists i. split; [|apply timestamp_retimed].
    apply lookup_lt_Some in Hy. cbn [length] in Hy. lia. }
  assert (Hget : forall i, (i <= length l)%nat ->
                   exists x, In x (imap retimed (a :: l))
                             /\ timestamp (a_event x) = (inject_Z (Z.of_nat i) * 75)%Q).
  { intros i Hi. destruct (lookup_lt_is_Some_2 (a :: l) i) as [y Hy];
      [cbn [length]; lia|].
    exists (retimed i y). split; [|apply timestamp_retimed].
    apply list_elem_of_In. eapply elem_of_lookup_imap_2. exact Hy. }
  destruct (Hin M HM) as (i & Hi & ->). destruct (Hin m Hm) as (j & Hj & ->).
  destruct (Hget 0%nat ltac:(lia)) as (x0 & Hx0 & Ex0).
  destruct (Hget (length l) ltac:(lia)) as (xn & Hxn & Exn).
  pose proof (Hall x0 Hx0) as [H0 _]. pose proof (Hall xn Hxn) as [_ Hn].
  rewrite Ex0 in H0. rewrite Exn in Hn.
  assert (Hi' : (inject_Z (Z.of_nat i) <= inject_Z (Z.of_nat (length l)))%Q)
    by (rewrite <- Zle_Qle; lia).
  assert (Hj' : (0 <= inject_Z (Z.of_nat j))%Q)
    by (change 0%Q with (inject_Z 0); rewrite <- Zle_Qle; lia).
  change (inject_Z (Z.of_nat 0)) with 0%Q in H0. lra.
Qed.

(** The optimised sequence judged by the generator's own criterion.  A
    recording whose actions are an output of [applyLearnedOptimizations]
    (no redundant action left, actions 75 ms apart) qualifies as a success
    pattern exactly when it has between 1 and 20 actions and the input had no
    error action: from 21 actions on, 50 ms per action is no more than seven
    tenths of the total time. *)
Theorem optimised_recording_qualifies_up_to_20_actions
    (task : TaskRecording) (actions : list BrickAction) :
  r_actions task = applyLearnedOptimizations actions ->
  hasPositiveFeedback task = true
  <-> (0 < length (r_actions task) < 21)%nat
      /\ forall a, In a actions -> isErrorAction a = false.
Proof.
  intros Hacts.
  assert (Herr : (forall a, In a (r_actions task) -> isErrorAction a = false)
                 <-> forall a, In a actions -> isErrorAction a = false).
  { assert (Hall : forall l : list BrickAction,
               (forall a, In a l -> isErrorAction a = false)
               <-> existsb isErrorAction l = false).
    { intros l. split.
      - intros H. destruct (existsb isErrorAction l) eqn:E; [|reflexivity].
        apply existsb_exists in E as (x & Hx & Hx'). rewrite (H x Hx) in Hx'.
        discriminate.
      - intros H x Hx. destruct (isErrorAction x) eqn:Ex; [|reflexivity].
        assert (existsb isErrorAction l = true) by (apply existsb_exists; eauto).
        congruence. }
    rewrite !Hall, Hacts, optimised_errors. reflexivity. }
  rewrite hasPositiveFeedback_exact, Herr.
  assert (Hclean : countRedundantActions (r_actions task) = 0%nat).
  { rewrite Hacts. unfold applyLearnedOptimizations, applyEmergentPatterns, optimizeTimings.
    apply imap_clean. intros i j a b. apply retimed_not_similar. }
  rewrite Hclean.
  destruct (removeRedundantActions actions) as [|a l] eqn:Ekept.
  - assert (E : r_actions task = []).
    { rewrite Hacts. unfold applyLearnedOptimizations. rewrite Ekept. reflexivity. }
    rewrite E. cbn [length]. split; [intros [H _]; congruence|intros [H _]; lia].
  - destruct (optimised_total_time a l) as (T & ET & HT).
    assert (E : r_actions task = optimizeTimings (a :: l)).
    { rewrite Hacts. unfold applyLearnedOptimizations. rewrite Ekept. reflexivity. }
    assert (Elen : length (r_actions task) = S (length l)).
    { rewrite E. unfold optimizeTimings. rewrite length_imap. reflexivity. }
    rewrite Elen, E.
    assert (Hnum : ((7 # 10) * T < inject_Z (Z.of_nat (S (length l))) * 50)%Q
                   <-> (S (length l) < 21)%nat).
    { rewrite Nat2Z.inj_succ. unfold Z.succ. rewrite inject_Z_plus.
      change (inject_Z 1) with 1%Q.
      assert (Hz : (S (length l) < 21)%nat <-> (inject_Z (Z.of_nat (length l)) < 20)%Q).
      { change 20%Q with (inject_Z 20). rewrite <- Zlt_Qlt. lia. }
      rewrite Hz. split; intros H; lra. }
    split.
    + intros (_ & H1 & (T' & ET' & H2) & _).
      assert (T' = T) by congruence. subst T'.
      split; [|exact H1]. split; [lia|]. apply Hnum. exact H2.
    + intros [[_ H1] H2]. split.
      { unfold optimizeTimings. cbn [imap]. discriminate. }
      split; [exact H2|]. split; [|lia].
      exists T. split; [exact ET|]. apply Hnum. exact H1.
Qed.

End OptimisationFacts.

Lemma optimised_recording_qualifies_up_to_20_actions_witness :
  r_actions
    (Samples.recording_of
       (Learning.applyLearnedOptimizations (r_actions Samples.one_repeat_in_five)))
  = Learning.applyLearnedOptimizations (r_actions Samples.one_repeat_in_five)
  /\ AbsoluteZero.hasPositiveFeedback
       (Samples.recording_of
          (Learning.applyLearnedOptimizations (r_actions Samples.one_repeat_in_five)))
     = true.
Proof.
  split; [reflexivity|].
  apply (proj2 (optimised_recording_qualifies_up_to_20_actions
                  (Samples.recording_of
                     (Learning.applyLearnedOptimizations
                        (r_actions Samples.one_repeat_in_five)))
                  (r_actions Samples.one_repeat_in_five) eq_refl)).
  split; [vm_compute; lia|].
  intros a Ha. cbn in Ha.
  repeat (destruct Ha as [<-|Ha]; [reflexivity|]). destruct Ha.
Defined.

(** ** Feedback *)

Section FeedbackFacts.

Import Learning.

Lemma weighs_ext (m : gmap string number) (v v' : string -> Q) :
  weighs m v -> (forall k, (v k == v' k)%Q) -> weighs m v'.
Proof.
  intros H Hv k. destruct (H k) as (w & E & Hw). exists w. split; [exact E|].
  now rewrite Hw.
Qed.

Lemma or_zero_Fin (q : Q) :
  exists w : Q, or_zero (Some (JS.Fin q)) = JS.Fin w /\ (w == q)%Q.
Proof.
  cbn [or_zero]. destruct (Qeq_bool q 0) eqn:E.
  - apply Qeq_bool_iff in E. exists 0%Q. split; [reflexivity|now symmetry].
  - exists q. split; reflexivity.
Qed.

Lemma reinforce_weighs (step : Q) (m : gmap string number) (key : string)
    (v : string -> Q) :
  weighs m v ->
  weighs (reinforce step m key)
    (fun k => (v k + if string_dec key k then step else 0)%Q).
Proof.
  intros H k. unfold reinforce. destruct (string_dec key k) as [->|Hne].
  - rewrite lookup_insert_eq. destruct (H k) as (w & -> & Hw). cbn [JS.add].
    destruct (or_zero_Fin (w + step)) as (w' & -> & Hw').
    exists w'. split; [reflexivity|]. rewrite Hw', Hw. reflexivity.
  - rewrite lookup_insert_ne by exact Hne. destruct (H k) as (w & E & Hw).
    exists w. split; [exact E|]. rewrite Hw. ring.
Qed.

Lemma fold_reinforce_weighs (step : Q) (keys : list string) :
  forall (m : gmap string number) (v : string -> Q),
    weighs m v ->
    weighs (fold_left (reinforce step) keys m)
      (fun k => (v k + step * inject_Z (Z.of_nat (count_occ string_dec keys k)))%Q).
Proof.
  induction keys as [|x keys IH]; intros m v H.
  - cbn. eapply weighs_ext; [exact H|]. intros k. cbn. ring.
  - cbn [fold_left]. eapply weighs_ext.
    + apply IH. apply reinforce_weighs. exact H.
    + intros k. cbn [count_occ]. destruct (string_dec x k) as [_|_].
      * rewrite Nat2Z.inj_succ. unfold Z.succ. rewrite inject_Z_plus.
        change (inject_Z 1) with 1%Q. ring.
      * ring.
Qed.

Lemma recordFeedback_weighs (g : Learner) (f : LearningFeedback) (v : string -> Q) :
  weighs (emergentKnowledge g) v ->
  weighs (emergentKnowledge (recordFeedback g f)) (fun k => (v k + credit k f)%Q).
Proof.
  intros H. unfold recordFeedback, credit, updateSuccessPatterns.
  cbn [emergentKnowledge]. destruct (f_success f).
  - eapply weighs_ext.
    + apply fold_reinforce_weighs, fold_reinforce_weighs. exact H.
    + intros k. cbn beta. ring.
  - eapply weighs_ext; [exact H|]. intros k. cbn beta. ring.
Qed.

Lemma record_all (feedbacks : list LearningFeedback) :
  forall (g : Learner) (v : string -> Q),
    weighs (emergentKnowledge g) v ->
    learningHistory (fold_left recordFeedback feedbacks g)
    = learningHistory g ++ feedbacks
    /\ weighs (emergentKnowledge (fold_left recordFeedback feedbacks g))
         (fun k => (v k + Qsum (map (credit k) feedbacks))%Q).
Proof.
  induction feedbacks as [|f feedbacks IH]; intros g v H.
  - cbn [fold_left]. split; [now rewrite app_nil_r|].
    eapply weighs_ext; [exact H|]. intros k. cbn. ring.
  - cbn [fold_left].
    destruct (IH (recordFeedback g f) _ (recordFeedback_weighs g f v H)) as [Hh Hw].
    split.
    + rewrite Hh. cbn [recordFeedback learningHistory]. now rewrite <- app_assoc.
    + eapply weighs_ext; [exact Hw|]. intros k. cbn [map Qsum fold_right].
      fold (Qsum (map (credit k) feedbacks)). ring.
Qed.

(** What the generator has learnt.  After any series of feedbacks recorded
    by a fresh generator, the history holds the feedbacks in the order they
    came, failed ones included, and the weight of a key is the number of
    times it was reported as an emergent pattern plus a tenth of the number
    of times it was reported as an adaptation, counted over the successful
    feedbacks only: a failed feedback teaches nothing, and no weight is ever
    [NaN] or infinite. *)
Theorem knowledge_weighs_the_successful_feedback
    (feedbacks : list LearningFeedback) (key : string) :
  let generator := fold_left recordFeedback feedbacks fresh in
  learningHistory generator = feedbacks
  /\ exists weight : Q,
       or_zero (emergentKnowledge generator !! key) = JS.Fin weight
       /\ (weight == Qsum (map (credit key) feedbacks))%Q.
Proof.
  intros generator.
  assert (H0 : weighs (emergentKnowledge fresh) (fun _ => 0%Q)).
  { intros k. exists 0%Q. split; [reflexivity|reflexivity]. }
  destruct (record_all feedbacks fresh _ H0) as [Hh Hw].
  split; [exact Hh|].
  destruct (Hw key) as (w & E & Hweight). exists w. split; [exact E|].
  rewrite Hweight. ring.
Qed.

End FeedbackFacts.
